(** * KaniTTS backend: chunked synthesis, model registry, download progress

    A shallow embedding of [backend/tts_service.py], [backend/downloader.py],
    [backend/config.py] and the audio handlers of [backend/main.py].

    Python text ([str]) is a sequence of Unicode code points; [len] counts
    code points, so a text is a [list N].  Dictionary keys, paths and file
    names are [string]s.  Dictionaries are [gmap]s. *)

From Stdlib Require Import Ascii QArith Qround.
From stdpp Require Import base list strings gmap.

Local Open Scope N_scope.

(** ** Python [str] primitives used by the text chunker *)

Abbreviation str := (list N).

(** [str.isspace] on one code point; the regular expression class [\s] of a
    [str] pattern tests the same table. *)
Definition isspace (c : N) : bool :=
  ((9 <=? c) && (c <=? 13)) || ((28 <=? c) && (c <=? 32))
  || (c =? 133) || (c =? 160) || (c =? 5760)
  || ((8192 <=? c) && (c <=? 8202))
  || (c =? 8232) || (c =? 8233) || (c =? 8239) || (c =? 8287) || (c =? 12288).

Definition SPACE : N := 32.

(** [text.split()]: the maximal runs of non-whitespace, in order. *)
Fixpoint py_split_go (cur : str) (s : str) : list str :=
  match s with
  | [] => match cur with [] => [] | _ => [reverse cur] end
  | c :: s' =>
      if isspace c
      then match cur with
           | [] => py_split_go [] s'
           | _ => reverse cur :: py_split_go [] s'
           end
      else py_split_go (c :: cur) s'
  end.

Definition py_split (s : str) : list str := py_split_go [] s.

(** [sep.join(l)] *)
Fixpoint py_join (sep : str) (l : list str) : str :=
  match l with
  | [] => []
  | [x] => x
  | x :: l' => x ++ sep ++ py_join sep l'
  end.

(** [s.lstrip()] and [s.rstrip()] *)
Fixpoint lstrip (s : str) : str :=
  match s with
  | [] => []
  | c :: s' => if isspace c then lstrip s' else s
  end.

Fixpoint rstrip (s : str) : str :=
  match s with
  | [] => []
  | c :: s' =>
      match rstrip s' with
      | [] => if isspace c then [] else [c]
      | r => c :: r
      end
  end.

(** [s.strip()]: leading and trailing whitespace removed. *)
Definition strip (s : str) : str := rstrip (lstrip s).

(** Truth value of a [str]: non-empty. *)
Definition truthy (s : str) : bool :=
  match s with [] => false | _ => true end.

(** ** [re.split(r'(?<=[...])\s+', s)]

    The pattern matches a maximal run of whitespace whose first character is
    preceded by a character of the class.  [re.split] scans left to right,
    takes the leftmost match, and resumes after it; a match is never empty.
    [insep] says that the scan is inside a match, [prev] is the character
    before the scan position, [cur] the piece collected so far (reversed). *)

Definition lookbehind (cls : N -> bool) (prev : option N) : bool :=
  match prev with Some p => cls p | None => false end.

Fixpoint re_split_go (cls : N -> bool) (insep : bool) (prev : option N)
    (cur : str) (s : str) : list str :=
  match s with
  | [] => [reverse cur]
  | c :: s' =>
      if isspace c then
        if insep then re_split_go cls true (Some c) cur s'
        else if lookbehind cls prev
             then reverse cur :: re_split_go cls true (Some c) [] s'
             else re_split_go cls false (Some c) (c :: cur) s'
      else re_split_go cls false (Some c) (c :: cur) s'
  end.

Definition re_split (cls : N -> bool) (s : str) : list str :=
  re_split_go cls false None [] s.

(** [[.!?]] *)
Definition sentence_end (c : N) : bool :=
  (c =? 46) || (c =? 33) || (c =? 63).

(** [[,;–—]]: comma, semicolon, en dash (U+2013), em dash (U+2014) *)
Definition clause_sep (c : N) : bool :=
  (c =? 44) || (c =? 59) || (c =? 8211) || (c =? 8212).

(** ** [tts_service.split_into_sentences] *)

Definition MAX_CHUNK_CHARS : nat := 200.

(** The inner [for part in sub_parts] loop; the state is
    [(chunks, current_chunk)]. *)
Fixpoint pack_parts (sub_parts : list str) (chunks : list str)
    (current_chunk : str) : list str * str :=
  match sub_parts with
  | [] => (chunks, current_chunk)
  | part :: rest =>
      if (length current_chunk + length part + 1 <=? MAX_CHUNK_CHARS)%nat
      then pack_parts rest chunks
             (if truthy current_chunk
              then strip (current_chunk ++ [SPACE] ++ part)
              else part)
      else pack_parts rest
             (if truthy current_chunk then chunks ++ [current_chunk] else chunks)
             part
  end.

(** One iteration of [for sentence in sentences]. *)
Definition chunk_sentence (chunks : list str) (sentence : str) : list str :=
  if (length sentence <=? MAX_CHUNK_CHARS)%nat
  then chunks ++ [sentence]
  else
    let sub_parts := re_split clause_sep sentence in
    let '(chunks, current_chunk) := pack_parts sub_parts chunks [] in
    if truthy current_chunk then chunks ++ [current_chunk] else chunks.

(** [" ".join(text.split())] *)
Definition normalize (text : str) : str := py_join [SPACE] (py_split text).

(** [[s.strip() for s in sentences if s.strip()]] *)
Definition strip_nonempty (sentences : list str) : list str :=
  map strip (filter (fun s => truthy (strip s) = true) sentences).

(** The list [sentences] that the chunking loop of [split_into_sentences]
    runs over. *)
Definition sentences_of (text : str) : list str :=
  strip_nonempty (re_split sentence_end (normalize text)).

Definition split_into_sentences (text : str) : list str :=
  let text := normalize text in
  let sentences := strip_nonempty (re_split sentence_end text) in
  let chunks := fold_left chunk_sentence sentences [] in
  match chunks with
  | [] => [text]
  | _ => chunks
  end.

(** ASCII literals as texts, for examples. *)
Fixpoint text_of (s : string) : str :=
  match s with
  | EmptyString => []
  | String a s' => Ascii.N_of_ascii a :: text_of s'
  end.

(** ** Predicates on texts used in the statements about the chunker *)

Abbreviation nonspace := (fun c : N => isspace c = false).

(** A word: a non-empty run without whitespace. *)
Definition word (w : str) : Prop := w ≠ [] ∧ Forall nonspace w.

(** A text that neither starts nor ends with whitespace, and is not empty. *)
Definition tight (s : str) : Prop :=
  (∃ c t, s = c :: t ∧ isspace c = false) ∧
  (∃ c t, s = t ++ [c] ∧ isspace c = false).

(** A normalized, non-empty text: words separated by single spaces. *)
Definition normal (s : str) : Prop :=
  ∃ w ws, Forall word (w :: ws) ∧ s = py_join [SPACE] (w :: ws).

(** Every chunk prefixed by a space; [py_join] up to the first space. *)
Definition sp_all (l : list str) : str := concat (map (cons SPACE) l).

(** [[c] if c else []] *)
Definition opt_chunk (c : str) : list str := if truthy c then [c] else [].

(** A character of the class directly followed by whitespace, inside [s]:
    a place where [re.split] with that class would cut. *)
Fixpoint has_sep (cls : N -> bool) (s : str) : bool :=
  match s with
  | a :: (b :: _) as t => (cls a && isspace b) || has_sep cls t
  | _ => false
  end.

(** The whitespace-normalized text in the specification's words: every run
    of whitespace collapsed to a single space, then trimmed.  [inrun] says
    that the previous character was whitespace. *)
Fixpoint collapse_ws (inrun : bool) (s : str) : str :=
  match s with
  | [] => []
  | c :: s' =>
      if isspace c
      then if inrun then collapse_ws true s' else SPACE :: collapse_ws true s'
      else c :: collapse_ws false s'
  end.

Definition whitespace_normalized (text : str) : str :=
  strip (collapse_ws false text).

(** A chunk longer than the budget that is one whole piece of the clause
    split of a too long sentence, and has no place left to cut. *)
Definition oversized_fallback (text c : str) : Prop :=
  ∃ sentence,
    sentence ∈ sentences_of text
    ∧ (MAX_CHUNK_CHARS < length sentence)%nat
    ∧ c ∈ re_split clause_sep sentence
    ∧ has_sep clause_sep c = false.

(** ** Stitching the audio of the chunks ([TTSService.generate], the
    "Concatenate all audio chunks" block) *)

Local Close Scope N_scope.
Local Open Scope Z_scope.

(** [config.SAMPLE_RATE] *)
Definition SAMPLE_RATE : Z := 22050.

(** A sample is a [float32] amplitude.  Stitching copies and counts samples
    and never computes with them; amplitudes are rationals here. *)
Definition sample : Type := Q.
Abbreviation Audio := (list sample).

(** [int(SAMPLE_RATE * 0.15)]: the product truncated towards zero. *)
Definition silence_len : nat :=
  Z.to_nat (Qfloor (inject_Z SAMPLE_RATE * (15 # 100))).

(** [np.zeros(int(SAMPLE_RATE * 0.15), dtype=np.float32)] *)
Definition silence : Audio := replicate silence_len (0 : Q).

(** The loop [for i, audio in enumerate(audio_arrays)], from index [i] on;
    [n] is [len(audio_arrays)]. *)
Fixpoint stitch_loop (n : Z) (i : Z) (audio_arrays : list Audio)
    (combined_parts : list Audio) : list Audio :=
  match audio_arrays with
  | [] => combined_parts
  | audio :: rest =>
      let combined_parts := combined_parts ++ [audio] in
      let combined_parts :=
        if i <? n - 1 then combined_parts ++ [silence] else combined_parts in
      stitch_loop n (i + 1) rest combined_parts
  end.

(** [np.concatenate(parts)]: raises [ValueError] on an empty list. *)
Definition np_concatenate (parts : list Audio) : option Audio :=
  match parts with
  | [] => None
  | _ => Some (concat parts)
  end.

(** [combined_audio], or [None] when the block raises. *)
Definition stitch (audio_arrays : list Audio) : option Audio :=
  if Z.of_nat (length audio_arrays) =? 1
  then audio_arrays !! 0%nat
  else np_concatenate
         (stitch_loop (Z.of_nat (length audio_arrays)) 0 audio_arrays []).

(** The stitched audio in the specification's words: the chunks in order,
    a silence between two consecutive chunks, none after the last. *)
Fixpoint silence_between (sil : Audio) (chunks : list Audio) : Audio :=
  match chunks with
  | [] => []
  | [a] => a
  | a :: rest => a ++ sil ++ silence_between sil rest
  end.

(** [sum(len(chunk_i))] *)
Definition total_samples (chunks : list Audio) : nat :=
  foldr (fun a n => (length a + n)%nat) 0%nat chunks.

(** ** Exceptions and the effect monad

    Stateful code threads a state of type [S] and may raise an exception of
    type [E]; the state reached when an exception is raised is kept, as in
    Python. *)

Definition Eff (S E A : Type) : Type := S → (E + A) * S.

Section Eff.
Context {S E : Type}.

#[export] Instance eff_ret : MRet (Eff S E) :=
  fun A (a : A) s => (inr a, s).

#[export] Instance eff_bind : MBind (Eff S E) :=
  fun A B (k : A → Eff S E B) (m : Eff S E A) s =>
    match m s with
    | (inl e, s') => (inl e, s')
    | (inr a, s') => k a s'
    end.

Definition raise {A} (e : E) : Eff S E A := fun s => (inl e, s).

Definition gets {A} (f : S → A) : Eff S E A := fun s => (inr (f s), s).

Definition modify (f : S → S) : Eff S E unit := fun s => (inr tt, f s).

(** [try: m  except Exception as e: h e] *)
Definition try_except {A} (m : Eff S E A) (h : E → Eff S E A) : Eff S E A :=
  fun s =>
    match m s with
    | (inl e, s') => h e s'
    | (inr a, s') => (inr a, s')
    end.
End Eff.

(** The exceptions raised by the backend. *)
Inductive PyExc :=
  | ValueError (msg : string)
  | RuntimeError (msg : string)
  | KeyError (key : string)
  | HTTPException (status_code : Z) (detail : string)
  | Exception (msg : string).

(** [str(e)] *)
Definition exc_str (e : PyExc) : string :=
  match e with
  | ValueError m | RuntimeError m | KeyError m | Exception m => m
  | HTTPException _ d => d
  end.

(** ** File system

    A path is a string.  A node is a regular file with its bytes or a
    directory with the names of its entries. *)

Inductive Node :=
  | File (data : list N)
  | Dir (entries : list string).

Abbreviation FS := (gmap string Node).

(** [dir / name] for a plain entry name *)
Definition path_div (dir name : string) : string := dir +:+ "/" +:+ name.

(** [path.exists()] *)
Definition path_exists (fs : FS) (p : string) : bool :=
  match fs !! p with Some _ => true | None => false end.

(** Shell-style matching of one name; [*] matches any run of characters. *)
Fixpoint fnmatch_go (pat : list ascii) : list ascii → bool :=
  match pat with
  | [] => fun s => match s with [] => true | _ => false end
  | p :: pat' =>
      if Ascii.eqb p "*"%char
      then fix star (s : list ascii) : bool :=
             fnmatch_go pat' s
             || match s with [] => false | _ :: s' => star s' end
      else fun s =>
             match s with
             | c :: s' => Ascii.eqb p c && fnmatch_go pat' s'
             | [] => false
             end
  end.

Definition fnmatch (pat name : string) : bool :=
  fnmatch_go (String.list_ascii_of_string pat) (String.list_ascii_of_string name).

(** [list(path.glob(pattern))] for a pattern without a separator *)
Definition path_glob (fs : FS) (p : string) (pattern : string) : list string :=
  match fs !! p with
  | Some (Dir entries) =>
      map (path_div p) (List.filter (fnmatch pattern) entries)
  | _ => []
  end.

(** [os.remove(dir / name)] *)
Definition fs_remove (dir name : string) (fs : FS) : FS :=
  let fs := delete (path_div dir name) fs in
  match fs !! dir with
  | Some (Dir entries) =>
      <[dir := Dir (List.filter (fun n => negb (String.eqb n name)) entries)]> fs
  | _ => fs
  end.

(** Writing the bytes of the file [dir / name] *)
Definition fs_write (dir name : string) (data : list N) (fs : FS) : FS :=
  let fs := <[path_div dir name := File data]> fs in
  match fs !! dir with
  | Some (Dir entries) =>
      if existsb (String.eqb name) entries then fs
      else <[dir := Dir (entries ++ [name])]> fs
  | _ => fs
  end.

(** ** [config.py] *)

Record ModelConfig := {
  name : string;
  repo_id : string;
  local_path : string
}.

(** A loaded [KaniTTS] object: its identity and the path it was built from. *)
Record Handle := {
  handle_id : nat;
  handle_path : string
}.

(** A call of [model.save_audio] that raises: the message of the exception,
    and the bytes the call had written to the path by then, when it had
    created the file. *)
Record SaveFault := {
  save_msg : string;
  save_left : option (list N)
}.

(** What lies outside the backend: where it is installed, the model
    runtime, the random source.  An operation of the runtime returns its
    result, or the message of the exception it raises. *)
Class Env := {
  (** [Path(__file__).parent.parent] *)
  BASE_DIR : string;
  (** [KaniTTS(model_path, device_map="cpu")] *)
  KaniTTS_init : FS → string → option string;
  (** [model(chunk, speaker_id=speaker_id)] *)
  model_call : Handle → str → option string → string + Audio;
  (** [model.save_audio(audio, path)]: the bytes it writes, or how it
      fails *)
  save_audio : Handle → Audio → string → SaveFault + list N;
  (** [uuid.uuid4().hex] at the n-th call *)
  uuid4_hex : nat → string
}.

Section Backend.
Context `{env : Env}.

Definition MODELS_DIR : string := path_div BASE_DIR "models".
Definition OUTPUT_DIR : string := path_div BASE_DIR "output".

Definition MODELS : gmap string ModelConfig :=
  <["en" := {| name := "English";
               repo_id := "nineninesix/kani-tts-400m-en";
               local_path := path_div MODELS_DIR "kani-tts-400m-en" |}]>
  (<["de" := {| name := "German (Multilingual)";
                repo_id := "nineninesix/kani-tts-370m";
                local_path := path_div MODELS_DIR "kani-tts-370m" |}]> ∅).

(** [key in d] *)
Definition py_in {V} (key : string) (d : gmap string V) : bool :=
  match d !! key with Some _ => true | None => false end.

(** ** [downloader.py] *)

Definition essential_patterns : list string :=
  ["*.safetensors"; "config.json"; "*.bin"]%string.

Definition is_model_downloaded (fs : FS) (model_key : string) : bool :=
  match MODELS !! model_key with
  | None => false
  | Some model =>
      if negb (path_exists fs (local_path model)) then false
      else existsb
             (fun pattern =>
                match path_glob fs (local_path model) pattern with
                | [] => false
                | _ => true
                end)
             essential_patterns
  end.

Inductive Status := pending | downloading | completed | error.

Record DownloadProgress := {
  model_key : string;
  total_size : Z;
  downloaded_size : Z;
  current_file : string;
  status : Status;
  error_message : option string;
  files_total : Z;
  files_downloaded : Z
}.

(** [DownloadProgress(model_key)] *)
Definition DownloadProgress_init (key : string) : DownloadProgress :=
  {| model_key := key; total_size := 0; downloaded_size := 0;
     current_file := ""; status := pending; error_message := None;
     files_total := 0; files_downloaded := 0 |}.

(** [sys.float_info.max], the largest double: [(2^53 - 1) * 2^971] *)
Definition FLOAT_MAX : Z := (2 ^ 53 - 1) * 2 ^ 971.

(** [a / b] on integers: a float, here the exact quotient;
    [None] is [ZeroDivisionError].  Python rounds the quotient to a double
    and raises [OverflowError] when it is beyond the doubles; the exact
    quotient stands for the code's value when [|a| <= FLOAT_MAX * |b|],
    as it is for the byte counts of files. *)
Definition py_truediv (a b : Z) : option Q :=
  if b =? 0 then None else Some (inject_Z a / inject_Z b)%Q.

(** [min(100.0, x)] *)
Definition min_100 (x : Q) : Q :=
  if Qlt_le_dec x 100 then x else 100%Q.

Definition progress_percent (p : DownloadProgress) : option Q :=
  if total_size p =? 0 then Some 0%Q
  else match py_truediv (downloaded_size p) (total_size p) with
       | None => None
       | Some q => Some (min_100 (q * 100)%Q)
       end.

(** The quotient [downloaded_size / total_size] of non-negative sizes is
    within the doubles, when it is taken: [progress_percent] does not raise
    [OverflowError]. *)
Definition quotient_in_range (p : DownloadProgress) : Prop :=
  total_size p = 0 ∨ downloaded_size p ≤ FLOAT_MAX * total_size p.

(** [round(x, 1)]: to the nearest tenth, ties to even.  The code rounds the
    double, this the exact value; they agree where the double is exact, as
    at 0 and at 100. *)
Definition py_round1 (x : Q) : Q :=
  let y := (x * 10)%Q in
  let f := Qfloor y in
  let r := (y - inject_Z f)%Q in
  let n := match (r ?= 1 # 2)%Q with
           | Lt => f
           | Gt => f + 1
           | Eq => if Z.even f then f else f + 1
           end in
  (inject_Z n / 10)%Q.

(** The dictionary built by [to_dict], then sent as JSON *)
Record ProgressDict := {
  d_model_key : string;
  d_model_name : string;
  d_total_size : Z;
  d_downloaded_size : Z;
  d_progress_percent : Q;
  d_current_file : string;
  d_status : Status;
  d_error_message : option string;
  d_files_total : Z;
  d_files_downloaded : Z
}.

(** The exceptions seen by [download_model_with_progress], by the
    [except] clause that catches them *)
Inductive HubExc :=
  | GatedRepoError
  | RepositoryNotFoundError
  | OtherException (msg : string).

Definition to_dict (p : DownloadProgress) : HubExc + ProgressDict :=
  match MODELS !! model_key p with
  | None => inl (OtherException (model_key p))
  | Some model =>
      match progress_percent p with
      | None => inl (OtherException "division by zero")
      | Some pct =>
          inr {| d_model_key := model_key p;
                 d_model_name := name model;
                 d_total_size := total_size p;
                 d_downloaded_size := downloaded_size p;
                 d_progress_percent := py_round1 pct;
                 d_current_file := current_file p;
                 d_status := status p;
                 d_error_message := error_message p;
                 d_files_total := files_total p;
                 d_files_downloaded := files_downloaded p |}
      end
  end.

(** What the generator does, in order: the events it yields and the
    operations it starts. *)
Inductive Payload :=
  | ErrorDict (status : Status) (error_message : string)
  | Snapshot (d : ProgressDict).

Inductive Action :=
  | Yield (data : Payload)
  | Sleep (seconds : Q)
  | RepoInfo (repo : string)
  | Mkdir (path : string)
  | StartTransfer (repo : string) (local_dir : string)
  | AwaitTransfer.

(** What the outside world answers during one download. *)
Record Transfer := {
  (** [api.repo_info(...)]: the sizes of the siblings, when there are any *)
  repo_info : HubExc + option (list (option Z));
  (** [local_path.mkdir(parents=True, exist_ok=True)] *)
  mkdir_fault : option HubExc;
  (** [(_get_dir_size, _get_file_count)] at each round of the polling loop;
      the transfer is done after the last one *)
  polls : list (Z * Z);
  (** the exception of the transfer task, if it failed *)
  transfer_fault : option HubExc
}.

(** State of the generator: the [progress] object and what was done so far. *)
Record GenState := {
  progress : DownloadProgress;
  trace : list Action
}.

Abbreviation Gen := (Eff GenState HubExc).

Definition act (a : Action) : Gen unit :=
  modify (fun s => {| progress := progress s; trace := trace s ++ [a] |}).

Definition set_progress (f : DownloadProgress → DownloadProgress) : Gen unit :=
  modify (fun s => {| progress := f (progress s); trace := trace s |}).

(** [yield f"data: {json.dumps(progress.to_dict())}\n\n"] *)
Definition yield_progress : Gen unit :=
  p ← gets progress;
  match to_dict p with
  | inl e => raise e
  | inr d => act (Yield (Snapshot d))
  end.

Definition lift_fault (o : option HubExc) : Gen unit :=
  match o with Some e => raise e | None => mret tt end.

Definition with_status (s : Status) (p : DownloadProgress) : DownloadProgress :=
  {| model_key := model_key p; total_size := total_size p;
     downloaded_size := downloaded_size p; current_file := current_file p;
     status := s; error_message := error_message p;
     files_total := files_total p; files_downloaded := files_downloaded p |}.

Definition with_sizes (total downloaded : Z) (p : DownloadProgress)
    : DownloadProgress :=
  {| model_key := model_key p; total_size := total;
     downloaded_size := downloaded; current_file := current_file p;
     status := status p; error_message := error_message p;
     files_total := files_total p; files_downloaded := files_downloaded p |}.

Definition with_files (total downloaded : Z) (p : DownloadProgress)
    : DownloadProgress :=
  {| model_key := model_key p; total_size := total_size p;
     downloaded_size := downloaded_size p; current_file := current_file p;
     status := status p; error_message := error_message p;
     files_total := total; files_downloaded := downloaded |}.

Definition with_error (msg : string) (p : DownloadProgress) : DownloadProgress :=
  {| model_key := model_key p; total_size := total_size p;
     downloaded_size := downloaded_size p; current_file := current_file p;
     status := error; error_message := Some msg;
     files_total := files_total p; files_downloaded := files_downloaded p |}.

(** [while not download_task.done(): ...] *)
Fixpoint poll_loop (samples : list (Z * Z)) : Gen unit :=
  match samples with
  | [] => mret tt
  | (size, count) :: rest =>
      act (Sleep 1) ;;
      set_progress (fun p =>
        with_files (files_total p) count (with_sizes (total_size p) size p)) ;;
      yield_progress ;;
      poll_loop rest
  end.

(** [sum(s.size or 0 for s in siblings)] *)
Definition siblings_size (siblings : list (option Z)) : Z :=
  foldr (fun s acc => default 0 s + acc) 0 siblings.

(** The body of the [try] block. *)
Definition download_try (tr : Transfer) (model : ModelConfig) : Gen unit :=
  act (RepoInfo (repo_id model)) ;;
  info ← match repo_info tr with
         | inl e => raise e
         | inr i => mret i
         end;
  let siblings := default [] info in
  set_progress (fun p =>
    with_files (Z.of_nat (length siblings)) (files_downloaded p)
      (with_sizes (siblings_size siblings) (downloaded_size p) p)) ;;
  yield_progress ;;
  act (Mkdir (local_path model)) ;;
  lift_fault (mkdir_fault tr) ;;
  act (StartTransfer (repo_id model) (local_path model)) ;;
  poll_loop (polls tr) ;;
  act AwaitTransfer ;;
  lift_fault (transfer_fault tr) ;;
  set_progress (with_status completed) ;;
  set_progress (fun p => with_sizes (total_size p) (total_size p) p) ;;
  yield_progress.

(** The three [except] clauses. *)
Definition download_except (e : HubExc) : Gen unit :=
  set_progress
    (with_error
       match e with
       | GatedRepoError =>
           "This model requires authentication. Please log in to Hugging Face."
       | RepositoryNotFoundError => "Model repository not found."
       | OtherException msg => msg
       end) ;;
  yield_progress.

Definition download_body (fs : FS) (tr : Transfer) (key : string) : Gen unit :=
  match MODELS !! key with
  | None => act (Yield (ErrorDict error "Unknown model"))
  | Some model =>
      if is_model_downloaded fs key then
        set_progress (with_status completed) ;;
        set_progress (with_sizes 1 1) ;;
        yield_progress
      else
        set_progress (with_status downloading) ;;
        yield_progress ;;
        act (Sleep (1 # 10)) ;;
        try_except (download_try tr model) download_except
  end.

(** The run of the generator: what it raised, if anything, and its trace. *)
Definition download_model_with_progress (fs : FS) (tr : Transfer)
    (key : string) : (HubExc + unit) * list Action :=
  let '(r, s) :=
    download_body fs tr key
      {| progress := DownloadProgress_init key; trace := [] |} in
  (r, trace s).

(** The snapshots of a trace, in order. *)
Definition yields (t : list Action) : list Payload :=
  omap (fun a => match a with Yield d => Some d | _ => None end) t.

Definition payload_status (d : Payload) : Status :=
  match d with
  | ErrorDict s _ => s
  | Snapshot d => d_status d
  end.

(** ** [tts_service.TTSService]

    The world: the file system, the two attributes of the singleton
    [tts_service], and how many [KaniTTS] objects and UUIDs were made. *)

Record World := {
  fs : FS;
  _models : gmap string Handle;
  _current_model_key : option string;
  constructions : nat;
  uuid_calls : nat
}.

Abbreviation Py := (Eff World PyExc).

Definition set_fs (f : FS → FS) (w : World) : World :=
  {| fs := f (fs w); _models := _models w;
     _current_model_key := _current_model_key w;
     constructions := constructions w; uuid_calls := uuid_calls w |}.

Definition set_models (f : gmap string Handle → gmap string Handle)
    (w : World) : World :=
  {| fs := fs w; _models := f (_models w);
     _current_model_key := _current_model_key w;
     constructions := constructions w; uuid_calls := uuid_calls w |}.

Definition set_current_model_key (k : option string) (w : World) : World :=
  {| fs := fs w; _models := _models w; _current_model_key := k;
     constructions := constructions w; uuid_calls := uuid_calls w |}.

Definition update (f : World → World) : Py unit := modify f.

(** [TTSService()] on a given file system *)
Definition TTSService_init (files : FS) : World :=
  {| fs := files; _models := ∅; _current_model_key := None;
     constructions := 0; uuid_calls := 0 |}.

Definition DEFAULT_SPEAKERS : gmap string string :=
  <["en" := "jenny"]> (<["de" := "thorsten"]> ∅).

(** [KaniTTS(model_path, device_map="cpu")]: a new object, or the exception
    of the constructor. *)
Definition KaniTTS (model_path : string) : Py Handle :=
  fun w =>
    let w' := {| fs := fs w; _models := _models w;
                 _current_model_key := _current_model_key w;
                 constructions := S (constructions w);
                 uuid_calls := uuid_calls w |} in
    match KaniTTS_init (fs w) model_path with
    | Some msg => (inl (Exception msg), w')
    | None =>
        (inr {| handle_id := constructions w; handle_path := model_path |}, w')
    end.

(** [d[key]] *)
Definition py_getitem {V} (d : gmap string V) (key : string) : Py V :=
  match d !! key with
  | Some v => mret v
  | None => raise (KeyError key)
  end.

Definition load_model (model_key : string) : Py bool :=
  if negb (py_in model_key MODELS)
  then raise (ValueError ("Unknown model: " +:+ model_key))
  else
    downloaded ← gets (fun w => is_model_downloaded (fs w) model_key);
    if negb downloaded
    then raise (RuntimeError ("Model " +:+ model_key +:+ " is not downloaded"))
    else
      loaded ← gets (fun w => py_in model_key (_models w));
      if (loaded : bool)
      then update (set_current_model_key (Some model_key));; mret true
      else
        try_except
          (config ← py_getitem MODELS model_key;
           let model_path := local_path config in
           model ← KaniTTS model_path;
           update (set_models (insert model_key model));;
           update (set_current_model_key (Some model_key));;
           mret true)
          (fun e => raise (RuntimeError ("Failed to load model: " +:+ exc_str e))).

Definition unload_model (model_key : string) : Py bool :=
  loaded ← gets (fun w => py_in model_key (_models w));
  if (loaded : bool)
  then
    update (set_models (delete model_key));;
    current ← gets _current_model_key;
    (if bool_decide (current = Some model_key)
     then update (set_current_model_key None)
     else mret tt);;
    mret true
  else mret false.

(** [a or b] on optional strings: [a] unless it is [None] or empty *)
Definition py_or (a b : option string) : option string :=
  match a with
  | Some EmptyString | None => b
  | Some s => Some s
  end.

(** The loop [for i, chunk in enumerate(chunks)] *)
Fixpoint generate_chunks (model : Handle) (speaker_id : option string)
    (chunks : list str) (audio_arrays : list Audio) : Py (list Audio) :=
  match chunks with
  | [] => mret audio_arrays
  | chunk :: rest =>
      match model_call model chunk speaker_id with
      | inl msg => raise (Exception msg)
      | inr chunk_audio =>
          generate_chunks model speaker_id rest (audio_arrays ++ [chunk_audio])
      end
  end.

(** [uuid.uuid4().hex] *)
Definition uuid4 : Py string :=
  fun w =>
    (inr (uuid4_hex (uuid_calls w)),
     {| fs := fs w; _models := _models w;
        _current_model_key := _current_model_key w;
        constructions := constructions w;
        uuid_calls := S (uuid_calls w) |}).

(** [open(dir / name, "rb").read()] *)
Definition read_file (dir name : string) : Py (list N) :=
  node ← gets (fun w => fs w !! path_div dir name);
  match node with
  | Some (File data) => mret data
  | Some (Dir _) => raise (Exception "Is a directory")
  | None => raise (Exception "No such file or directory")
  end.

(** The body of the [try] block of [generate]. *)
Definition generate_try (model : Handle) (text : str) (model_key : string)
    (speaker : option string) : Py (list N * string) :=
  let speaker_id := py_or speaker (DEFAULT_SPEAKERS !! model_key) in
  let chunks := split_into_sentences text in
  audio_arrays ← generate_chunks model speaker_id chunks [];
  combined_audio ←
    match stitch audio_arrays with
    | Some a => mret a
    | None => raise (ValueError "need at least one array to concatenate")
    end;
  hex ← uuid4;
  let filename := "output_" +:+ String.substring 0 8 hex +:+ ".wav" in
  data ← match save_audio model combined_audio
                 (path_div OUTPUT_DIR filename) with
         | inl fault =>
             match save_left fault with
             | Some written =>
                 update (set_fs (fs_write OUTPUT_DIR filename written))
             | None => mret tt
             end;;
             raise (Exception (save_msg fault))
         | inr data => mret data
         end;
  update (set_fs (fs_write OUTPUT_DIR filename data));;
  audio_bytes ← read_file OUTPUT_DIR filename;
  mret (audio_bytes, filename).

Definition generate (text : str) (model_key : string)
    (speaker : option string) (temperature top_p : Q)
    : Py (list N * string) :=
  if negb (truthy text) || negb (truthy (strip text))
  then raise (ValueError "Text cannot be empty")
  else
    loaded ← gets (fun w => py_in model_key (_models w));
    (if negb loaded then load_model model_key;; mret tt else mret tt);;
    models ← gets _models;
    model ← py_getitem models model_key;
    try_except
      (generate_try model text model_key speaker)
      (fun e => raise (RuntimeError ("Failed to generate audio: " +:+ exc_str e))).

(** The registry holds handles of configured models only. *)
Definition registry_ok (w : World) : Prop :=
  ∀ k, py_in k (_models w) = true → py_in k MODELS = true.

(** ** [main.py]: the audio file handlers

    [OUTPUT_DIR / filename] is [path_div] and [.exists()] a lookup: that is
    what the code does for a plain entry name.  [pathlib] drops an empty
    name and a [.] from the path, and the system refuses a name that is
    too long. *)

Inductive Response :=
  | FileResponse (path media_type filename : string)
  | JsonMessage (success : bool) (message : string).

(** [needle in s] *)
Fixpoint py_contains (needle s : string) : bool :=
  String.prefix needle s
  || match s with
     | EmptyString => false
     | String _ s' => py_contains needle s'
     end.

Definition get_audio (filename : string) : Py Response :=
  if py_contains ".." filename || py_contains "/" filename
  then raise (HTTPException 400 "Invalid filename")
  else
    let audio_path := path_div OUTPUT_DIR filename in
    found ← gets (fun w => path_exists (fs w) audio_path);
    if negb found
    then raise (HTTPException 404 "Audio file not found")
    else mret (FileResponse audio_path "audio/wav" filename).

(** [os.remove(dir / name)] in the world *)
Definition os_remove (dir name : string) : Py unit :=
  node ← gets (fun w => fs w !! path_div dir name);
  match node with
  | Some (File _) => update (set_fs (fs_remove dir name))
  | Some (Dir _) => raise (Exception "Is a directory")
  | None => raise (Exception "No such file or directory")
  end.

Definition delete_audio (filename : string) : Py Response :=
  if py_contains ".." filename || py_contains "/" filename
  then raise (HTTPException 400 "Invalid filename")
  else
    let audio_path := path_div OUTPUT_DIR filename in
    found ← gets (fun w => path_exists (fs w) audio_path);
    if (found : bool)
    then os_remove OUTPUT_DIR filename;;
         mret (JsonMessage true "File deleted")
    else mret (JsonMessage false "File not found").

(** [POST /api/tts]: the request body, once validated, and the answer *)
Record TTSRequest := {
  text : str;
  model : string;
  speaker : option string;
  temperature : Q;
  top_p : Q
}.

Record TTSResponse := {
  success : bool;
  filename : string;
  audio_url : string;
  response_text : str;
  response_model : string
}.

Definition generate_speech (request : TTSRequest) : Py TTSResponse :=
  if negb (py_in (model request) MODELS)
  then raise (HTTPException 400 "Invalid model")
  else
    downloaded ← gets (fun w => is_model_downloaded (fs w) (model request));
    if negb downloaded
    then raise (HTTPException 400
                  ("Model " +:+ model request
                   +:+ " is not downloaded. Please download it first."))
    else
      try_except
        ('(audio_bytes, filename) ←
           generate (text request) (model request) (speaker request)
             (temperature request) (top_p request);
         mret {| success := true;
                 filename := filename;
                 audio_url := "/api/audio/" +:+ filename;
                 response_text := text request;
                 response_model := model request |})
        (fun e =>
           match e with
           | ValueError msg => raise (HTTPException 400 msg)
           | _ => raise (HTTPException 500 (exc_str e))
           end).

End Backend.

(** ** A concrete installation, used to run the definitions *)

Definition test_env : Env := {|
  BASE_DIR := "/srv/kani";
  KaniTTS_init := fun _ _ => None;
  model_call := fun _ chunk _ => inr (replicate (length chunk) (1 # 2)%Q);
  save_audio := fun _ audio _ => inr [82; 73; 70; 70]%N;
  uuid4_hex := fun _ => "0123456789abcdef0123456789abcdef"
|}.

(** The English model is on disk, the German one is not. *)
Definition test_fs : FS :=
  <["/srv/kani/output" := Dir []]>
  (<["/srv/kani/models/kani-tts-400m-en" :=
       Dir ["config.json"; "model.safetensors"]]> ∅).

(** Both models are on disk. *)
Definition test_fs_both : FS :=
  <["/srv/kani/models/kani-tts-370m" := Dir ["config.json"]]> test_fs.

(** The German model was loaded while it was on disk; its files were
    removed afterwards, from outside. *)
Definition test_world_resident : World :=
  set_fs (fun _ => test_fs)
    (snd (@load_model test_env "de" (TTSService_init test_fs_both))).

Definition test_transfer : Transfer :=
  {| repo_info := inr (Some [Some 10; None; Some 5]);
     mkdir_fault := None;
     polls := [(3, 1); (12, 2)];
     transfer_fault := None |}.

(** ** More of [config.py], [downloader.py], [tts_service.py], [main.py] *)

Abbreviation Py := (Eff World PyExc).

(** [config.SPEAKERS] *)
Record SpeakerProfile := {
  speaker_id : string;
  speaker_name : string;
  gender : string
}.

Definition SPEAKERS : gmap string (list SpeakerProfile) :=
  <["en" := [ {| speaker_id := "jenny"; speaker_name := "Jenny"; gender := "female" |};
              {| speaker_id := "katie"; speaker_name := "Katie"; gender := "female" |};
              {| speaker_id := "david"; speaker_name := "David"; gender := "male" |};
              {| speaker_id := "andrew"; speaker_name := "Andrew"; gender := "male" |};
              {| speaker_id := "simon"; speaker_name := "Simon"; gender := "male" |};
              {| speaker_id := "puck"; speaker_name := "Puck"; gender := "male" |};
              {| speaker_id := "kore"; speaker_name := "Kore"; gender := "female" |} ]]>
  (<["de" := [ {| speaker_id := "thorsten"; speaker_name := "Thorsten"; gender := "male" |};
               {| speaker_id := "bert"; speaker_name := "Bert"; gender := "male" |} ]]> ∅).

(** The dictionary returned by [downloader.get_model_status] *)
Inductive ModelStatusDict :=
  | StatusUnknown (exists_ : bool) (error_ : string)
  | StatusInfo (key name repo_id : string) (downloaded : bool)
      (local_path : option string).

(** The same with the ["loaded"] entry that [main.py] adds *)
Record ModelStatusLoaded := {
  model_status : ModelStatusDict;
  loaded : bool
}.

(** A name ends with the given suffix. *)
Definition has_suffix (suffix name : string) : Prop :=
  ∃ stem, name = stem +:+ suffix.

(** The name of an entry that makes a model directory count as downloaded. *)
Definition essential_name (entry : string) : Prop :=
  has_suffix ".safetensors" entry ∨ entry = "config.json"
  ∨ has_suffix ".bin" entry.

(** [0-9a-f] *)
Definition is_hexdigit (a : ascii) : bool :=
  let n := N_of_ascii a in
  (((48 <=? n) && (n <=? 57)) || ((97 <=? n) && (n <=? 102)))%N.

Definition hex_string (s : string) : Prop :=
  Forall (fun a => is_hexdigit a = true) (String.list_ascii_of_string s).

(** The message of the [error] snapshot for an exception, as the [except]
    clauses of the generator choose it. *)
Definition fault_message (e : HubExc) : string :=
  match e with
  | GatedRepoError =>
      "This model requires authentication. Please log in to Hugging Face."
  | RepositoryNotFoundError => "Model repository not found."
  | OtherException msg => msg
  end.

(** The first step of a download that goes wrong, if one does: asking for
    the repository, making the directory, the transfer. *)
Definition first_fault (tr : Transfer) : option HubExc :=
  match repo_info tr with
  | inl e => Some e
  | inr _ =>
      match mkdir_fault tr with
      | Some e => Some e
      | None => transfer_fault tr
      end
  end.

(** [(total_size, downloaded_size)] of a snapshot *)
Definition payload_sizes (x : Payload) : Z * Z :=
  match x with
  | Snapshot d => (d_total_size d, d_downloaded_size d)
  | ErrorDict _ _ => (0, 0)
  end.

(** [error_message] of a snapshot *)
Definition payload_error (x : Payload) : option string :=
  match x with
  | Snapshot d => d_error_message d
  | ErrorDict _ msg => Some msg
  end.

Section Backend_more.
Context `{env : Env}.

(** [downloader.get_model_status] *)
Definition get_model_status (fs : FS) (model_key : string) : ModelStatusDict :=
  match MODELS !! model_key with
  | None => StatusUnknown false "Unknown model"
  | Some model =>
      let downloaded := is_model_downloaded fs model_key in
      StatusInfo model_key (name model) (repo_id model) downloaded
        (if downloaded then Some (local_path model) else None)
  end.

(** [TTSService.is_model_loaded] *)
Definition is_model_loaded (model_key : string) : Py bool :=
  gets (fun w => py_in model_key (_models w)).

(** What the registry consists of: the handles, the "current" marker and
    the count of constructed objects. *)
Definition registry (w : World) : gmap string Handle * option string * nat :=
  (_models w, _current_model_key w, constructions w).

(** The state the registry is kept in: every handle belongs to a model of
    the table and was built from its local path by a construction that was
    counted; two keys never hold the same object; the "current" marker
    names a resident model. *)
Definition registry_consistent (w : World) : Prop :=
  (∀ k h, _models w !! k = Some h →
     ∃ m, MODELS !! k = Some m ∧ handle_path h = local_path m
          ∧ (handle_id h < constructions w)%nat)
  ∧ (∀ k1 k2 h1 h2, _models w !! k1 = Some h1 → _models w !! k2 = Some h2 →
       handle_id h1 = handle_id h2 → k1 = k2)
  ∧ (∀ k, _current_model_key w = Some k → is_Some (_models w !! k)).

(** The payload is the snapshot of the progress object [p]. *)
Definition snapshot_of (p : DownloadProgress) (x : Payload) : Prop :=
  ∃ d, to_dict p = inr d ∧ x = Snapshot d.

(** The progress object after one round of the polling loop that sampled
    [(size, count)] *)
Definition polled (sample : Z * Z) (p : DownloadProgress) : DownloadProgress :=
  with_files (files_total p) (snd sample)
    (with_sizes (total_size p) (fst sample) p).

(** ... after each round in turn, and after the last one *)
Fixpoint poll_states (p : DownloadProgress) (samples : list (Z * Z))
    : list DownloadProgress :=
  match samples with
  | [] => []
  | sample :: rest => polled sample p :: poll_states (polled sample p) rest
  end.

Definition poll_end (p : DownloadProgress) (samples : list (Z * Z))
    : DownloadProgress :=
  fold_left (fun p sample => polled sample p) samples p.

(** The progress object when the download starts, and when the sizes of the
    repository are known *)
Definition progress_started (key : string) : DownloadProgress :=
  with_status downloading (DownloadProgress_init key).

Definition progress_sized (key : string) (tr_info : option (list (option Z)))
    : DownloadProgress :=
  let siblings := default [] tr_info in
  let p := progress_started key in
  with_files (Z.of_nat (length siblings)) (files_downloaded p)
    (with_sizes (siblings_size siblings) (downloaded_size p) p).

(** The audio of each chunk, in order, or the message of the first call of
    the model that raises. *)
Fixpoint chunk_audios (model : Handle) (speaker_id : option string)
    (chunks : list str) : string + list Audio :=
  match chunks with
  | [] => inr []
  | chunk :: rest =>
      match model_call model chunk speaker_id with
      | inl msg => inl msg
      | inr audio =>
          match chunk_audios model speaker_id rest with
          | inl msg => inl msg
          | inr audios => inr (audio :: audios)
          end
      end
  end.

(** [NAME_MAX] and [PATH_MAX] of Linux, in bytes; [PATH_MAX] counts the
    terminating zero. *)
Definition NAME_MAX : nat := 255.
Definition PATH_MAX : nat := 4096.

(** A plain entry name of the output directory: one path component that
    [pathlib] keeps as it is and the system accepts. *)
Definition plain_name (name : string) : Prop :=
  name ≠ "" ∧ name ≠ "."
  ∧ (String.length name ≤ NAME_MAX)%nat
  ∧ (String.length (path_div OUTPUT_DIR name) < PATH_MAX)%nat.

(** The name under which [generate] stores its audio when the world is [w]. *)
Definition next_filename (w : World) : string :=
  "output_" +:+ String.substring 0 8 (uuid4_hex (uuid_calls w)) +:+ ".wav".

End Backend_more.

(** The handlers of [main.py] that share a name with a method of
    [TTSService]; [get_audio], [delete_audio] and [generate_speech] are
    above. *)
Module main.
Section handlers.
Context `{env : Env}.

(** [GET /api/models/{model_key}] *)
Definition get_model (model_key : string) : Py ModelStatusLoaded :=
  if negb (py_in model_key MODELS)
  then raise (HTTPException 404 "Model not found")
  else
    status ← gets (fun w => get_model_status (fs w) model_key);
    loaded ← is_model_loaded model_key;
    mret {| model_status := status; loaded := loaded |}.

(** [GET /api/speakers/{model_key}] *)
Definition get_speakers (model_key : string) : Py (list SpeakerProfile) :=
  if negb (py_in model_key MODELS)
  then raise (HTTPException 404 "Model not found")
  else mret (default [] (SPEAKERS !! model_key)).

(** [GET /api/models/{model_key}/download]: the event stream, as the run of
    the generator *)
Definition download_model (tr : Transfer) (model_key : string)
    : Py ((HubExc + unit) * list Action) :=
  if negb (py_in model_key MODELS)
  then raise (HTTPException 404 "Model not found")
  else
    files ← gets fs;
    mret (download_model_with_progress files tr model_key).

(** [POST /api/models/{model_key}/load] *)
Definition load_model (model_key : string) : Py Response :=
  if negb (py_in model_key MODELS)
  then raise (HTTPException 404 "Model not found")
  else
    downloaded ← gets (fun w => is_model_downloaded (fs w) model_key);
    if negb downloaded
    then raise (HTTPException 400 "Model not downloaded")
    else
      try_except
        (load_model model_key;;
         mret (JsonMessage true ("Model " +:+ model_key +:+ " loaded")))
        (fun e => raise (HTTPException 500 (exc_str e))).

(** [POST /api/models/{model_key}/unload] *)
Definition unload_model (model_key : string) : Py Response :=
  if negb (py_in model_key MODELS)
  then raise (HTTPException 404 "Model not found")
  else
    unload_model model_key;;
    mret (JsonMessage true ("Model " +:+ model_key +:+ " unloaded")).

End handlers.
End main.

(** A call that reaches the backend, or a change of the files from
    outside. *)
Inductive Call :=
  | CallLoad (model_key : string)
  | CallUnload (model_key : string)
  | CallGenerate (text : str) (model_key : string) (speaker : option string)
      (temperature top_p : Q)
  | CallSpeech (request : TTSRequest)
  | CallApiLoad (model_key : string)
  | CallApiUnload (model_key : string)
  | CallGetModel (model_key : string)
  | CallGetAudio (filename : string)
  | CallDeleteAudio (filename : string)
  | Outside (change : FS → FS).

Section Backend_calls.
Context `{env : Env}.

(** The world after a call, whether it returned or raised. *)
Definition after (c : Call) (w : World) : World :=
  match c with
  | CallLoad k => snd (load_model k w)
  | CallUnload k => snd (unload_model k w)
  | CallGenerate text k speaker temperature top_p =>
      snd (generate text k speaker temperature top_p w)
  | CallSpeech request => snd (generate_speech request w)
  | CallApiLoad k => snd (main.load_model k w)
  | CallApiUnload k => snd (main.unload_model k w)
  | CallGetModel k => snd (main.get_model k w)
  | CallGetAudio f => snd (get_audio f w)
  | CallDeleteAudio f => snd (delete_audio f w)
  | Outside change => set_fs change w
  end.

Definition after_all (calls : list Call) (w : World) : World :=
  fold_left (fun w c => after c w) calls w.

End Backend_calls.

(** An installation whose runtime runs out of memory on a chunk of more
    than four characters. *)
Definition test_env_failing : Env := {|
  BASE_DIR := "/srv/kani";
  KaniTTS_init := fun _ _ => None;
  model_call := fun _ chunk _ =>
    if Nat.leb (length chunk) 4
    then inr (replicate (length chunk) (1 # 2)%Q)
    else inl "CUDA out of memory";
  save_audio := fun _ audio _ => inr [82; 73; 70; 70]%N;
  uuid4_hex := fun _ => "0123456789abcdef0123456789abcdef"
|}.

(** An installation whose runtime fails to save, leaving the four bytes
    it had written. *)
Definition test_env_save_fails : Env := {|
  BASE_DIR := "/srv/kani";
  KaniTTS_init := fun _ _ => None;
  model_call := fun _ chunk _ => inr (replicate (length chunk) (1 # 2)%Q);
  save_audio := fun _ audio _ =>
    inl {| save_msg := "No space left on device";
           save_left := Some [82; 73; 70; 70]%N |};
  uuid4_hex := fun _ => "0123456789abcdef0123456789abcdef"
|}.

(** The English model is resident. *)
Definition test_world_loaded (env : Env) : World :=
  snd (@load_model env "en" (TTSService_init test_fs)).

(** An audio file is in the output directory. *)
Definition test_world_audio : World :=
  set_fs (fs_write "/srv/kani/output" "a.wav" [82; 73; 70; 70]%N)
    (TTSService_init test_fs).

Definition test_request (model : string) (text : str) : TTSRequest :=
  {| text := text; model := model; speaker := None;
     temperature := 7 # 10; top_p := 9 # 10 |}.

(** * Properties of the text chunker *)

Lemma sp_all_app l1 l2 : sp_all (l1 ++ l2) = sp_all l1 ++ sp_all l2.
Proof. unfold sp_all. by rewrite map_app, concat_app. Qed.

Lemma sp_all_join l : l ≠ [] → sp_all l = SPACE :: py_join [SPACE] l.
Proof.
  induction l as [|x l IH]; [done|]. intros _.
  destruct l as [|y l].
  - unfold sp_all. simpl. by rewrite app_nil_r.
  - change (sp_all (x :: y :: l)) with ((SPACE :: x) ++ sp_all (y :: l)).
    rewrite IH by done. reflexivity.
Qed.

Lemma join_cons x l :
  l ≠ [] → py_join [SPACE] (x :: l) = x ++ SPACE :: py_join [SPACE] l.
Proof. by destruct l. Qed.

Lemma word_tight w : word w → tight w.
Proof.
  intros [Hne Hall]. split.
  - destruct w as [|c t]; [done|]. exists c, t. split; [done|].
    by inversion Hall.
  - destruct (reverse w) as [|c t] eqn:E.
    + apply (f_equal reverse) in E. rewrite reverse_involutive in E. done.
    + apply (f_equal reverse) in E.
      rewrite reverse_involutive, reverse_cons in E. subst w.
      exists c, (reverse t). split; [done|].
      rewrite Forall_app, Forall_singleton in Hall. tauto.
Qed.

Lemma tight_app s m t : tight s → tight t → tight (s ++ m ++ t).
Proof.
  intros [(c & s' & -> & Hc) _] [_ (d & t' & -> & Hd)]. split.
  - exists c, (s' ++ m ++ t' ++ [d]). done.
  - exists d, ((c :: s') ++ m ++ t'). split; [|done].
    by rewrite <- !app_assoc.
Qed.

Lemma tight_nonnil s : tight s → s ≠ [].
Proof. by intros [(c & t & -> & _) _]. Qed.

Lemma tight_truthy s : tight s → truthy s = true.
Proof. by intros [(c & t & -> & _) _]. Qed.

Lemma rstrip_snoc t c : isspace c = false → rstrip (t ++ [c]) = t ++ [c].
Proof.
  intros Hc. induction t as [|d t IH]; simpl; [by rewrite Hc|].
  rewrite IH. by destruct t.
Qed.

Lemma strip_tight s : tight s → strip s = s.
Proof.
  intros [(c & t & E1 & Hc) (d & u & E2 & Hd)]. unfold strip.
  assert (lstrip s = s) as -> by (subst s; simpl; by rewrite Hc).
  rewrite E2. by apply rstrip_snoc.
Qed.

Lemma normal_tight s : normal s → tight s.
Proof.
  intros (w & ws & Hall & ->). revert w Hall.
  induction ws as [|w' ws IH]; intros w Hall.
  - apply word_tight. by inversion Hall.
  - inversion Hall; subst.
    change (py_join [SPACE] (w :: w' :: ws))
      with (w ++ [SPACE] ++ py_join [SPACE] (w' :: ws)).
    apply tight_app; [by apply word_tight | by apply IH].
Qed.

Lemma normal_snoc s w : normal s → word w → normal (s ++ [SPACE] ++ w).
Proof.
  intros (v & vs & Hall & ->) Hw. revert v Hall.
  induction vs as [|v' vs IH]; intros v Hall.
  - exists v, [w]. split; [|done]. inversion Hall; subst.
    constructor; [done|]. by constructor.
  - inversion Hall; subst.
    destruct (IH v') as (x & xs & Hxs & E); [done|].
    exists v, (x :: xs). split; [by constructor|].
    change (py_join [SPACE] (v :: x :: xs))
      with (v ++ [SPACE] ++ py_join [SPACE] (x :: xs)).
    rewrite <- E.
    change (py_join [SPACE] (v :: v' :: vs))
      with (v ++ [SPACE] ++ py_join [SPACE] (v' :: vs)).
    by rewrite <- !app_assoc.
Qed.

(** *** [text.split()] yields words *)

Lemma py_split_go_words s : ∀ cur,
  Forall nonspace cur → Forall word (py_split_go cur s).
Proof.
  induction s as [|c s IH]; intros cur Hcur; simpl.
  - destruct cur as [|d cur]; [constructor|].
    repeat constructor; [|by apply Forall_reverse].
    intros E. apply (f_equal reverse) in E.
    by rewrite reverse_involutive in E.
  - destruct (isspace c) eqn:Hc.
    + destruct cur as [|d cur]; [by apply IH|].
      constructor; [|by apply IH].
      split; [|by apply Forall_reverse].
      intros E. apply (f_equal reverse) in E.
      by rewrite reverse_involutive in E.
    + apply IH. by constructor.
Qed.

Lemma py_split_words s : Forall word (py_split s).
Proof. by apply py_split_go_words. Qed.

(** *** [re.split] on a normalized text *)

Lemma re_split_go_nonnil cls s : ∀ b prev cur, re_split_go cls b prev cur s ≠ [].
Proof.
  induction s as [|c s IH]; intros b prev cur; simpl; [done|].
  destruct (isspace c); [|apply IH].
  destruct b; [apply IH|]. destruct (lookbehind cls prev); [done|apply IH].
Qed.

(** Scanning a run without whitespace only extends the current piece. *)
Lemma re_split_go_run cls rest w : Forall nonspace w →
  ∀ c b prev cur, isspace c = false →
  ∃ p, re_split_go cls b prev cur (c :: w ++ rest)
       = re_split_go cls false (Some p) (reverse (c :: w) ++ cur) rest.
Proof.
  induction 1 as [|d w Hd Hw IH]; intros c b prev cur Hc.
  - exists c. simpl. by rewrite Hc.
  - destruct (IH d false (Some c) (c :: cur) Hd) as [p Hp].
    exists p. simpl in *. rewrite Hc. rewrite Hp.
    f_equal. rewrite !reverse_cons, <- !app_assoc. done.
Qed.

Lemma re_split_go_word cls rest w b prev cur : word w →
  ∃ p, re_split_go cls b prev cur (w ++ rest)
       = re_split_go cls false (Some p) (reverse w ++ cur) rest.
Proof.
  intros [Hne Hall]. destruct w as [|c w]; [done|].
  inversion Hall; subst. by apply re_split_go_run.
Qed.

Lemma re_split_go_normal cls ws : ∀ w b prev cur,
  Forall word (w :: ws) →
  cur = [] ∨ (∃ t, normal t ∧ cur = SPACE :: reverse t) →
  let ps := re_split_go cls b prev cur (py_join [SPACE] (w :: ws)) in
  py_join [SPACE] ps = reverse cur ++ py_join [SPACE] (w :: ws)
  ∧ Forall normal ps.
Proof.
  induction ws as [|w' ws IH]; intros w b prev cur Hall Hcur ps.
  - inversion Hall as [|? ? Hw _]; subst.
    destruct (re_split_go_word cls [] w b prev cur Hw) as [p Hp].
    rewrite app_nil_r in Hp. subst ps. simpl py_join. rewrite Hp.
    simpl. rewrite reverse_app, reverse_involutive.
    split; [done|]. constructor; [|constructor].
    destruct Hcur as [->|(t & Ht & ->)].
    + exists w, []. split; [|done]. by constructor.
    + rewrite reverse_cons, reverse_involutive, <- app_assoc.
      by apply normal_snoc.
  - inversion Hall as [|? ? Hw Hall']; subst.
    set (J := py_join [SPACE] (w' :: ws)) in *.
    assert (py_join [SPACE] (w :: w' :: ws) = w ++ SPACE :: J) as EJ by done.
    destruct (re_split_go_word cls (SPACE :: J) w b prev cur Hw) as [p Hp].
    subst ps. rewrite EJ, Hp. simpl re_split_go.
    change (isspace SPACE) with true. cbv iota.
    assert (normal (reverse cur ++ w)) as Hn.
    { destruct Hcur as [->|(t & Ht & ->)].
      - exists w, []. split; [|done]. by constructor.
      - rewrite reverse_cons, reverse_involutive, <- app_assoc.
        by apply normal_snoc. }
    destruct (cls p).
    + destruct (IH w' true (Some SPACE) [] Hall' (or_introl eq_refl)) as [E F].
      fold J in E, F. split.
      * rewrite join_cons by apply re_split_go_nonnil.
        rewrite E, reverse_app, reverse_involutive. simpl.
        by rewrite <- app_assoc.
      * constructor; [|done]. by rewrite reverse_app, reverse_involutive.
    + destruct (IH w' false (Some SPACE) (SPACE :: reverse w ++ cur) Hall')
        as [E F].
      { right. exists (reverse cur ++ w). split; [done|].
        by rewrite reverse_app, reverse_involutive. }
      fold J in E, F. split; [|done].
      rewrite E, reverse_cons, reverse_app, reverse_involutive.
      by rewrite <- !app_assoc.
Qed.

Lemma re_split_normal cls s :
  normal s →
  py_join [SPACE] (re_split cls s) = s ∧ Forall normal (re_split cls s).
Proof.
  intros (w & ws & Hall & ->).
  apply (re_split_go_normal cls ws w false None [] Hall). by left.
Qed.

Lemma strip_nonempty_tight l : Forall tight l → strip_nonempty l = l.
Proof.
  unfold strip_nonempty. induction 1 as [|x l Hx Hl IH]; [done|].
  rewrite filter_cons, (strip_tight x Hx), (tight_truthy x Hx).
  rewrite decide_True by done. simpl. by rewrite IH, strip_tight.
Qed.

(** *** The greedy packing loop keeps the text *)

Lemma pack_parts_join parts : ∀ chunks cur chunks' cur',
  Forall tight parts → cur = [] ∨ tight cur →
  pack_parts parts chunks cur = (chunks', cur') →
  sp_all (chunks' ++ opt_chunk cur') = sp_all (chunks ++ opt_chunk cur ++ parts)
  ∧ (cur' = [] ∨ tight cur').
Proof.
  induction parts as [|part rest IH]; intros chunks cur chunks' cur' Hp Hc E.
  - simpl in E. injection E as <- <-. by rewrite app_nil_r.
  - inversion Hp as [|? ? Hpart Hrest]; subst. simpl in E.
    destruct (_ <=? _)%nat.
    + destruct Hc as [->|Hc].
      * simpl in E. destruct (IH _ _ _ _ Hrest (or_intror Hpart) E) as [E1 E2].
        split; [|done]. rewrite E1. unfold opt_chunk.
        by rewrite (tight_truthy part Hpart).
      * rewrite (tight_truthy cur Hc) in E.
        assert (tight (cur ++ SPACE :: part)) as Ht
          by by apply (tight_app cur [SPACE] part).
        rewrite (strip_tight _ Ht) in E.
        destruct (IH _ _ _ _ Hrest (or_intror Ht) E) as [E1 E2].
        split; [|done]. rewrite E1. unfold opt_chunk.
        rewrite (tight_truthy _ Ht), (tight_truthy cur Hc).
        rewrite !sp_all_app. f_equal. unfold sp_all. simpl.
        by rewrite !app_nil_r, <- !app_assoc.
    + assert ((if truthy cur then chunks ++ [cur] else chunks)
              = chunks ++ opt_chunk cur) as Ech.
      { unfold opt_chunk. destruct (truthy cur); [done|by rewrite app_nil_r]. }
      rewrite Ech in E.
      destruct (IH _ _ _ _ Hrest (or_intror Hpart) E) as [E1 E2].
      split; [|done]. rewrite E1. unfold opt_chunk at 2.
      rewrite (tight_truthy part Hpart). by rewrite <- !app_assoc.
Qed.

Lemma chunk_sentence_join chunks s :
  normal s → sp_all (chunk_sentence chunks s) = sp_all chunks ++ SPACE :: s.
Proof.
  intros Hs. unfold chunk_sentence. destruct (_ <=? _)%nat.
  - rewrite sp_all_app. unfold sp_all. simpl. by rewrite app_nil_r.
  - destruct (re_split_normal clause_sep s Hs) as [EJ Hn].
    destruct (pack_parts _ chunks []) as [chunks' cur'] eqn:E.
    apply pack_parts_join in E as [E _]; [|by eapply Forall_impl; [|apply normal_tight]|by left].
    assert ((if truthy cur' then chunks' ++ [cur'] else chunks')
            = chunks' ++ opt_chunk cur') as ->.
    { unfold opt_chunk. destruct (truthy cur'); [done|by rewrite app_nil_r]. }
    rewrite E. simpl. rewrite sp_all_app.
    rewrite (sp_all_join (re_split clause_sep s)) by apply re_split_go_nonnil.
    by rewrite EJ.
Qed.

Lemma fold_chunk_sentence_join sentences : ∀ acc,
  Forall normal sentences →
  sp_all (fold_left chunk_sentence sentences acc)
  = sp_all acc ++ sp_all sentences.
Proof.
  induction sentences as [|s l IH]; intros acc Hn; simpl.
  - by rewrite app_nil_r.
  - inversion Hn; subst. rewrite IH by done.
    rewrite chunk_sentence_join by done. by rewrite <- app_assoc.
Qed.

(** The two ways [split_into_sentences] can go: a text without any word
    gives the single empty chunk; otherwise the chunks come from the loop. *)
Lemma split_into_sentences_cases text :
  (py_split text = [] ∧ normalize text = [] ∧ split_into_sentences text = [[]])
  ∨ (split_into_sentences text
       = fold_left chunk_sentence (sentences_of text) []
     ∧ sp_all (split_into_sentences text) = SPACE :: normalize text).
Proof.
  unfold split_into_sentences, sentences_of, normalize.
  pose proof (py_split_words text) as Hw.
  destruct (py_split text) as [|w ws] eqn:E; [left; by vm_compute|right].
  set (t := py_join [SPACE] (w :: ws)).
  assert (normal t) as Ht by by exists w, ws.
  destruct (re_split_normal sentence_end t Ht) as [EJ Hn].
  rewrite strip_nonempty_tight
    by (eapply Forall_impl; [exact Hn|apply normal_tight]).
  pose proof (fold_chunk_sentence_join _ [] Hn) as EF.
  rewrite (sp_all_join (re_split sentence_end t)) in EF
    by apply re_split_go_nonnil.
  rewrite EJ in EF. simpl in EF.
  destruct (fold_left chunk_sentence _ []) as [|c cs]; [done|]. done.
Qed.

(** *** Whitespace only *)

Lemma py_split_go_blank s :
  Forall (fun c => isspace c = true) s → py_split_go [] s = [].
Proof. induction 1 as [|c s Hc _ IH]; simpl; [done|]. by rewrite Hc. Qed.

(** *** [" ".join(text.split())] is the whitespace-normalized text *)

Lemma rstrip_app_keep a b : rstrip b ≠ [] → rstrip (a ++ b) = a ++ rstrip b.
Proof.
  intros Hb. induction a as [|c a IH]; simpl; [done|].
  rewrite IH. destruct (a ++ rstrip b) eqn:E; [|done].
  apply app_eq_nil in E as [_ E]. done.
Qed.

Lemma rstrip_app_drop a b : rstrip b = [] → rstrip (a ++ b) = rstrip a.
Proof. intros Hb. induction a as [|c a IH]; simpl; [done|]. by rewrite IH. Qed.

Lemma rstrip_reverse_run cur :
  Forall nonspace cur → rstrip (reverse cur) = reverse cur.
Proof.
  destruct 1 as [|c cur Hc _]; [done|].
  rewrite reverse_cons. by apply rstrip_snoc.
Qed.

Lemma join_words_nonnil w l : word w → py_join [SPACE] (w :: l) ≠ [].
Proof.
  intros [Hne _]. destruct l; simpl; [done|]. by destruct w.
Qed.

Lemma py_split_go_collapse s : ∀ cur,
  Forall nonspace cur →
  py_join [SPACE] (py_split_go cur s)
  = rstrip (reverse cur ++ collapse_ws (negb (truthy cur)) s).
Proof.
  induction s as [|c s IH]; intros cur Hcur.
  - simpl. rewrite app_nil_r, rstrip_reverse_run by done. by destruct cur.
  - simpl. destruct (isspace c) eqn:Hc.
    + destruct cur as [|d cur]; [apply (IH [] Hcur)|].
      set (a := reverse (d :: cur)). simpl negb. cbv iota.
      pose proof (IH [] (Forall_nil_2 _)) as E. simpl in E.
      pose proof (py_split_go_words s [] (Forall_nil_2 _)) as Hw.
      destruct (py_split_go [] s) as [|w l] eqn:Es.
      * simpl in *. rewrite rstrip_app_drop.
        -- symmetry. by apply rstrip_reverse_run.
        -- simpl. by rewrite <- E.
      * rewrite join_cons by done. rewrite E.
        assert (rstrip (collapse_ws true s) ≠ []) as Hne.
        { rewrite <- E. apply join_words_nonnil. by inversion Hw. }
        rewrite rstrip_app_keep.
        -- simpl. by destruct (rstrip (collapse_ws true s)).
        -- simpl. by destruct (rstrip (collapse_ws true s)).
    + rewrite IH by by constructor.
      rewrite reverse_cons, <- app_assoc. simpl. done.
Qed.

Lemma lstrip_collapse_inrun s :
  lstrip (collapse_ws true s) = collapse_ws true s.
Proof.
  induction s as [|c s IH]; simpl; [done|].
  destruct (isspace c) eqn:Hc; [done|]. simpl. by rewrite Hc.
Qed.

Lemma normalize_spec text : normalize text = whitespace_normalized text.
Proof.
  unfold normalize, whitespace_normalized, strip, py_split.
  rewrite py_split_go_collapse by constructor. simpl. f_equal.
  destruct text as [|c s]; simpl; [done|].
  destruct (isspace c) eqn:Hc; simpl.
  - by rewrite lstrip_collapse_inrun.
  - by rewrite Hc.
Qed.

(** C1. For every text, [split_into_sentences] returns a non-empty list of
    chunks, and joining the chunks with single spaces gives back the
    whitespace-normalized text: the text with every whitespace run collapsed
    to one space and trimmed, which is also [" ".join(text.split())]. *)
Theorem split_into_sentences_rejoin (text : str) :
  split_into_sentences text ≠ []
  ∧ py_join [SPACE] (split_into_sentences text) = whitespace_normalized text
  ∧ whitespace_normalized text = py_join [SPACE] (py_split text).
Proof.
  rewrite <- normalize_spec. split; [|split; [|done]].
  - destruct (split_into_sentences_cases text) as [(_ & _ & ->)|[_ E]]; [done|].
    intros E'. by rewrite E' in E.
  - destruct (split_into_sentences_cases text) as [(_ & -> & ->)|[_ E]]; [done|].
    destruct (split_into_sentences text) as [|c cs]; [done|].
    rewrite sp_all_join in E by done. by injection E.
Qed.

(** C10. A text made only of whitespace, the empty text included, is
    returned as the one-element list holding the empty string. *)
Theorem split_into_sentences_blank (text : str) :
  Forall (fun c => isspace c = true) text →
  split_into_sentences text = [[]].
Proof.
  intros Hb. unfold split_into_sentences, normalize, py_split.
  rewrite (py_split_go_blank text Hb). by vm_compute.
Qed.

Lemma split_into_sentences_blank_witness :
  Forall (fun c => isspace c = true) (text_of "  ")
  ∧ split_into_sentences (text_of "  ") = [[]].
Proof.
  assert (Forall (fun c => isspace c = true) (text_of "  ")) as H
    by (repeat constructor).
  split; [exact H | exact (split_into_sentences_blank _ H)].
Defined.

(** *** The pieces of [re.split] have no place left to cut *)

Lemma has_sep_snoc cls s c :
  has_sep cls (s ++ [c])
  = has_sep cls s
    || match last s with Some a => cls a && isspace c | None => false end.
Proof.
  induction s as [|a s IH]; [done|].
  destruct s as [|b s]; [simpl; by rewrite !orb_false_r|].
  change (has_sep cls ((a :: b :: s) ++ [c]))
    with ((cls a && isspace b) || has_sep cls ((b :: s) ++ [c])).
  rewrite IH, last_cons_cons. simpl has_sep at 2. by rewrite orb_assoc.
Qed.

Lemma re_split_go_nosep cls s : ∀ b prev cur,
  has_sep cls (reverse cur) = false →
  (b = false → cur ≠ [] → prev = head cur) →
  Forall (fun p => has_sep cls p = false) (re_split_go cls b prev cur s).
Proof.
  induction s as [|c s IH]; intros b prev cur Hcur Hprev; simpl.
  - by constructor.
  - assert (isspace c = false →
            Forall (fun p => has_sep cls p = false)
              (re_split_go cls false (Some c) (c :: cur) s)) as Hpush.
    { intros Hc. apply IH; [|done].
      rewrite reverse_cons, has_sep_snoc, Hcur, Hc. simpl.
      destruct (last (reverse cur)); [by rewrite andb_false_r|done]. }
    destruct (isspace c) eqn:Hc; [|by apply Hpush].
    destruct b; [by apply IH|].
    destruct (lookbehind cls prev) eqn:Hl.
    + constructor; [done|]. by apply IH.
    + apply IH; [|done].
      rewrite reverse_cons, has_sep_snoc, Hcur, last_reverse. simpl.
      destruct cur as [|d cur]; [done|]. simpl.
      rewrite (Hprev eq_refl) in Hl by done. simpl in Hl. by rewrite Hl.
Qed.

Lemma re_split_nosep cls s :
  Forall (fun p => has_sep cls p = false) (re_split cls s).
Proof. by apply re_split_go_nosep. Qed.

(** *** The length budget *)

Lemma lstrip_length s : (length (lstrip s) ≤ length s)%nat.
Proof.
  induction s as [|c s IH]; simpl; [lia|]. destruct (isspace c); simpl; lia.
Qed.

Lemma rstrip_length s : (length (rstrip s) ≤ length s)%nat.
Proof.
  induction s as [|c s IH]; simpl; [lia|].
  destruct (rstrip s); [destruct (isspace c)|]; simpl in *; lia.
Qed.

Lemma strip_length s : (length (strip s) ≤ length s)%nat.
Proof.
  unfold strip. pose proof (rstrip_length (lstrip s)).
  pose proof (lstrip_length s). lia.
Qed.

Section budget.
Variable P : str → Prop.
Hypothesis P_short : ∀ c, (length c ≤ MAX_CHUNK_CHARS)%nat → P c.

Lemma pack_parts_bound parts : ∀ chunks cur chunks' cur',
  Forall P parts → P cur → Forall P chunks →
  pack_parts parts chunks cur = (chunks', cur') →
  Forall P chunks' ∧ P cur'.
Proof.
  induction parts as [|part rest IH]; intros chunks cur chunks' cur' Hq Hc Hch E.
  - simpl in E. by injection E as <- <-.
  - inversion Hq as [|? ? Hpart Hrest]; subst. simpl in E.
    destruct (_ <=? _)%nat eqn:Hle.
    + apply (IH _ _ _ _ Hrest) in E; [done| |done].
      destruct (truthy cur); [|done].
      apply P_short. apply Nat.leb_le in Hle.
      pose proof (strip_length (cur ++ SPACE :: part)) as Hs.
      rewrite length_app in Hs. simpl in Hs. lia.
    + apply (IH _ _ _ _ Hrest) in E; [done|done|].
      destruct (truthy cur); [|done].
      apply Forall_app. split; [done|]. by constructor.
Qed.

Lemma chunk_sentence_bound chunks s :
  (∀ c, (MAX_CHUNK_CHARS < length s)%nat → c ∈ re_split clause_sep s →
        has_sep clause_sep c = false → P c) →
  Forall P chunks → Forall P (chunk_sentence chunks s).
Proof.
  intros Hpiece Hch. unfold chunk_sentence.
  destruct (_ <=? _)%nat eqn:Hle.
  - apply Nat.leb_le in Hle. apply Forall_app. split; [done|].
    constructor; [by apply P_short|done].
  - apply Nat.leb_gt in Hle.
    destruct (pack_parts _ chunks []) as [chunks' cur'] eqn:E.
    assert (P []) as Hnil
      by (apply P_short; simpl; unfold MAX_CHUNK_CHARS; lia).
    assert (Forall P (re_split clause_sep s)) as Hparts.
    { pose proof (re_split_nosep clause_sep s) as Hn.
      rewrite Forall_forall in Hn. apply Forall_forall. intros c Hc.
      apply Hpiece; [done|done|by apply Hn]. }
    apply (pack_parts_bound _ _ _ _ _ Hparts Hnil Hch) in E as [H1 H2].
    destruct (truthy cur'); [|done].
    apply Forall_app. split; [done|]. by constructor.
Qed.
End budget.

Lemma fold_chunk_sentence_bound text l : ∀ acc,
  let P c := (length c ≤ MAX_CHUNK_CHARS)%nat ∨ oversized_fallback text c in
  (∀ s, s ∈ l → s ∈ sentences_of text) →
  Forall P acc → Forall P (fold_left chunk_sentence l acc).
Proof.
  induction l as [|s l IH]; intros acc P Hl Hacc; simpl; [done|].
  apply IH; [intros; apply Hl; by right|].
  apply chunk_sentence_bound; [by left| |done].
  intros c Hlong Hc Hn. right. exists s. split; [apply Hl; by left|done].
Qed.

(** *** Nothing is dropped: an oversized piece is a chunk *)

Lemma pack_parts_keeps parts : ∀ chunks cur chunks' cur',
  pack_parts parts chunks cur = (chunks', cur') →
  (∀ c, c ∈ chunks → c ∈ chunks')
  ∧ ((MAX_CHUNK_CHARS < length cur)%nat → cur ∈ chunks' ∨ cur' = cur)
  ∧ (∀ p, p ∈ parts → (MAX_CHUNK_CHARS < length p)%nat →
          p ∈ chunks' ∨ cur' = p).
Proof.
  induction parts as [|part rest IH]; intros chunks cur chunks' cur' E.
  - simpl in E. injection E as <- <-. split; [done|]. split; [by right|].
    intros p Hp. by apply elem_of_nil in Hp.
  - simpl in E. destruct (_ <=? _)%nat eqn:Hle.
    + apply Nat.leb_le in Hle. apply IH in E as (H1 & H2 & H3).
      split; [done|]. split; [intros; lia|].
      intros p Hp Hlong. apply elem_of_cons in Hp as [->|Hp]; [lia|].
      by apply H3.
    + apply Nat.leb_gt in Hle. apply IH in E as (H1 & H2 & H3).
      split; [|split].
      * intros c Hc. apply H1. destruct (truthy cur); [|done].
        apply elem_of_app. by left.
      * intros Hlong. left. apply H1.
        assert (truthy cur = true) as ->
          by (destruct cur; [simpl in Hlong; lia|done]).
        apply elem_of_app. right. by apply list_elem_of_singleton.
      * intros p Hp Hlong. apply elem_of_cons in Hp as [->|Hp];
          [by apply H2|by apply H3].
Qed.

Lemma chunk_sentence_keeps chunks s :
  (∀ c, c ∈ chunks → c ∈ chunk_sentence chunks s)
  ∧ (∀ p, (MAX_CHUNK_CHARS < length s)%nat → p ∈ re_split clause_sep s →
          (MAX_CHUNK_CHARS < length p)%nat → p ∈ chunk_sentence chunks s).
Proof.
  unfold chunk_sentence. destruct (_ <=? _)%nat eqn:Hle.
  - apply Nat.leb_le in Hle. split; [|intros; lia].
    intros c Hc. apply elem_of_app. by left.
  - destruct (pack_parts _ chunks []) as [chunks' cur'] eqn:E.
    apply pack_parts_keeps in E as (H1 & _ & H3). split.
    + intros c Hc. destruct (truthy cur'); [|by apply H1].
      apply elem_of_app. left. by apply H1.
    + intros p _ Hp Hlong. destruct (H3 p Hp Hlong) as [Hin| ->].
      * destruct (truthy cur'); [|done]. apply elem_of_app. by left.
      * assert (truthy p = true) as ->
          by (destruct p; [simpl in Hlong; lia|done]).
        apply elem_of_app. right. by apply list_elem_of_singleton.
Qed.

Lemma fold_chunk_sentence_mono l : ∀ acc c,
  c ∈ acc → c ∈ fold_left chunk_sentence l acc.
Proof.
  induction l as [|s l IH]; intros acc c Hc; simpl; [done|].
  apply IH. destruct (chunk_sentence_keeps acc s) as [H _]. by apply H.
Qed.

Lemma fold_chunk_sentence_keeps l : ∀ acc s p,
  s ∈ l → (MAX_CHUNK_CHARS < length s)%nat → p ∈ re_split clause_sep s →
  (MAX_CHUNK_CHARS < length p)%nat → p ∈ fold_left chunk_sentence l acc.
Proof.
  induction l as [|s0 l IH]; intros acc s p Hs Hlong Hp Hplong; simpl.
  - by apply elem_of_nil in Hs.
  - apply elem_of_cons in Hs as [->|Hs]; [|by eapply IH].
    apply fold_chunk_sentence_mono.
    destruct (chunk_sentence_keeps acc s0) as [_ H]. by apply H.
Qed.

(** C6. Every chunk returned by [split_into_sentences] has at most
    [MAX_CHUNK_CHARS] = 200 characters, unless it is an oversized fallback:
    one whole piece of the clause split of a sentence longer than the budget,
    in which no comma, semicolon or dash is followed by whitespace.  Such a
    piece is returned whole and not dropped: every piece of the clause
    split of a too long sentence that is itself longer than the budget is
    one of the chunks; and nothing else is lost either, the chunks joined
    by single spaces being the normalized text. *)
Theorem split_into_sentences_budget (text : str) :
  (∀ c, c ∈ split_into_sentences text →
        (length c ≤ MAX_CHUNK_CHARS)%nat ∨ oversized_fallback text c)
  ∧ (∀ sentence piece,
       sentence ∈ sentences_of text →
       (MAX_CHUNK_CHARS < length sentence)%nat →
       piece ∈ re_split clause_sep sentence →
       (MAX_CHUNK_CHARS < length piece)%nat →
       piece ∈ split_into_sentences text)
  ∧ py_join [SPACE] (split_into_sentences text) = normalize text.
Proof.
  destruct (split_into_sentences_cases text) as [(_ & Hn & E)|[E Hj]].
  - rewrite E. split; [|split].
    + intros c ->%list_elem_of_singleton. left. simpl.
      unfold MAX_CHUNK_CHARS. lia.
    + intros sentence piece Hs. exfalso. unfold sentences_of in Hs.
      rewrite Hn in Hs. vm_compute in Hs. by apply elem_of_nil in Hs.
    + by rewrite Hn.
  - split; [|split].
    + rewrite E. intros c Hc.
      assert (Forall (fun c => (length c ≤ MAX_CHUNK_CHARS)%nat
                               ∨ oversized_fallback text c)
                (fold_left chunk_sentence (sentences_of text) [])) as H
        by (apply fold_chunk_sentence_bound; [done|constructor]).
      rewrite Forall_forall in H. by apply H.
    + rewrite E. intros sentence piece Hs Hlong Hp Hplong.
      by apply (fold_chunk_sentence_keeps _ [] sentence).
    + destruct (split_into_sentences text) as [|c cs]; [done|].
      rewrite sp_all_join in Hj by done. by injection Hj.
Qed.

(** * Properties of the stitching *)

Lemma silence_len_value : silence_len = 3307%nat.
Proof. reflexivity. Qed.

Lemma silence_length : length silence = silence_len.
Proof. apply length_replicate. Qed.

Lemma stitch_loop_concat n arrays : ∀ i parts,
  i + Z.of_nat (length arrays) = n →
  concat (stitch_loop n i arrays parts)
  = concat parts ++ silence_between silence arrays.
Proof.
  induction arrays as [|a rest IH]; intros i parts Hn.
  - simpl. by rewrite app_nil_r.
  - destruct rest as [|b rest].
    + simpl in *. assert ((i <? n - 1) = false) as -> by (apply Z.ltb_ge; lia).
      rewrite concat_app. simpl. by rewrite app_nil_r.
    + change (stitch_loop n i (a :: b :: rest) parts)
        with (stitch_loop n (i + 1) (b :: rest)
                (if i <? n - 1 then (parts ++ [a]) ++ [silence]
                 else parts ++ [a])).
      assert ((i <? n - 1) = true) as ->.
      { apply Z.ltb_lt. simpl length in Hn. lia. }
      rewrite IH by (simpl length in *; lia).
      rewrite !concat_app. simpl concat. rewrite !app_nil_r.
      change (silence_between silence (a :: b :: rest))
        with (a ++ silence ++ silence_between silence (b :: rest)).
      by rewrite <- !app_assoc.
Qed.

Lemma silence_between_length sil arrays :
  arrays ≠ [] →
  length (silence_between sil arrays)
  = (total_samples arrays + (length arrays - 1) * length sil)%nat.
Proof.
  induction arrays as [|a rest IH]; [done|]. intros _.
  destruct rest as [|b rest].
  - simpl. lia.
  - change (silence_between sil (a :: b :: rest))
      with (a ++ sil ++ silence_between sil (b :: rest)).
    rewrite !length_app, IH by done. simpl. lia.
Qed.

(** C2. For N >= 1 audio chunks the stitched audio is the chunks in order
    with one silence between two consecutive chunks and none after the
    last; it has sum(len(chunk_i)) + (N-1) * silence_len samples, where
    silence_len = int(22050 * 0.15) = 3307 samples; a single chunk is
    returned as it is. *)
Theorem stitch_samples (audio_arrays : list Audio) :
  audio_arrays ≠ [] →
  ∃ combined_audio,
    stitch audio_arrays = Some combined_audio
    ∧ combined_audio = silence_between silence audio_arrays
    ∧ length combined_audio
      = (total_samples audio_arrays
         + (length audio_arrays - 1) * silence_len)%nat
    ∧ Z.of_nat silence_len = SAMPLE_RATE * 150 / 1000
    ∧ (∀ a, audio_arrays = [a] → combined_audio = a).
Proof.
  intros Hne. exists (silence_between silence audio_arrays).
  split; [|split; [done|split; [|split; [done|by intros a ->]]]].
  - unfold stitch. destruct audio_arrays as [|a [|b rest]]; [done|done|].
    assert ((Z.of_nat (length (a :: b :: rest)) =? 1) = false) as ->
      by (apply Z.eqb_neq; simpl length; lia).
    unfold np_concatenate.
    pose proof (stitch_loop_concat (Z.of_nat (length (a :: b :: rest)))
                  (a :: b :: rest) 0 [] eq_refl) as E.
    destruct (stitch_loop _ 0 (a :: b :: rest) []) as [|p ps] eqn:El.
    + exfalso. apply (f_equal length) in E.
      change (silence_between silence (a :: b :: rest))
        with (a ++ silence ++ silence_between silence (b :: rest)) in E.
      rewrite !length_app, silence_length, silence_len_value in E.
      cbn [concat length] in E. lia.
    + by rewrite E.
  - rewrite silence_between_length by done. by rewrite silence_length.
Qed.

Lemma stitch_samples_witness :
  [[1; 2]; [3]]%Q ≠ [] ∧
  ∃ combined_audio,
    stitch [[1; 2]; [3]]%Q = Some combined_audio
    ∧ combined_audio = silence_between silence [[1; 2]; [3]]%Q
    ∧ length combined_audio
      = (total_samples [[1; 2]; [3]]%Q
         + (length [[1; 2]; [3]]%Q - 1) * silence_len)%nat
    ∧ Z.of_nat silence_len = SAMPLE_RATE * 150 / 1000
    ∧ (∀ a, [[1; 2]; [3]]%Q = [a] → combined_audio = a).
Proof.
  assert ([[1; 2]; [3]]%Q ≠ []) as H by discriminate.
  split; [exact H | exact (stitch_samples _ H)].
Defined.

(** * Properties of the download progress *)

Local Open Scope Z_scope.

#[local] Arguments py_in : simpl never.
#[local] Arguments is_model_downloaded : simpl never.
#[local] Arguments split_into_sentences : simpl never.
#[local] Arguments stitch : simpl never.
#[local] Arguments strip : simpl never.
#[local] Arguments generate_try : simpl never.

Ltac run_eff :=
  unfold mbind, mret, eff_bind, eff_ret, gets, raise, update, modify,
    try_except, py_getitem; simpl.

(** Inversion of the sequencing and of [try ... except]. *)
Lemma bind_inv {S E A B} (m : Eff S E A) (k : A → Eff S E B) s r s' :
  (m ≫= k) s = (r, s') →
  (∃ e, m s = (inl e, s') ∧ r = inl e)
  ∨ (∃ a s1, m s = (inr a, s1) ∧ k a s1 = (r, s')).
Proof.
  unfold mbind, eff_bind. destruct (m s) as [[e|a] s1].
  - intros [= <- <-]. left. by exists e.
  - intros H. right. by exists a, s1.
Qed.

Lemma try_except_inv {S E A} (m : Eff S E A) (h : E → Eff S E A) s r s' :
  try_except m h s = (r, s') →
  (∃ e s1, m s = (inl e, s1) ∧ h e s1 = (r, s'))
  ∨ (∃ a, m s = (inr a, s') ∧ r = inr a).
Proof.
  unfold try_except. destruct (m s) as [[e|a] s1].
  - intros H. left. by exists e, s1.
  - intros [= <- <-]. right. by exists a.
Qed.

Lemma min_100_le x : (min_100 x <= 100)%Q.
Proof.
  unfold min_100. destruct (Qlt_le_dec x 100) as [H|H].
  - by apply Qlt_le_weak.
  - apply Qle_refl.
Qed.

Lemma min_100_nonneg x : (0 <= x)%Q → (0 <= min_100 x)%Q.
Proof. intros Hx. unfold min_100. by destruct (Qlt_le_dec x 100). Qed.

Lemma ratio_nonneg a b : 0 ≤ a → 0 ≤ b → (0 <= inject_Z a / inject_Z b * 100)%Q.
Proof.
  intros Ha Hb. apply Qmult_le_0_compat; [|done].
  apply Qmult_le_0_compat.
  - change 0%Q with (inject_Z 0). by rewrite <- Zle_Qle.
  - apply Qinv_le_0_compat. change 0%Q with (inject_Z 0). by rewrite <- Zle_Qle.
Qed.

(** C4. With non-negative sizes whose quotient is within the doubles (the
    downloaded size is at most [FLOAT_MAX] times the total, as for any
    sizes of files; beyond that the division of the code raises
    [OverflowError]), [progress_percent] returns a value that lies in
    [0, 100].  When [total_size] is 0 it returns 0 without dividing,
    whatever the downloaded size. *)
Theorem progress_percent_range (p : DownloadProgress) :
  0 ≤ total_size p → 0 ≤ downloaded_size p →
  quotient_in_range p →
  ∃ q, progress_percent p = Some q
       ∧ (0 <= q)%Q ∧ (q <= 100)%Q
       ∧ (total_size p = 0 → q = 0%Q).
Proof.
  intros Ht Hd _. unfold progress_percent, py_truediv.
  destruct (total_size p =? 0) eqn:E.
  - exists 0%Q. by repeat split.
  - apply Z.eqb_neq in E.
    exists (min_100 (inject_Z (downloaded_size p) / inject_Z (total_size p) * 100)).
    split; [done|]. split; [|split].
    + apply min_100_nonneg. by apply ratio_nonneg.
    + apply min_100_le.
    + intros H. by rewrite H in E.
Qed.

Lemma progress_percent_range_witness :
  let p := with_sizes 15 12 (DownloadProgress_init "en") in
  0 ≤ total_size p ∧ 0 ≤ downloaded_size p ∧ quotient_in_range p ∧
  ∃ q, progress_percent p = Some q
       ∧ (0 <= q)%Q ∧ (q <= 100)%Q
       ∧ (total_size p = 0 → q = 0%Q).
Proof.
  assert (0 ≤ 15) as H1 by (by vm_compute).
  assert (0 ≤ 12) as H2 by (by vm_compute).
  assert (quotient_in_range (with_sizes 15 12 (DownloadProgress_init "en")))
    as H3 by (right; by vm_compute).
  split; [exact H1|split; [exact H2|split; [exact H3|]]].
  exact (progress_percent_range
           (with_sizes 15 12 (DownloadProgress_init "en")) H1 H2 H3).
Defined.

Section Backend_facts.
Context `{env : Env}.

Lemma is_model_downloaded_known fs key :
  is_model_downloaded fs key = true → ∃ model, MODELS !! key = Some model.
Proof.
  unfold is_model_downloaded. destruct (MODELS !! key) as [m|]; [eauto|done].
Qed.

(** C5. When the artifacts of the model are on disk, the generator ends
    after one action, the yield of a snapshot with status [completed] and
    total = downloaded = 1, that is 100 percent; no snapshot has status
    [downloading] and no transfer is started. *)
Theorem download_already_downloaded (fs : FS) (tr : Transfer) (key : string) :
  is_model_downloaded fs key = true →
  ∃ d t,
    download_model_with_progress fs tr key = (inr (), t)
    ∧ t = [Yield (Snapshot d)]
    ∧ d_model_key d = key
    ∧ d_status d = completed
    ∧ d_total_size d = 1 ∧ d_downloaded_size d = 1
    ∧ (d_progress_percent d == 100)%Q
    ∧ yields t = [Snapshot d]
    ∧ Forall (fun x => payload_status x ≠ downloading) (yields t)
    ∧ (∀ repo dir, StartTransfer repo dir ∉ t).
Proof.
  intros Hd. destruct (is_model_downloaded_known fs key Hd) as [model Hm].
  unfold download_model_with_progress, download_body.
  rewrite Hm, Hd. unfold yield_progress, set_progress, act. run_eff.
  unfold to_dict. cbn [progress with_sizes with_status model_key
    DownloadProgress_init]. rewrite Hm.
  eexists. eexists. split; [reflexivity|]. cbn.
  do 5 (split; [done|]). split; [by vm_compute|]. split; [done|].
  split; [by repeat constructor|].
  intros repo dir Hin. apply list_elem_of_singleton in Hin. done.
Qed.

(** * Properties of the model registry and of the synthesis *)

Lemma set_current_same w k :
  _current_model_key w = k → set_current_model_key k w = w.
Proof. intros <-. by destruct w. Qed.

Lemma load_model_unknown key w :
  py_in key MODELS = false →
  load_model key w = (inl (ValueError ("Unknown model: " +:+ key)), w).
Proof. intros H. unfold load_model. by rewrite H. Qed.

Lemma load_model_not_downloaded key w :
  py_in key MODELS = true → is_model_downloaded (fs w) key = false →
  load_model key w
  = (inl (RuntimeError ("Model " +:+ key +:+ " is not downloaded")), w).
Proof.
  intros Hk Hd. unfold load_model. rewrite Hk. run_eff. by rewrite Hd.
Qed.

Lemma load_model_resident key w :
  is_model_downloaded (fs w) key = true → py_in key (_models w) = true →
  load_model key w = (inr true, set_current_model_key (Some key) w).
Proof.
  intros Hd Hl. destruct (is_model_downloaded_known _ _ Hd) as [m Hm].
  unfold load_model, py_in at 1. rewrite Hm. run_eff.
  rewrite Hd. simpl. by rewrite Hl.
Qed.

(** A model that is on disk and not resident is constructed, when the
    runtime accepts it, and stored under its key. *)
Lemma load_model_constructs key w m :
  MODELS !! key = Some m →
  is_model_downloaded (fs w) key = true →
  py_in key (_models w) = false →
  KaniTTS_init (fs w) (local_path m) = None →
  ∃ w1, load_model key w = (inr true, w1)
        ∧ _models w1
          = <[key := {| handle_id := constructions w;
                        handle_path := local_path m |}]> (_models w)
        ∧ _current_model_key w1 = Some key
        ∧ constructions w1 = S (constructions w)
        ∧ fs w1 = fs w.
Proof.
  intros Hm Hd Hl Hc. unfold load_model, py_in at 1. rewrite Hm. run_eff.
  rewrite Hd. simpl. rewrite Hl, Hm. simpl. unfold KaniTTS. rewrite Hc.
  simpl. by eexists.
Qed.

(** What a successful [load_model] leaves behind. *)
Lemma load_model_success key w r w1 :
  load_model key w = (inr r, w1) →
  r = true ∧ fs w1 = fs w ∧ is_model_downloaded (fs w) key = true
  ∧ _current_model_key w1 = Some key
  ∧ ((py_in key (_models w) = true ∧ _models w1 = _models w
      ∧ constructions w1 = constructions w)
     ∨ (py_in key (_models w) = false
        ∧ (∃ m, MODELS !! key = Some m
                ∧ _models w1
                  = <[key := {| handle_id := constructions w;
                                handle_path := local_path m |}]> (_models w))
        ∧ constructions w1 = S (constructions w))).
Proof.
  unfold load_model. destruct (py_in key MODELS) eqn:Hk; [|done].
  run_eff. destruct (is_model_downloaded (fs w) key) eqn:Hd; [|done].
  cbn. destruct (py_in key (_models w)) eqn:Hl.
  - intros [= <- <-]. repeat split; try done. by left.
  - unfold py_in in Hk. destruct (MODELS !! key) as [m|] eqn:Hm; [|done].
    cbn. unfold KaniTTS. destruct (KaniTTS_init (fs w) (local_path m)); [done|].
    cbn. intros [= <- <-]. cbn. repeat split; try done. right.
    repeat split; try done. by exists m.
Qed.

(** C3. For a model that is on disk, once [load_model] has returned, the
    registry holds one handle under the key, and calling [load_model] again
    returns [True] and leaves the whole world as it was: the handle stored
    under the key is the same object, and no [KaniTTS] object was
    constructed. *)
Theorem load_model_idempotent (key : string) (w w1 : World) (r : bool) :
  is_model_downloaded (fs w) key = true →
  load_model key w = (inr r, w1) →
  ∃ h w2,
    _models w1 !! key = Some h
    ∧ load_model key w1 = (inr true, w2)
    ∧ _models w2 !! key = Some h
    ∧ _models w2 = _models w1
    ∧ constructions w2 = constructions w1
    ∧ w2 = w1.
Proof.
  intros Hd H1.
  destruct (load_model_success key w r w1 H1) as (-> & Hfs & _ & Hcur & Hm).
  assert (∃ h, _models w1 !! key = Some h) as [h Hh].
  { destruct Hm as [(Hl & -> & _)|(_ & (m & _ & ->) & _)].
    - unfold py_in in Hl. destruct (_models w !! key); [eauto|done].
    - rewrite lookup_insert_eq. eauto. }
  exists h, w1. repeat split; try done.
  rewrite load_model_resident.
  - by rewrite set_current_same.
  - by rewrite Hfs.
  - unfold py_in. by rewrite Hh.
Qed.

(** The registry never holds a key outside the table. *)
Lemma registry_ok_init files : registry_ok (TTSService_init files).
Proof. intros k. unfold py_in. simpl. by rewrite lookup_empty. Qed.

Lemma load_model_registry_ok key w r w1 :
  registry_ok w → load_model key w = (r, w1) → registry_ok w1.
Proof.
  intros Hok. unfold load_model. destruct (py_in key MODELS) eqn:Hk;
    [|by intros [= <- <-]].
  run_eff. destruct (is_model_downloaded (fs w) key); simpl;
    [|by intros [= <- <-]].
  destruct (py_in key (_models w)) eqn:Hl; [by intros [= <- <-]|].
  unfold py_in in Hk. destruct (MODELS !! key) as [m|] eqn:Hm; [|done].
  simpl. unfold KaniTTS. destruct (KaniTTS_init (fs w) (local_path m)); simpl.
  - by intros [= <- <-].
  - intros [= <- <-] k. unfold py_in at 1. simpl.
    destruct (decide (key = k)) as [<-|Hne].
    + intros _. unfold py_in. by rewrite Hm.
    + rewrite lookup_insert_ne by done. apply Hok.
Qed.

Lemma unload_model_registry_ok key w r w1 :
  registry_ok w → unload_model key w = (r, w1) → registry_ok w1.
Proof.
  intros Hok. unfold unload_model. run_eff.
  destruct (py_in key (_models w)) eqn:Hl; [|by intros [= <- <-]].
  case_bool_decide; simpl; intros [= <- <-] k; unfold py_in at 1; simpl;
    (destruct (decide (key = k)) as [<-|Hne];
     [by rewrite lookup_delete_eq
     |rewrite lookup_delete_ne by done; apply Hok]).
Qed.

Lemma unload_model_absent key w :
  py_in key (_models w) = false → unload_model key w = (inr false, w).
Proof. intros Hl. unfold unload_model. run_eff. by rewrite Hl. Qed.

Lemma registry_ok_unknown key w :
  registry_ok w → py_in key MODELS = false → py_in key (_models w) = false.
Proof.
  intros Hok Hk. destruct (py_in key (_models w)) eqn:Hl; [|done].
  apply Hok in Hl. congruence.
Qed.

Lemma generate_blank text key speaker temperature top_p w :
  truthy (strip text) = false →
  generate text key speaker temperature top_p w
  = (inl (ValueError "Text cannot be empty"), w).
Proof.
  intros Hb. unfold generate. rewrite Hb.
  by rewrite orb_true_r.
Qed.

(** When the model has to be loaded and loading raises, [generate] raises
    the same exception and leaves the world as [load_model] left it. *)
Lemma generate_load_fails text key speaker temperature top_p w e w1 :
  truthy (strip text) = true →
  py_in key (_models w) = false →
  load_model key w = (inl e, w1) →
  generate text key speaker temperature top_p w = (inl e, w1).
Proof.
  intros Ht Hl Hload. unfold generate. rewrite Ht.
  assert (truthy text = true) as ->.
  { destruct text; [done|done]. }
  run_eff. rewrite Hl. simpl. by rewrite Hload.
Qed.

(** C7, as amended. A request with a text that is not blank, for a model of
    the table that is neither on disk nor resident in the registry, fails
    with the [RuntimeError] "Model <key> is not downloaded" of [load_model],
    and the world is as before: no file written, registry unchanged. *)
Theorem generate_not_downloaded (text : str) (key : string)
    (speaker : option string) (temperature top_p : Q) (w : World) :
  truthy (strip text) = true →
  py_in key MODELS = true →
  is_model_downloaded (fs w) key = false →
  py_in key (_models w) = false →
  generate text key speaker temperature top_p w
  = (inl (RuntimeError ("Model " +:+ key +:+ " is not downloaded")), w).
Proof.
  intros Ht Hk Hd Hl. apply generate_load_fails; [done|done|].
  by apply load_model_not_downloaded.
Qed.

Lemma generate_chunks_state model speaker_id chunks : ∀ acc w r w1,
  generate_chunks model speaker_id chunks acc w = (r, w1) → w1 = w.
Proof.
  induction chunks as [|c rest IH]; intros acc w r w1; simpl.
  - by intros [= _ <-].
  - destruct (model_call model c speaker_id); [by intros [= _ <-]|apply IH].
Qed.

Lemma generate_try_models model text key speaker w r w1 :
  generate_try model text key speaker w = (r, w1) → _models w1 = _models w.
Proof.
  unfold generate_try. run_eff.
  destruct (generate_chunks _ _ _ _ w) as [rc sc] eqn:Ec.
  apply generate_chunks_state in Ec as ->.
  destruct rc as [e|arrays]; [by intros [= _ <-]|].
  destruct (stitch arrays); simpl; [|by intros [= _ <-]].
  destruct (save_audio _ _ _) as [fault|data]; simpl;
    [destruct (save_left fault); simpl; by intros [= _ <-]|].
  unfold read_file. run_eff.
  destruct (fs_write _ _ _ _ !! _) as [[?|?]|]; simpl; by intros [= _ <-].
Qed.

(** [generate] changes the registry only by loading the model. *)
Lemma generate_models text key speaker temperature top_p w r w1 :
  generate text key speaker temperature top_p w = (r, w1) →
  _models w1 = _models w
  ∨ ∃ rl wl, load_model key w = (rl, wl) ∧ _models w1 = _models wl.
Proof.
  unfold generate.
  destruct (negb (truthy text) || negb (truthy (strip text)));
    [intros [= _ <-]; by left|].
  intros H.
  apply bind_inv in H as [(e & H & _)|(loaded & s0 & [= <- <-] & H)];
    [discriminate H|].
  apply bind_inv in H as [(e & H & _)|([] & s1 & Hload & H)].
  - right. destruct (py_in key (_models w)); simpl in H; [discriminate H|].
    apply bind_inv in H as [(e' & H & _)|(b & s2 & _ & H)]; [|discriminate H].
    by exists (inl e'), w1.
  - assert (_models w1 = _models s1) as ->.
    { apply bind_inv in H as [(e & H & _)|(models & s2 & [= <- <-] & H)];
        [discriminate H|].
      apply bind_inv in H as [(e & H & _)|(model & s3 & Hget & H)].
      - unfold py_getitem in H. destruct (_models s1 !! key); [discriminate H|].
        by injection H as _ <-.
      - unfold py_getitem in Hget.
        destruct (_models s1 !! key); [|discriminate Hget].
        injection Hget as <- <-.
        apply try_except_inv in H as [(e & s4 & Ht & H)|(a & Ht & _)].
        + injection H as _ <-. by apply generate_try_models in Ht.
        + by apply generate_try_models in Ht. }
    destruct (py_in key (_models w)); simpl in Hload.
    + injection Hload as <-. by left.
    + apply bind_inv in Hload as [(e & _ & H')|(b & s2 & Hl & [= <-])];
        [discriminate H'|].
      right. by exists (inr b), s2.
Qed.

Lemma generate_registry_ok text key speaker temperature top_p w r w1 :
  registry_ok w →
  generate text key speaker temperature top_p w = (r, w1) → registry_ok w1.
Proof.
  intros Hok H. apply generate_models in H as [E|(rl & wl & Hl & E)].
  - unfold registry_ok. rewrite E. apply Hok.
  - apply (load_model_registry_ok _ _ _ _ Hok) in Hl.
    unfold registry_ok. rewrite E. apply Hl.
Qed.

(** The HTTP handler checks the download itself, before the text and the
    registry are looked at. *)
Lemma generate_speech_not_downloaded request w :
  py_in (model request) MODELS = true →
  is_model_downloaded (fs w) (model request) = false →
  generate_speech request w
  = (inl (HTTPException 400
            ("Model " +:+ model request
             +:+ " is not downloaded. Please download it first.")), w).
Proof.
  intros Hk Hd. unfold generate_speech. rewrite Hk. run_eff. by rewrite Hd.
Qed.

(** C8, as amended. For a key that is not in [MODELS], and a registry that
    holds table keys only: [load_model] raises [ValueError] "Unknown
    model", [generate] raises a [ValueError], the download generator yields
    the single error event "Unknown model" and stops; all leave the world
    as it was.  [unload_model] does not fail: it returns [False]. *)
Theorem unknown_model_key (key : string) (w : World) :
  py_in key MODELS = false →
  registry_ok w →
  load_model key w = (inl (ValueError ("Unknown model: " +:+ key)), w)
  ∧ (∀ text speaker temperature top_p,
       ∃ msg, generate text key speaker temperature top_p w
              = (inl (ValueError msg), w))
  ∧ (∀ files tr,
       download_model_with_progress files tr key
       = (inr (), [Yield (ErrorDict error "Unknown model")]))
  ∧ unload_model key w = (inr false, w).
Proof.
  intros Hk Hok.
  pose proof (registry_ok_unknown key w Hok Hk) as Hl.
  split; [by apply load_model_unknown|]. split; [|split].
  - intros text speaker temperature top_p.
    destruct (truthy (strip text)) eqn:Ht.
    + eexists. apply generate_load_fails; [done|done|].
      by apply load_model_unknown.
    + eexists. by apply generate_blank.
  - intros files tr. unfold download_model_with_progress, download_body.
    unfold py_in in Hk. destruct (MODELS !! key); [done|]. reflexivity.
  - by apply unload_model_absent.
Qed.

(** * The audio file handlers *)

Lemma prefix_app n b : String.prefix n (n +:+ b) = true.
Proof.
  induction n as [|c n IH]; simpl; [by destruct b|].
  destruct (Ascii.ascii_dec c c); [done|congruence].
Qed.

Lemma py_contains_unfold needle s :
  py_contains needle s
  = String.prefix needle s
    || match s with
       | EmptyString => false
       | String _ s' => py_contains needle s'
       end.
Proof. by destruct s. Qed.

Lemma py_contains_substring needle a b :
  py_contains needle (a +:+ needle +:+ b) = true.
Proof.
  induction a as [|c a IH]; rewrite py_contains_unfold.
  - change ("" +:+ needle +:+ b) with (needle +:+ b).
    by rewrite prefix_app.
  - change (String c a +:+ needle +:+ b) with (String c (a +:+ needle +:+ b)).
    lazy beta iota. rewrite IH. by rewrite orb_true_r.
Qed.

(** C9. A file name that contains [..] or the path separator [/] is
    rejected by [get_audio] and by [delete_audio] with the HTTP error 400
    "Invalid filename", whatever the file system holds, and the world is
    left as it was. *)
Theorem audio_filename_rejected (filename : string) (w : World) :
  (∃ a b, filename = a +:+ ".." +:+ b) ∨ (∃ a b, filename = a +:+ "/" +:+ b) →
  get_audio filename w = (inl (HTTPException 400 "Invalid filename"), w)
  ∧ delete_audio filename w = (inl (HTTPException 400 "Invalid filename"), w).
Proof.
  intros H.
  assert (py_contains ".." filename || py_contains "/" filename = true) as Hc.
  { destruct H as [(a & b & ->)|(a & b & ->)].
    - by rewrite py_contains_substring.
    - rewrite (py_contains_substring "/"). by rewrite orb_true_r. }
  unfold get_audio, delete_audio. by rewrite Hc.
Qed.

End Backend_facts.

(** * The statements on a concrete installation *)

Lemma load_model_idempotent_witness :
  let w := TTSService_init test_fs in
  let w1 := snd (@load_model test_env "en" w) in
  @is_model_downloaded test_env (fs w) "en" = true ∧
  @load_model test_env "en" w = (inr true, w1) ∧
  ∃ h w2,
    _models w1 !! "en" = Some h
    ∧ @load_model test_env "en" w1 = (inr true, w2)
    ∧ _models w2 !! "en" = Some h
    ∧ _models w2 = _models w1
    ∧ constructions w2 = constructions w1
    ∧ w2 = w1.
Proof.
  assert (@is_model_downloaded test_env (fs (TTSService_init test_fs)) "en"
          = true) as H1 by (by vm_compute).
  assert (@load_model test_env "en" (TTSService_init test_fs)
          = (inr true, snd (@load_model test_env "en" (TTSService_init test_fs))))
    as H2 by (by vm_compute).
  split; [exact H1|split; [exact H2|]].
  exact (@load_model_idempotent test_env "en" (TTSService_init test_fs) _
           true H1 H2).
Defined.

Lemma download_already_downloaded_witness :
  @is_model_downloaded test_env test_fs "en" = true ∧
  ∃ d t,
    @download_model_with_progress test_env test_fs test_transfer "en"
    = (inr (), t)
    ∧ t = [Yield (Snapshot d)]
    ∧ d_model_key d = "en"
    ∧ d_status d = completed
    ∧ d_total_size d = 1 ∧ d_downloaded_size d = 1
    ∧ (d_progress_percent d == 100)%Q
    ∧ yields t = [Snapshot d]
    ∧ Forall (fun x => payload_status x ≠ downloading) (yields t)
    ∧ (∀ repo dir, StartTransfer repo dir ∉ t).
Proof.
  assert (@is_model_downloaded test_env test_fs "en" = true) as H
    by (by vm_compute).
  split; [exact H|].
  exact (@download_already_downloaded test_env test_fs test_transfer "en" H).
Defined.

(** C7 as stated fails twice.  A blank text is refused before the model is
    looked at, with [ValueError] and not with the not-downloaded error; and
    a model that is resident in the registry is used although its files
    are gone: [generate] succeeds and writes a file. *)
Lemma generate_not_downloaded_counterexample :
  py_in "de" (@MODELS test_env) = true
  ∧ @is_model_downloaded test_env test_fs "de" = false
  ∧ @generate test_env (text_of " ") "de" None (7 # 10) (9 # 10)
      (TTSService_init test_fs)
    = (inl (ValueError "Text cannot be empty"), TTSService_init test_fs)
  ∧ (¬ ∃ w', @generate test_env (text_of " ") "de" None (7 # 10) (9 # 10)
               (TTSService_init test_fs)
             = (inl (RuntimeError "Model de is not downloaded"), w'))
  ∧ @load_model test_env "de" (TTSService_init test_fs_both)
    = (inr true,
       snd (@load_model test_env "de" (TTSService_init test_fs_both)))
  ∧ @is_model_downloaded test_env (fs test_world_resident) "de" = false
  ∧ py_in "de" (_models test_world_resident) = true
  ∧ ∃ w',
      @generate test_env (text_of "Hi") "de" None (7 # 10) (9 # 10)
        test_world_resident
      = (inr ([82; 73; 70; 70]%N, "output_01234567.wav"), w')
      ∧ fs test_world_resident !! "/srv/kani/output/output_01234567.wav" = None
      ∧ fs w' !! "/srv/kani/output/output_01234567.wav"
        = Some (File [82; 73; 70; 70]%N).
Proof.
  do 3 (split; [by vm_compute|]).
  split; [intros [w' H]; vm_compute in H; discriminate H|].
  do 3 (split; [by vm_compute|]).
  eexists. split; [vm_compute; reflexivity|]. split; by vm_compute.
Qed.

Lemma generate_not_downloaded_witness :
  truthy (strip (text_of "Hi")) = true
  ∧ py_in "de" (@MODELS test_env) = true
  ∧ @is_model_downloaded test_env (fs (TTSService_init test_fs)) "de" = false
  ∧ py_in "de" (_models (TTSService_init test_fs)) = false
  ∧ @generate test_env (text_of "Hi") "de" None (7 # 10) (9 # 10)
      (TTSService_init test_fs)
    = (inl (RuntimeError ("Model " +:+ "de" +:+ " is not downloaded")),
       TTSService_init test_fs).
Proof.
  assert (truthy (strip (text_of "Hi")) = true) as H1 by (by vm_compute).
  assert (py_in "de" (@MODELS test_env) = true) as H2 by (by vm_compute).
  assert (@is_model_downloaded test_env (fs (TTSService_init test_fs)) "de"
          = false) as H3 by (by vm_compute).
  assert (py_in "de" (_models (TTSService_init test_fs)) = false) as H4
    by (by vm_compute).
  repeat (split; [assumption|]).
  exact (@generate_not_downloaded test_env (text_of "Hi") "de" None
           (7 # 10) (9 # 10) (TTSService_init test_fs) H1 H2 H3 H4).
Defined.

(** C8 as stated fails for [unload_model]: with a key that is not in the
    table it returns [False] and raises nothing. *)
Lemma unknown_model_key_counterexample :
  py_in "xx" (@MODELS test_env) = false
  ∧ unload_model "xx" (TTSService_init test_fs)
    = (inr false, TTSService_init test_fs)
  ∧ ¬ ∃ e w', unload_model "xx" (TTSService_init test_fs) = (inl e, w').
Proof.
  split; [by vm_compute|]. split; [by vm_compute|].
  intros (e & w' & H). vm_compute in H. discriminate H.
Qed.

Lemma unknown_model_key_witness :
  let w := TTSService_init test_fs in
  py_in "xx" (@MODELS test_env) = false
  ∧ @registry_ok test_env w
  ∧ @load_model test_env "xx" w
    = (inl (ValueError ("Unknown model: " +:+ "xx")), w)
  ∧ (∀ text speaker temperature top_p,
       ∃ msg, @generate test_env text "xx" speaker temperature top_p w
              = (inl (ValueError msg), w))
  ∧ (∀ files tr,
       @download_model_with_progress test_env files tr "xx"
       = (inr (), [Yield (ErrorDict error "Unknown model")]))
  ∧ unload_model "xx" w = (inr false, w).
Proof.
  assert (py_in "xx" (@MODELS test_env) = false) as H1 by (by vm_compute).
  pose proof (@registry_ok_init test_env test_fs) as H2.
  split; [exact H1|split; [exact H2|]].
  exact (@unknown_model_key test_env "xx" (TTSService_init test_fs) H1 H2).
Defined.

Lemma audio_filename_rejected_witness :
  let w := TTSService_init test_fs in
  ((∃ a b, "../secret.wav" = a +:+ ".." +:+ b)
   ∨ (∃ a b, "../secret.wav" = a +:+ "/" +:+ b))
  ∧ @get_audio test_env "../secret.wav" w
    = (inl (HTTPException 400 "Invalid filename"), w)
  ∧ @delete_audio test_env "../secret.wav" w
    = (inl (HTTPException 400 "Invalid filename"), w).
Proof.
  assert ((∃ a b, "../secret.wav" = a +:+ ".." +:+ b)
          ∨ (∃ a b, "../secret.wav" = a +:+ "/" +:+ b)) as H
    by (left; by exists "", "/secret.wav").
  split; [exact H|].
  exact (@audio_filename_rejected test_env "../secret.wav"
           (TTSService_init test_fs) H).
Defined.

(** The scenario of a long sentence without punctuation: one oversized
    chunk, nothing dropped. *)
Example split_long_sentence :
  split_into_sentences (replicate 350 97%N) = [replicate 350 97%N].
Proof. by vm_compute. Qed.

(** A sentence of 253 characters whose first clause has 251: the clause is
    a chunk of its own, over the budget. *)
Lemma split_into_sentences_budget_witness :
  let text := replicate 250 97%N ++ text_of ", b" in
  let piece := replicate 250 97%N ++ text_of "," in
  text ∈ sentences_of text
  ∧ (MAX_CHUNK_CHARS < length text)%nat
  ∧ piece ∈ re_split clause_sep text
  ∧ (MAX_CHUNK_CHARS < length piece)%nat
  ∧ piece ∈ split_into_sentences text
  ∧ ((length piece ≤ MAX_CHUNK_CHARS)%nat ∨ oversized_fallback text piece)
  ∧ py_join [SPACE] (split_into_sentences text) = normalize text.
Proof.
  assert (replicate 250 97%N ++ text_of ", b"
          ∈ sentences_of (replicate 250 97%N ++ text_of ", b")) as H1
    by (vm_compute; apply list_elem_of_here).
  assert (MAX_CHUNK_CHARS < length (replicate 250 97%N ++ text_of ", b"))%nat
    as H2 by (vm_compute; lia).
  assert (replicate 250 97%N ++ text_of ","
          ∈ re_split clause_sep (replicate 250 97%N ++ text_of ", b")) as H3
    by (vm_compute; apply list_elem_of_here).
  assert (MAX_CHUNK_CHARS < length (replicate 250 97%N ++ text_of ","))%nat
    as H4 by (vm_compute; lia).
  split; [exact H1|split; [exact H2|split; [exact H3|split; [exact H4|]]]].
  destruct (split_into_sentences_budget
              (replicate 250 97%N ++ text_of ", b")) as (Hb & Hk & Hj).
  split; [exact (Hk _ _ H1 H2 H3 H4)|].
  split; [exact (Hb _ (Hk _ _ H1 H2 H3 H4))|exact Hj].
Defined.

Example split_scenario :
  split_into_sentences (text_of "Hello world. This is a test!")
  = [text_of "Hello world."; text_of "This is a test!"].
Proof. by vm_compute. Qed.

(** [re.split] and the normalization on small texts. *)
Example re_split_trailing :
  re_split sentence_end (text_of "a. ") = [text_of "a."; []].
Proof. by vm_compute. Qed.

Example re_split_runs :
  re_split sentence_end (text_of "a.  b! c")
  = [text_of "a."; text_of "b!"; text_of "c"].
Proof. by vm_compute. Qed.

Example re_split_clauses :
  re_split clause_sep (text_of "a, b; c - d,e")
  = [text_of "a,"; text_of "b;"; text_of "c - d,e"].
Proof. by vm_compute. Qed.

Example normalize_example :
  normalize [32; 97; 9; 10; 98; 160]%N = text_of "a b".
Proof. by vm_compute. Qed.

(** A download that runs to its end: the statuses of the snapshots. *)
Example download_run_statuses :
  map payload_status
    (yields (snd (@download_model_with_progress test_env test_fs
                    test_transfer "de")))
  = [downloading; downloading; downloading; downloading; completed].
Proof. by vm_compute. Qed.

(** A transfer that fails ends with one [error] snapshot. *)
Example download_gated_statuses :
  map payload_status
    (yields (snd (@download_model_with_progress test_env test_fs
                    {| repo_info := inl GatedRepoError; mkdir_fault := None;
                       polls := []; transfer_fault := None |} "de")))
  = [downloading; error].
Proof. by vm_compute. Qed.

(** Two sentences: two chunks, one silence between them. *)
Example generate_two_chunks :
  ∃ w, @generate test_env (text_of "Hi. Yo") "en" None (7 # 10) (9 # 10)
         (TTSService_init test_fs)
       = (inr ([82; 73; 70; 70]%N, "output_01234567.wav"), w)
       ∧ py_in "en" (_models w) = true.
Proof. eexists. split; [vm_compute; reflexivity|by vm_compute]. Qed.

(** * Further properties of the text chunker *)

Lemma normal_app s t : normal s → normal t → normal (s ++ [SPACE] ++ t).
Proof.
  intros Hs (w & ws & Hall & ->). revert s w Hs Hall.
  induction ws as [|w' ws IH]; intros s w Hs Hall.
  - apply normal_snoc; [done|]. by inversion Hall.
  - inversion Hall as [|? ? Hw Hall']; subst.
    change (py_join [SPACE] (w :: w' :: ws))
      with (w ++ [SPACE] ++ py_join [SPACE] (w' :: ws)).
    rewrite !app_assoc. rewrite <- (app_assoc s [SPACE] w).
    rewrite <- app_assoc. apply IH; [|done]. by apply normal_snoc.
Qed.

Lemma pack_parts_normal parts : ∀ chunks cur chunks' cur',
  Forall normal parts → cur = [] ∨ normal cur → Forall normal chunks →
  pack_parts parts chunks cur = (chunks', cur') →
  Forall normal chunks' ∧ (cur' = [] ∨ normal cur').
Proof.
  induction parts as [|part rest IH]; intros chunks cur chunks' cur' Hp Hc Hch E.
  - simpl in E. by injection E as <- <-.
  - inversion Hp as [|? ? Hpart Hrest]; subst. simpl in E.
    destruct (_ <=? _)%nat.
    + destruct Hc as [->|Hc].
      * simpl in E. by apply (IH _ _ _ _ Hrest (or_intror Hpart) Hch) in E.
      * rewrite (tight_truthy cur (normal_tight _ Hc)) in E.
        assert (normal (cur ++ SPACE :: part)) as Hn
          by by apply (normal_app cur part).
        rewrite (strip_tight _ (normal_tight _ Hn)) in E.
        by apply (IH _ _ _ _ Hrest (or_intror Hn) Hch) in E.
    + apply (IH _ _ _ _ Hrest (or_intror Hpart)) in E; [done|].
      destruct Hc as [->|Hc]; [done|].
      rewrite (tight_truthy cur (normal_tight _ Hc)).
      apply Forall_app. split; [done|]. by constructor.
Qed.

Lemma chunk_sentence_normal chunks s :
  normal s → Forall normal chunks → Forall normal (chunk_sentence chunks s).
Proof.
  intros Hs Hch. unfold chunk_sentence. destruct (_ <=? _)%nat.
  - apply Forall_app. split; [done|]. by constructor.
  - destruct (re_split_normal clause_sep s Hs) as [_ Hn].
    destruct (pack_parts _ chunks []) as [chunks' cur'] eqn:E.
    apply (pack_parts_normal _ _ _ _ _ Hn (or_introl eq_refl) Hch) in E
      as [H1 [->|H2]]; [done|].
    rewrite (tight_truthy cur' (normal_tight _ H2)).
    apply Forall_app. split; [done|]. by constructor.
Qed.

Lemma fold_chunk_sentence_normal sentences : ∀ acc,
  Forall normal sentences → Forall normal acc →
  Forall normal (fold_left chunk_sentence sentences acc).
Proof.
  induction sentences as [|s l IH]; intros acc Hn Hacc; simpl; [done|].
  inversion Hn; subst. apply IH; [done|]. by apply chunk_sentence_normal.
Qed.

Lemma py_split_go_nonblank s : ∀ cur,
  Exists nonspace s ∨ cur ≠ [] → py_split_go cur s ≠ [].
Proof.
  induction s as [|c s IH]; intros cur H; simpl.
  - destruct H as [H|H]; [by inversion H|]. by destruct cur.
  - destruct (isspace c) eqn:Hc.
    + destruct cur as [|d cur]; [|done]. apply IH. left.
      destruct H as [H|H]; [|done].
      inversion H as [? ? Hx|]; subst; [congruence|done].
    + apply IH. by right.
Qed.

(** The sentences of a text with a word are normalized texts. *)
Lemma sentences_of_normal text :
  Exists nonspace text →
  normal (normalize text)
  ∧ sentences_of text = re_split sentence_end (normalize text)
  ∧ Forall normal (sentences_of text).
Proof.
  intros Hne. unfold sentences_of, normalize.
  pose proof (py_split_words text) as Hw.
  pose proof (py_split_go_nonblank text [] (or_introl Hne)) as Hnil.
  fold (py_split text) in Hnil.
  destruct (py_split text) as [|w ws]; [done|].
  assert (normal (py_join [SPACE] (w :: ws))) as Ht by by exists w, ws.
  destruct (re_split_normal sentence_end _ Ht) as [_ Hn].
  rewrite strip_nonempty_tight
    by (eapply Forall_impl; [exact Hn|apply normal_tight]).
  done.
Qed.

Lemma split_into_sentences_loop text :
  Exists nonspace text →
  split_into_sentences text = fold_left chunk_sentence (sentences_of text) [].
Proof.
  intros Hne.
  destruct (split_into_sentences_cases text) as [(E & _ & _)|[E _]]; [|done].
  exfalso. by apply (py_split_go_nonblank text [] (or_introl Hne)).
Qed.

(** X1. When the text has at least one character that is not whitespace,
    every chunk is a normalized text: words separated by single spaces.  So
    no chunk is empty, and none starts or ends with whitespace. *)
Theorem split_into_sentences_chunks_normal (text : str) :
  Exists (fun c => isspace c = false) text →
  Forall normal (split_into_sentences text)
  ∧ Forall tight (split_into_sentences text)
  ∧ Forall (fun c => c ≠ [] ∧ strip c = c) (split_into_sentences text).
Proof.
  intros Hne. rewrite split_into_sentences_loop by done.
  destruct (sentences_of_normal text Hne) as (_ & _ & Hn).
  pose proof (fold_chunk_sentence_normal _ [] Hn (Forall_nil_2 _)) as H.
  split; [done|]. split.
  - eapply Forall_impl; [exact H|apply normal_tight].
  - eapply Forall_impl; [exact H|]. intros c Hc. split.
    + apply tight_nonnil. by apply normal_tight.
    + apply strip_tight. by apply normal_tight.
Qed.

Lemma split_into_sentences_chunks_normal_witness :
  Exists (fun c => isspace c = false) (text_of " Hi.  Yo ")
  ∧ Forall normal (split_into_sentences (text_of " Hi.  Yo "))
  ∧ Forall tight (split_into_sentences (text_of " Hi.  Yo "))
  ∧ Forall (fun c => c ≠ [] ∧ strip c = c)
      (split_into_sentences (text_of " Hi.  Yo ")).
Proof.
  assert (Exists (fun c => isspace c = false) (text_of " Hi.  Yo ")) as H
    by (apply Exists_cons_tl, Exists_cons_hd; reflexivity).
  split; [exact H|exact (split_into_sentences_chunks_normal _ H)].
Defined.

(** *** Texts without a place to cut *)

Lemma has_sep_app_cons cls a c s :
  has_sep cls (a ++ c :: s) = false →
  has_sep cls (a ++ [c]) = false ∧ has_sep cls (c :: s) = false.
Proof.
  induction a as [|x a IH]; intros H.
  - split; [done|done].
  - destruct a as [|y a].
    + simpl in H. apply orb_false_elim in H as [H1 H2].
      split; [|done]. simpl. by rewrite H1.
    + change (has_sep cls ((x :: y :: a) ++ c :: s))
        with ((cls x && isspace y) || has_sep cls ((y :: a) ++ c :: s)) in H.
      apply orb_false_elim in H as [H1 H2].
      destruct (IH H2) as [H3 H4]. split; [|done].
      change (has_sep cls ((x :: y :: a) ++ [c]))
        with ((cls x && isspace y) || has_sep cls ((y :: a) ++ [c])).
      by rewrite H1, H3.
Qed.

Lemma re_split_go_no_sep cls s : ∀ prev cur,
  has_sep cls (reverse cur ++ s) = false →
  (cur ≠ [] → prev = head cur) →
  (cur = [] → lookbehind cls prev = false) →
  re_split_go cls false prev cur s = [reverse cur ++ s].
Proof.
  induction s as [|c s IH]; intros prev cur Hs Hp Hl; simpl.
  - by rewrite app_nil_r.
  - assert (re_split_go cls false (Some c) (c :: cur) s
            = [reverse cur ++ c :: s]) as Hpush.
    { rewrite IH; [|by rewrite reverse_cons, <- app_assoc|done|done].
      by rewrite reverse_cons, <- app_assoc. }
    destruct (isspace c) eqn:Hc; [|done].
    assert (lookbehind cls prev = false) as ->; [|done].
    destruct cur as [|d cur]; [by apply Hl|].
    rewrite (Hp ltac:(done)). simpl.
    apply has_sep_app_cons in Hs as [Hs _].
    rewrite has_sep_snoc, last_reverse in Hs. simpl in Hs.
    apply orb_false_elim in Hs as [_ Hs]. by rewrite Hc, andb_true_r in Hs.
Qed.

Lemma re_split_no_sep cls s : has_sep cls s = false → re_split cls s = [s].
Proof. intros H. by apply re_split_go_no_sep. Qed.

Lemma strip_nonempty_single s : normal s → strip_nonempty [s] = [s].
Proof.
  intros Hs. apply strip_nonempty_tight. constructor; [|done].
  by apply normal_tight.
Qed.

(** X2. A text without a sentence end followed by whitespace comes back as
    one chunk, the normalized text, when it fits the budget or has no
    comma, semicolon or dash followed by whitespace either; whatever its
    length in the second case. *)
Theorem split_into_sentences_single (text : str) :
  has_sep sentence_end (normalize text) = false →
  (length (normalize text) ≤ MAX_CHUNK_CHARS)%nat
  ∨ has_sep clause_sep (normalize text) = false →
  split_into_sentences text = [normalize text].
Proof.
  intros Hs Hc.
  destruct (split_into_sentences_cases text) as [(_ & -> & ->)|[E _]]; [done|].
  rewrite E. unfold sentences_of. rewrite (re_split_no_sep _ _ Hs).
  destruct (normalize text) as [|c0 t0] eqn:Et.
  { exfalso. unfold split_into_sentences, sentences_of in E.
    rewrite Et in E. vm_compute in E. discriminate E. }
  rewrite <- Et in *.
  assert (normal (normalize text)) as Hn.
  { unfold normalize in *. pose proof (py_split_words text) as Hw.
    destruct (py_split text) as [|w ws]; [done|]. by exists w, ws. }
  rewrite strip_nonempty_single by done. simpl. unfold chunk_sentence.
  destruct (_ <=? _)%nat eqn:Hle; [done|].
  apply Nat.leb_gt in Hle. destruct Hc as [Hc|Hc]; [lia|].
  rewrite (re_split_no_sep _ _ Hc). simpl.
  assert ((length (normalize text) + 1 <=? MAX_CHUNK_CHARS)%nat = false) as ->
    by (apply Nat.leb_gt; lia).
  simpl. by rewrite (tight_truthy _ (normal_tight _ Hn)).
Qed.

Lemma split_into_sentences_single_witness :
  let text := text_of "  no  full stop here  " in
  has_sep sentence_end (normalize text) = false
  ∧ ((length (normalize text) ≤ MAX_CHUNK_CHARS)%nat
     ∨ has_sep clause_sep (normalize text) = false)
  ∧ split_into_sentences text = [normalize text].
Proof.
  assert (has_sep sentence_end (normalize (text_of "  no  full stop here  "))
          = false) as H1 by (by vm_compute).
  assert ((length (normalize (text_of "  no  full stop here  "))
           ≤ MAX_CHUNK_CHARS)%nat
          ∨ has_sep clause_sep (normalize (text_of "  no  full stop here  "))
            = false) as H2 by (right; by vm_compute).
  split; [exact H1|split; [exact H2|]].
  exact (split_into_sentences_single _ H1 H2).
Defined.

(** *** Sentences within the budget *)

Lemma fold_chunk_sentence_short l : ∀ acc,
  Forall (fun s => (length s ≤ MAX_CHUNK_CHARS)%nat) l →
  fold_left chunk_sentence l acc = acc ++ l.
Proof.
  induction l as [|s l IH]; intros acc Hl; simpl; [by rewrite app_nil_r|].
  inversion Hl as [|? ? Hs Hl']; subst. rewrite IH by done.
  unfold chunk_sentence. apply Nat.leb_le in Hs. rewrite Hs.
  by rewrite <- app_assoc.
Qed.

(** X3. When every sentence of a text fits the budget, the chunks are
    exactly the sentences: the pieces of the normalized text cut after each
    [.], [!] or [?] that is followed by a space; none is merged with its
    neighbour and none is cut. *)
Theorem split_into_sentences_short (text : str) :
  Exists (fun c => isspace c = false) text →
  Forall (fun s => (length s ≤ MAX_CHUNK_CHARS)%nat)
    (re_split sentence_end (normalize text)) →
  split_into_sentences text = re_split sentence_end (normalize text).
Proof.
  intros Hne Hshort. rewrite split_into_sentences_loop by done.
  destruct (sentences_of_normal text Hne) as (_ & -> & _).
  by rewrite fold_chunk_sentence_short.
Qed.

Lemma split_into_sentences_short_witness :
  let text := text_of "Hello world. This is a test!" in
  Exists (fun c => isspace c = false) text
  ∧ Forall (fun s => (length s ≤ MAX_CHUNK_CHARS)%nat)
      (re_split sentence_end (normalize text))
  ∧ split_into_sentences text = re_split sentence_end (normalize text).
Proof.
  assert (Exists (fun c => isspace c = false)
            (text_of "Hello world. This is a test!")) as H1
    by (apply Exists_cons_hd; reflexivity).
  assert (Forall (fun s => (length s ≤ MAX_CHUNK_CHARS)%nat)
            (re_split sentence_end
               (normalize (text_of "Hello world. This is a test!")))) as H2
    by (vm_compute; repeat constructor).
  split; [exact H1|split; [exact H2|]].
  exact (split_into_sentences_short _ H1 H2).
Defined.

(** *** Normalizing twice *)

Lemma py_split_go_run w : Forall nonspace w → ∀ cur rest,
  py_split_go cur (w ++ rest) = py_split_go (reverse w ++ cur) rest.
Proof.
  induction 1 as [|c w Hc _ IH]; intros cur rest; [done|].
  simpl. rewrite Hc, IH. by rewrite reverse_cons, <- app_assoc.
Qed.

Lemma py_split_join ws :
  Forall word ws → py_split (py_join [SPACE] ws) = ws.
Proof.
  unfold py_split. induction 1 as [|w ws [Hne Hw] Hws IH]; [done|].
  assert (∃ d r, reverse w = d :: r) as (d & r & E).
  { destruct (reverse w) as [|d r] eqn:E; [|by eauto].
    apply (f_equal reverse) in E. by rewrite reverse_involutive in E. }
  assert (reverse (d :: r) = w) as Ew by by rewrite <- E, reverse_involutive.
  destruct ws as [|w' ws].
  - simpl py_join. rewrite <- (app_nil_r w) at 1.
    rewrite py_split_go_run by done. rewrite app_nil_r, E.
    cbn [py_split_go]. by rewrite Ew.
  - change (py_join [SPACE] (w :: w' :: ws))
      with (w ++ SPACE :: py_join [SPACE] (w' :: ws)).
    rewrite py_split_go_run by done. rewrite app_nil_r, E.
    set (J := py_join [SPACE] (w' :: ws)) in *.
    cbn [py_split_go]. change (isspace SPACE) with true. cbn iota.
    by rewrite Ew, IH.
Qed.

Lemma normalize_idempotent text : normalize (normalize text) = normalize text.
Proof.
  unfold normalize. by rewrite py_split_join by apply py_split_words.
Qed.

(** X4. Chunking is stable: joining the chunks of a text with single
    spaces and chunking the result again gives the same chunks.  The
    whitespace of the input does not matter beyond where it separates
    words. *)
Theorem split_into_sentences_rechunk (text : str) :
  split_into_sentences (py_join [SPACE] (split_into_sentences text))
  = split_into_sentences text
  ∧ split_into_sentences (normalize text) = split_into_sentences text.
Proof.
  assert (split_into_sentences (normalize text) = split_into_sentences text)
    as Hn by (unfold split_into_sentences; by rewrite normalize_idempotent).
  split; [|done].
  destruct (split_into_sentences_cases text) as [(_ & E1 & E2)|[_ E]].
  - rewrite E2. by vm_compute.
  - destruct (split_into_sentences text) as [|c cs] eqn:Es; [done|].
    rewrite sp_all_join in E by done.
    assert (py_join [SPACE] (c :: cs) = normalize text) as ->
      by (by injection E).
    by rewrite Hn.
Qed.

(** * Further properties of the model registry *)

Section Registry_facts.
Context `{env : Env}.

Lemma py_in_Some {V} (k : string) (d : gmap string V) :
  py_in k d = true ↔ is_Some (d !! k).
Proof.
  unfold py_in. destruct (d !! k) as [v|]; split; done.
Qed.

Lemma py_in_None {V} (k : string) (d : gmap string V) :
  py_in k d = false ↔ d !! k = None.
Proof. unfold py_in. by destruct (d !! k). Qed.

(** Every way [load_model] can end. *)
Lemma load_model_outcomes key w r w1 :
  load_model key w = (r, w1) →
  (py_in key MODELS = false
   ∧ r = inl (ValueError ("Unknown model: " +:+ key)) ∧ w1 = w)
  ∨ (py_in key MODELS = true ∧ is_model_downloaded (fs w) key = false
     ∧ r = inl (RuntimeError ("Model " +:+ key +:+ " is not downloaded"))
     ∧ w1 = w)
  ∨ (is_model_downloaded (fs w) key = true ∧ py_in key (_models w) = true
     ∧ r = inr true ∧ w1 = set_current_model_key (Some key) w)
  ∨ (∃ m, MODELS !! key = Some m
       ∧ is_model_downloaded (fs w) key = true
       ∧ py_in key (_models w) = false
       ∧ fs w1 = fs w ∧ uuid_calls w1 = uuid_calls w
       ∧ constructions w1 = S (constructions w)
       ∧ ((∃ msg, KaniTTS_init (fs w) (local_path m) = Some msg
             ∧ r = inl (RuntimeError ("Failed to load model: " +:+ msg))
             ∧ _models w1 = _models w
             ∧ _current_model_key w1 = _current_model_key w)
          ∨ (KaniTTS_init (fs w) (local_path m) = None
             ∧ r = inr true
             ∧ _models w1
               = <[key := {| handle_id := constructions w;
                             handle_path := local_path m |}]> (_models w)
             ∧ _current_model_key w1 = Some key))).
Proof.
  unfold load_model. destruct (py_in key MODELS) eqn:Hk; simpl;
    [|intros [= <- <-]; by left].
  run_eff. destruct (is_model_downloaded (fs w) key) eqn:Hd; simpl;
    [|intros [= <- <-]; right; by left].
  destruct (py_in key (_models w)) eqn:Hl.
  { intros [= <- <-]. right. right. by left. }
  unfold py_in in Hk. destruct (MODELS !! key) as [m|] eqn:Hm; [|done].
  simpl. unfold KaniTTS.
  destruct (KaniTTS_init (fs w) (local_path m)) as [msg|] eqn:Hc; simpl;
    intros [= <- <-]; right; right; right; exists m;
    (do 6 (split; [done|])).
  - left. by exists msg.
  - by right.
Qed.

(** X5. [load_model] returns [True] or raises: a [ValueError] exactly when
    the key is not in the table, otherwise a [RuntimeError].  When it
    raises, the registry holds the same handles under the same "current"
    marker as before and the files are untouched: a model whose
    construction fails is never left half loaded. *)
Theorem load_model_errors (key : string) (w w1 : World) (e : PyExc) :
  load_model key w = (inl e, w1) →
  ((∃ msg, e = ValueError msg) ↔ py_in key MODELS = false)
  ∧ ((∃ msg, e = RuntimeError msg) ↔ py_in key MODELS = true)
  ∧ _models w1 = _models w
  ∧ _current_model_key w1 = _current_model_key w
  ∧ fs w1 = fs w.
Proof.
  intros H. apply load_model_outcomes in H
    as [(Hk & [= ->] & ->)|[(Hk & _ & [= ->] & ->)|[(_ & _ & H & _)
       |(m & Hm & _ & _ & Hfs & _ & _ & [(msg & _ & [= ->] & Hmod & Hcur)
                                          |(_ & H & _)])]]];
    try discriminate H.
  - repeat split; try done; try (by eauto); try (intros [? ?]; congruence);
      intros; congruence.
  - repeat split; try done; try (by eauto); try (intros [? ?]; congruence);
      intros; congruence.
  - assert (py_in key MODELS = true) as Hk by (unfold py_in; by rewrite Hm).
    repeat split; try done; try (by eauto); try (intros [? ?]; congruence);
      intros; congruence.
Qed.

(** X6. Loading a model that was not resident and unloading it again gives
    back the registry as it was, with no "current" model; the files are
    not touched. *)
Theorem load_unload_roundtrip (key : string) (w w1 : World) (r : bool) :
  py_in key (_models w) = false →
  load_model key w = (inr r, w1) →
  ∃ w2, unload_model key w1 = (inr true, w2)
        ∧ _models w2 = _models w
        ∧ _current_model_key w2 = None
        ∧ fs w2 = fs w.
Proof.
  intros Hl H. apply load_model_outcomes in H
    as [(_ & H & _)|[(_ & _ & H & _)|[(_ & Hl' & _)
       |(m & Hm & _ & _ & Hfs & _ & _ & [(msg & _ & H & _)
                                          |(_ & _ & Hmod & Hcur)])]]];
    try discriminate H; [congruence|].
  unfold unload_model. run_eff.
  assert (py_in key (_models w1) = true) as ->.
  { apply py_in_Some. rewrite Hmod, lookup_insert_eq. by eexists. }
  simpl. rewrite Hcur. rewrite bool_decide_eq_true_2 by done. simpl.
  eexists. split; [reflexivity|]. simpl. split; [|done].
  rewrite Hmod. apply delete_insert_id. by apply py_in_None.
Qed.

(** X7. [unload_model] never raises and answers whether the key was
    resident.  Afterwards the key is not resident, the handles under the
    other keys are the ones from before, the "current" marker is cleared
    exactly when the key was resident and the marker named it, and nothing
    else has changed; for a key that was not resident the world is as
    before. *)
Theorem unload_model_effect (key : string) (w : World) :
  ∃ w1, unload_model key w = (inr (py_in key (_models w)), w1)
        ∧ _models w1 = delete key (_models w)
        ∧ _models w1 !! key = None
        ∧ (∀ k, k ≠ key → _models w1 !! k = _models w !! k)
        ∧ _current_model_key w1
          = (if py_in key (_models w)
                && bool_decide (_current_model_key w = Some key)
             then None else _current_model_key w)
        ∧ fs w1 = fs w ∧ constructions w1 = constructions w
        ∧ (py_in key (_models w) = false → w1 = w).
Proof.
  unfold unload_model. run_eff.
  destruct (py_in key (_models w)) eqn:Hl; simpl.
  - case_bool_decide as Hc; simpl; eexists; (split; [reflexivity|]); simpl;
      (split; [done|]); (split; [apply lookup_delete_eq|]);
      (split; [intros k Hk; by apply lookup_delete_ne|]); done.
  - exists w. split; [done|]. apply py_in_None in Hl.
    split; [by rewrite delete_id|]. done.
Qed.

(** *** The registry through [generate] *)

Lemma generate_try_registry model text key speaker w r w1 :
  generate_try model text key speaker w = (r, w1) →
  registry w1 = registry w.
Proof.
  unfold generate_try. run_eff.
  destruct (generate_chunks _ _ _ _ w) as [rc sc] eqn:Ec.
  apply generate_chunks_state in Ec as ->.
  destruct rc as [e|arrays]; [by intros [= _ <-]|].
  destruct (stitch arrays); simpl; [|by intros [= _ <-]].
  destruct (save_audio _ _ _) as [fault|data]; simpl;
    [destruct (save_left fault); simpl; by intros [= _ <-]|].
  unfold read_file. run_eff.
  destruct (fs_write _ _ _ _ !! _) as [[?|?]|]; simpl; by intros [= _ <-].
Qed.

Lemma generate_registry text key speaker temperature top_p w r w1 :
  generate text key speaker temperature top_p w = (r, w1) →
  registry w1 = registry w
  ∨ ∃ rl wl, load_model key w = (rl, wl) ∧ registry w1 = registry wl.
Proof.
  unfold generate.
  destruct (negb (truthy text) || negb (truthy (strip text)));
    [intros [= _ <-]; by left|].
  intros H.
  apply bind_inv in H as [(e & H & _)|(ld & s0 & [= <- <-] & H)];
    [discriminate H|].
  apply bind_inv in H as [(e & H & _)|([] & s1 & Hload & H)].
  - right. destruct (py_in key (_models w)); simpl in H; [discriminate H|].
    apply bind_inv in H as [(e' & H & _)|(b & s2 & _ & H)]; [|discriminate H].
    by exists (inl e'), w1.
  - assert (registry w1 = registry s1) as ->.
    { apply bind_inv in H as [(e & H & _)|(models & s2 & [= <- <-] & H)];
        [discriminate H|].
      apply bind_inv in H as [(e & H & _)|(model & s3 & Hget & H)].
      - unfold py_getitem in H. destruct (_models s1 !! key); [discriminate H|].
        by injection H as _ <-.
      - unfold py_getitem in Hget.
        destruct (_models s1 !! key); [|discriminate Hget].
        injection Hget as <- <-.
        apply try_except_inv in H as [(e & s4 & Ht & H)|(a & Ht & _)].
        + injection H as _ <-. by apply generate_try_registry in Ht.
        + by apply generate_try_registry in Ht. }
    destruct (py_in key (_models w)); simpl in Hload.
    + injection Hload as <-. by left.
    + apply bind_inv in Hload as [(e & _ & H')|(b & s2 & Hl & [= <-])];
        [discriminate H'|].
      right. by exists (inr b), s2.
Qed.

Lemma registry_consistent_eq w w' :
  registry w' = registry w → registry_consistent w → registry_consistent w'.
Proof.
  unfold registry, registry_consistent. intros [= -> -> ->]. done.
Qed.

Lemma registry_consistent_init files :
  registry_consistent (TTSService_init files).
Proof.
  unfold registry_consistent. simpl. repeat split.
  - intros k h. by rewrite lookup_empty.
  - intros k1 k2 h1 h2. by rewrite lookup_empty.
  - done.
Qed.

Lemma load_model_consistent key w r w1 :
  registry_consistent w → load_model key w = (r, w1) →
  registry_consistent w1.
Proof.
  intros (H1 & H2 & H3) H. apply load_model_outcomes in H
    as [(_ & _ & ->)|[(_ & _ & _ & ->)|[(_ & Hl & _ & ->)
       |(m & Hm & _ & Hl & _ & _ & Hc & [(msg & _ & _ & Hmod & Hcur)
                                          |(_ & _ & Hmod & Hcur)])]]];
    try done.
  - split; [done|]. split; [done|]. simpl. intros k [= <-].
    by apply py_in_Some.
  - unfold registry_consistent. rewrite Hmod, Hcur, Hc. split; [|done].
    intros k h Hk. destruct (H1 k h Hk) as (m' & ? & ? & ?).
    exists m'. repeat split; try done. lia.
  - apply py_in_None in Hl.
    unfold registry_consistent. rewrite Hmod, Hcur, Hc. repeat split.
    + intros k h. destruct (decide (key = k)) as [<-|Hne].
      * rewrite lookup_insert_eq. intros [= <-]. exists m. simpl.
        repeat split; try done. lia.
      * rewrite lookup_insert_ne by done. intros Hk.
        destruct (H1 k h Hk) as (m' & ? & ? & ?).
        exists m'. repeat split; try done. lia.
    + intros k1 k2 h1 h2.
      destruct (decide (key = k1)) as [<-|Hne1];
        destruct (decide (key = k2)) as [<-|Hne2]; try done.
      * rewrite lookup_insert_eq, lookup_insert_ne by done.
        intros [= <-] Hk2 Hid. simpl in Hid.
        destruct (H1 k2 h2 Hk2) as (m' & _ & _ & Hlt). lia.
      * rewrite lookup_insert_eq, lookup_insert_ne by done.
        intros Hk1 [= <-] Hid. simpl in Hid.
        destruct (H1 k1 h1 Hk1) as (m' & _ & _ & Hlt). lia.
      * rewrite !lookup_insert_ne by done. apply H2.
    + intros k [= <-]. rewrite lookup_insert_eq. by eexists.
Qed.

Lemma unload_model_consistent key w r w1 :
  registry_consistent w → unload_model key w = (r, w1) →
  registry_consistent w1.
Proof.
  intros (H1 & H2 & H3) H.
  destruct (unload_model_effect key w)
    as (w' & E & Hmod & _ & Hoth & Hcur & _ & Hc & _).
  rewrite E in H. injection H as _ <-.
  unfold registry_consistent. rewrite Hc. repeat split.
  - intros k h Hk. destruct (decide (k = key)) as [->|Hne].
    + by rewrite Hmod, lookup_delete_eq in Hk.
    + rewrite Hoth in Hk by done. by apply H1.
  - intros k1 k2 h1 h2 Hk1 Hk2.
    destruct (decide (k1 = key)) as [->|Hne1];
      [by rewrite Hmod, lookup_delete_eq in Hk1|].
    destruct (decide (k2 = key)) as [->|Hne2];
      [by rewrite Hmod, lookup_delete_eq in Hk2|].
    rewrite Hoth in Hk1, Hk2 by done. by apply H2.
  - intros k. rewrite Hcur.
    destruct (py_in key (_models w)) eqn:Hl; simpl.
    + case_bool_decide as Hd; [done|]. intros Hk.
      rewrite Hoth; [by apply H3|]. intros ->. congruence.
    + intros Hk. apply py_in_None in Hl.
      rewrite Hmod, delete_id by done. by apply H3.
Qed.

Lemma generate_consistent text key speaker temperature top_p w r w1 :
  registry_consistent w →
  generate text key speaker temperature top_p w = (r, w1) →
  registry_consistent w1.
Proof.
  intros Hok H. apply generate_registry in H as [E|(rl & wl & Hl & E)].
  - by apply (registry_consistent_eq w).
  - apply (registry_consistent_eq wl); [done|].
    by apply (load_model_consistent key w rl).
Qed.

(** The world after a handler is the world after the method it calls, or
    the world before. *)
Lemma generate_speech_world request w r w1 :
  generate_speech request w = (r, w1) →
  w1 = w
  ∨ ∃ rg, generate (text request) (model request) (speaker request)
            (temperature request) (top_p request) w = (rg, w1).
Proof.
  unfold generate_speech.
  destruct (negb (py_in (model request) MODELS)); [intros [= _ <-]; by left|].
  run_eff. destruct (negb (is_model_downloaded (fs w) (model request)));
    simpl; [intros [= _ <-]; by left|].
  destruct (generate _ _ _ _ _ w) as [[e|[bytes fname]] wg] eqn:Eg; simpl.
  - destruct e; intros [= _ <-]; right; by eexists.
  - intros [= _ <-]. right. by eexists.
Qed.

Lemma main_load_model_world key w r w1 :
  main.load_model key w = (r, w1) →
  w1 = w ∨ ∃ rl, load_model key w = (rl, w1).
Proof.
  unfold main.load_model.
  destruct (negb (py_in key MODELS)); [intros [= _ <-]; by left|].
  run_eff. destruct (negb (is_model_downloaded (fs w) key));
    simpl; [intros [= _ <-]; by left|].
  destruct (load_model key w) as [[e|b] wl] eqn:El; simpl;
    intros [= _ <-]; right; by eexists.
Qed.

Lemma main_unload_model_world key w r w1 :
  main.unload_model key w = (r, w1) →
  w1 = w ∨ ∃ ru, unload_model key w = (ru, w1).
Proof.
  unfold main.unload_model.
  destruct (negb (py_in key MODELS)); [intros [= _ <-]; by left|].
  run_eff. destruct (unload_model key w) as [[e|b] wl] eqn:El; simpl;
    intros [= _ <-]; right; by eexists.
Qed.

Lemma get_model_world key w r w1 : main.get_model key w = (r, w1) → w1 = w.
Proof.
  unfold main.get_model, is_model_loaded.
  destruct (negb (py_in key MODELS)); [by intros [= _ <-]|].
  run_eff. by intros [= _ <-].
Qed.

Lemma get_audio_world filename w r w1 :
  get_audio filename w = (r, w1) → w1 = w.
Proof.
  unfold get_audio.
  destruct (py_contains ".." filename || py_contains "/" filename);
    [by intros [= _ <-]|].
  run_eff. destruct (negb (path_exists _ _)); by intros [= _ <-].
Qed.

Lemma delete_audio_registry filename w r w1 :
  delete_audio filename w = (r, w1) → registry w1 = registry w.
Proof.
  unfold delete_audio.
  destruct (py_contains ".." filename || py_contains "/" filename);
    [by intros [= _ <-]|].
  run_eff. destruct (path_exists _ _); [|by intros [= _ <-]].
  unfold os_remove. run_eff.
  destruct (fs w !! _) as [[?|?]|]; simpl; by intros [= _ <-].
Qed.

Lemma after_consistent c w :
  registry_consistent w → registry_consistent (after c w).
Proof.
  intros Hok. destruct c as [k|k|t k s tm tp|rq|k|k|k|f|f|ch]; simpl.
  - destruct (load_model k w) as [r w1] eqn:E.
    by apply (load_model_consistent k w r).
  - destruct (unload_model k w) as [r w1] eqn:E.
    by apply (unload_model_consistent k w r).
  - destruct (generate t k s tm tp w) as [r w1] eqn:E.
    by apply (generate_consistent t k s tm tp w r).
  - destruct (generate_speech rq w) as [r w1] eqn:E.
    apply generate_speech_world in E as [->|[rg E]]; [done|].
    by apply generate_consistent in E.
  - destruct (main.load_model k w) as [r w1] eqn:E.
    apply main_load_model_world in E as [->|[rl E]]; [done|].
    by apply load_model_consistent in E.
  - destruct (main.unload_model k w) as [r w1] eqn:E.
    apply main_unload_model_world in E as [->|[rl E]]; [done|].
    by apply unload_model_consistent in E.
  - destruct (main.get_model k w) as [r w1] eqn:E.
    by apply get_model_world in E as ->.
  - destruct (get_audio f w) as [r w1] eqn:E.
    by apply get_audio_world in E as ->.
  - destruct (delete_audio f w) as [r w1] eqn:E.
    apply delete_audio_registry in E. by apply (registry_consistent_eq w).
  - by apply (registry_consistent_eq w).
Qed.

(** X8. Whatever calls reach the backend, in whatever order, and however
    the files change in between, the registry stays consistent: every
    handle it holds belongs to a model of the table and was built from that
    model's local path, no two keys hold the same object, and the "current"
    marker names a resident model. *)
Theorem registry_always_consistent (files : FS) (calls : list Call) :
  registry_consistent (after_all calls (TTSService_init files)).
Proof.
  unfold after_all.
  assert (∀ w, registry_consistent w →
               registry_consistent (fold_left (fun w c => after c w) calls w))
    as H.
  { induction calls as [|c calls IH]; intros w Hw; simpl; [done|].
    apply IH. by apply after_consistent. }
  apply H, registry_consistent_init.
Qed.

End Registry_facts.

(** * Further properties of the synthesis *)

#[local] Arguments fs_write : simpl never.
#[local] Arguments fs_remove : simpl never.
#[local] Arguments path_div : simpl never.
#[local] Arguments next_filename : simpl never.
#[local] Arguments chunk_audios : simpl never.

Lemma append_id_inv d x : d +:+ x = d → x = "".
Proof. induction d as [|c d IH]; simpl; [done|]. intros [= H]. by apply IH. Qed.

Lemma path_div_ne dir name : path_div dir name ≠ dir.
Proof. unfold path_div. intros H. by apply append_id_inv in H. Qed.

Lemma fs_write_lookup dir name data (files : FS) :
  fs_write dir name data files !! path_div dir name = Some (File data).
Proof.
  unfold fs_write.
  destruct (<[path_div dir name:=File data]> files !! dir) as [[?|entries]|];
    try apply lookup_insert_eq.
  destruct (existsb _ _); [apply lookup_insert_eq|].
  rewrite lookup_insert_ne by (intros H; symmetry in H; by apply path_div_ne in H).
  apply lookup_insert_eq.
Qed.

Lemma stitch_silence_between (audio_arrays : list Audio) :
  audio_arrays ≠ [] →
  stitch audio_arrays = Some (silence_between silence audio_arrays).
Proof.
  intros Hne. unfold stitch.
  destruct audio_arrays as [|a [|b rest]]; [done|done|].
  assert ((Z.of_nat (length (a :: b :: rest)) =? 1) = false) as ->
    by (apply Z.eqb_neq; simpl length; lia).
  unfold np_concatenate.
  pose proof (stitch_loop_concat (Z.of_nat (length (a :: b :: rest)))
                (a :: b :: rest) 0 [] eq_refl) as E.
  destruct (stitch_loop _ 0 (a :: b :: rest) []) as [|p ps] eqn:El.
  - exfalso. apply (f_equal length) in E.
    change (silence_between silence (a :: b :: rest))
      with (a ++ silence ++ silence_between silence (b :: rest)) in E.
    rewrite !length_app, silence_length, silence_len_value in E.
    cbn [concat length] in E. lia.
  - by rewrite E.
Qed.

Lemma split_into_sentences_nonnil text : split_into_sentences text ≠ [].
Proof.
  destruct (split_into_sentences_cases text) as [(_ & _ & ->)|[_ E]]; [done|].
  intros E'. by rewrite E' in E.
Qed.

Section Generate_facts.
Context `{env : Env}.

Lemma generate_chunks_audios model speaker_id chunks : ∀ acc w,
  generate_chunks model speaker_id chunks acc w
  = (match chunk_audios model speaker_id chunks with
     | inl msg => inl (Exception msg)
     | inr audios => inr (acc ++ audios)
     end, w).
Proof.
  induction chunks as [|c rest IH]; intros acc w.
  - unfold chunk_audios. simpl. by rewrite app_nil_r.
  - unfold chunk_audios. fold chunk_audios. simpl.
    destruct (model_call model c speaker_id) as [msg|a]; [done|].
    rewrite IH. destruct (chunk_audios model speaker_id rest); [done|].
    by rewrite <- app_assoc.
Qed.

Lemma chunk_audios_all model speaker_id chunks audios :
  Forall2 (fun c a => model_call model c speaker_id = inr a) chunks audios →
  chunk_audios model speaker_id chunks = inr audios.
Proof.
  induction 1 as [|c a chunks audios Hc _ IH]; [done|].
  unfold chunk_audios. fold chunk_audios. by rewrite Hc, IH.
Qed.

Lemma chunk_audios_inv model speaker_id chunks : ∀ audios,
  chunk_audios model speaker_id chunks = inr audios →
  Forall2 (fun c a => model_call model c speaker_id = inr a) chunks audios.
Proof.
  induction chunks as [|c rest IH]; intros audios.
  - intros [= <-]. constructor.
  - unfold chunk_audios. fold chunk_audios.
    destruct (model_call model c speaker_id) as [msg|a] eqn:Hc; [done|].
    destruct (chunk_audios model speaker_id rest) as [msg|l]; [done|].
    intros [= <-]. constructor; [done|]. by apply IH.
Qed.

Lemma chunk_audios_first_failure model speaker_id pre c post msg :
  Forall (fun x => ∃ a, model_call model x speaker_id = inr a) pre →
  model_call model c speaker_id = inl msg →
  chunk_audios model speaker_id (pre ++ c :: post) = inl msg.
Proof.
  intros Hpre Hc. induction Hpre as [|x pre [a Ha] _ IH].
  - simpl. unfold chunk_audios. by rewrite Hc.
  - simpl. unfold chunk_audios. fold chunk_audios. by rewrite Ha, IH.
Qed.

(** The world after [uuid.uuid4()] was called once. *)
Lemma uuid4_run w : ∃ w', uuid4 w = (inr (uuid4_hex (uuid_calls w)), w')
  ∧ fs w' = fs w ∧ registry w' = registry w
  ∧ uuid_calls w' = S (uuid_calls w).
Proof. unfold uuid4. by eexists. Qed.

(** Every way the [try] block of [generate] can end. *)
Lemma generate_try_outcomes model text key speaker w r w1 :
  generate_try model text key speaker w = (r, w1) →
  let speaker_id := py_or speaker (DEFAULT_SPEAKERS !! key) in
  let chunks := split_into_sentences text in
  (∃ msg, chunk_audios model speaker_id chunks = inl msg
          ∧ r = inl (Exception msg) ∧ w1 = w)
  ∨ (∃ audios,
       Forall2 (fun c a => model_call model c speaker_id = inr a) chunks audios
       ∧ registry w1 = registry w
       ∧ uuid_calls w1 = S (uuid_calls w)
       ∧ ((∃ fault, save_audio model (silence_between silence audios)
                      (path_div OUTPUT_DIR (next_filename w)) = inl fault
                    ∧ r = inl (Exception (save_msg fault))
                    ∧ fs w1 = match save_left fault with
                              | Some written =>
                                  fs_write OUTPUT_DIR (next_filename w) written
                                    (fs w)
                              | None => fs w
                              end)
          ∨ (∃ data, save_audio model (silence_between silence audios)
                       (path_div OUTPUT_DIR (next_filename w)) = inr data
                     ∧ r = inr (data, next_filename w)
                     ∧ fs w1 = fs_write OUTPUT_DIR (next_filename w) data (fs w)))).
Proof.
  unfold generate_try. run_eff. rewrite generate_chunks_audios.
  destruct (chunk_audios _ _ _) as [msg|audios] eqn:Ea.
  { intros [= <- <-]. left. by exists msg. }
  simpl. apply chunk_audios_inv in Ea.
  assert (audios ≠ []) as Hne.
  { intros ->. inversion Ea as [E|]. symmetry in E.
    by apply split_into_sentences_nonnil in E. }
  rewrite (stitch_silence_between audios Hne). simpl.
  fold (next_filename w).
  destruct (save_audio _ _ _) as [fault|data] eqn:Es; simpl.
  { destruct (save_left fault) as [written|] eqn:El; simpl;
      intros [= <- <-]; right; exists audios; (repeat split; try done);
      left; exists fault; by rewrite El. }
  unfold read_file. run_eff. rewrite fs_write_lookup. simpl.
  intros [= <- <-]. right. exists audios. repeat split; try done.
  right. by exists data.
Qed.

Lemma strip_truthy text : truthy (strip text) = true → truthy text = true.
Proof. by destruct text. Qed.

(** Every way [generate] can end. *)
Lemma generate_outcomes text key speaker temperature top_p w r w1 :
  generate text key speaker temperature top_p w = (r, w1) →
  (truthy (strip text) = false
   ∧ r = inl (ValueError "Text cannot be empty") ∧ w1 = w)
  ∨ (truthy (strip text) = true ∧ py_in key (_models w) = false
     ∧ ∃ e, load_model key w = (inl e, w1) ∧ r = inl e)
  ∨ (truthy (strip text) = true
     ∧ ∃ wl h rt,
         ((py_in key (_models w) = true ∧ wl = w)
          ∨ (py_in key (_models w) = false
             ∧ load_model key w = (inr true, wl)))
         ∧ _models wl !! key = Some h
         ∧ generate_try h text key speaker wl = (rt, w1)
         ∧ r = match rt with
               | inl e =>
                   inl (RuntimeError
                          ("Failed to generate audio: " +:+ exc_str e))
               | inr a => inr a
               end).
Proof.
  unfold generate. destruct (truthy (strip text)) eqn:Ht.
  2:{ rewrite orb_true_r. intros [= <- <-]. by left. }
  rewrite (strip_truthy text Ht). simpl. intros H. right.
  apply bind_inv in H as [(e & H & _)|(ld & s0 & [= <- <-] & H)];
    [discriminate H|].
  apply bind_inv in H as [(e & H & ->)|([] & wl & Hload & H)].
  { left. destruct (py_in key (_models w)); simpl in H; [discriminate H|].
    apply bind_inv in H as [(e' & H & [= ->])|(b & s2 & _ & H)];
      [|discriminate H].
    repeat split; try done. by exists e'. }
  right. split; [done|].
  assert ((py_in key (_models w) = true ∧ wl = w)
          ∨ (py_in key (_models w) = false
             ∧ load_model key w = (inr true, wl))) as Hwl.
  { destruct (py_in key (_models w)); simpl in Hload.
    - left. by injection Hload as <-.
    - right. split; [done|].
      apply bind_inv in Hload as [(e & _ & H')|(b & s2 & Hl & [= ->])];
        [discriminate H'|].
      destruct (load_model_success key w b wl Hl) as (-> & _). done. }
  assert (∃ h, _models wl !! key = Some h) as [h Hh].
  { destruct Hwl as [[Hl ->]|[_ Hl]].
    - by apply py_in_Some in Hl.
    - apply load_model_success in Hl
        as (_ & _ & _ & _ & [(Hl' & -> & _)|(_ & (m & _ & ->) & _)]).
      + by apply py_in_Some in Hl'.
      + rewrite lookup_insert_eq. by eexists. }
  apply bind_inv in H as [(e & H & _)|(models & s2 & [= <- <-] & H)];
    [discriminate H|].
  unfold py_getitem in H. rewrite Hh in H.
  apply bind_inv in H as [(e & H & _)|(h' & s3 & [= <- <-] & H)];
    [discriminate H|].
  apply try_except_inv in H as [(e & s4 & Ht' & [= <- <-])|(a & Ht' & ->)].
  - by exists wl, h, (inl e).
  - by exists wl, h, (inr a).
Qed.

(** What [generate] raises, and the files then. *)
Lemma generate_inl text key speaker temperature top_p w w1 e :
  generate text key speaker temperature top_p w = (inl e, w1) →
  ((∃ msg, e = ValueError msg) ∨ (∃ msg, e = RuntimeError msg))
  ∧ (fs w1 = fs w
     ∨ ∃ h audios fault written,
         _models w1 !! key = Some h
         ∧ Forall2
             (fun c a =>
                model_call h c (py_or speaker (DEFAULT_SPEAKERS !! key))
                = inr a)
             (split_into_sentences text) audios
         ∧ save_audio h (silence_between silence audios)
             (path_div OUTPUT_DIR (next_filename w)) = inl fault
         ∧ save_left fault = Some written
         ∧ e = RuntimeError ("Failed to generate audio: " +:+ save_msg fault)
         ∧ fs w1 = fs_write OUTPUT_DIR (next_filename w) written (fs w)).
Proof.
  intros H. apply generate_outcomes in H
    as [(_ & [= ->] & ->)|[(_ & _ & e' & Hl & [= <-])
       |(_ & wl & h & rt & Hwl & Hh & Ht & Hr)]].
  - split; [left; by eexists|by left].
  - apply load_model_outcomes in Hl
      as [(_ & [= ->] & ->)|[(_ & _ & [= ->] & ->)|[(_ & _ & H & _)
         |(m & _ & _ & _ & Hfs & _ & _ & [(msg & _ & [= ->] & _)
                                           |(_ & H & _)])]]];
      try discriminate H; (split; [|by left]); [left|right|right]; by eexists.
  - assert (fs wl = fs w ∧ next_filename wl = next_filename w) as (Hfs & Hn).
    { destruct Hwl as [[_ ->]|[_ Hl]]; [done|].
      apply load_model_outcomes in Hl
        as [(_ & H & _)|[(_ & _ & H & _)|[(_ & _ & _ & ->)
           |(m & _ & _ & _ & Hfs & Hu & _ & _)]]];
        try discriminate H; [done|].
      unfold next_filename. by rewrite Hu. }
    destruct rt as [e'|a]; [|discriminate Hr]. injection Hr as ->.
    split; [right; by eexists|].
    apply generate_try_outcomes in Ht
      as [(msg & _ & _ & ->)|(audios & Ha & Hreg & _ &
            [(fault & Hs & [= ->] & Hw)|(data & _ & H & _)])];
      [by left| |discriminate H].
    rewrite Hn in Hs, Hw. rewrite Hfs in Hw.
    destruct (save_left fault) as [written|] eqn:El; [|by left].
    right. exists h, audios, fault, written.
    injection Hreg as -> _ _. done.
Qed.

(** X9. [generate] raises nothing but [ValueError] and [RuntimeError].
    When it raises, the files are the ones from before the call, with one
    exception: [generate] does not clean up after [save_audio], so when
    every chunk was synthesized and the save itself fails after it has
    created the output file, what it had written stays in the output
    directory under the new name, and the error is the [RuntimeError]
    "Failed to generate audio: <message of the save>". *)
Theorem generate_raises (text : str) (key : string) (speaker : option string)
    (temperature top_p : Q) (w w1 : World) (e : PyExc) :
  generate text key speaker temperature top_p w = (inl e, w1) →
  ((∃ msg, e = ValueError msg) ∨ (∃ msg, e = RuntimeError msg))
  ∧ (fs w1 = fs w
     ∨ ∃ h audios fault written,
         _models w1 !! key = Some h
         ∧ Forall2
             (fun c a =>
                model_call h c (py_or speaker (DEFAULT_SPEAKERS !! key))
                = inr a)
             (split_into_sentences text) audios
         ∧ save_audio h (silence_between silence audios)
             (path_div OUTPUT_DIR (next_filename w)) = inl fault
         ∧ save_left fault = Some written
         ∧ e = RuntimeError ("Failed to generate audio: " +:+ save_msg fault)
         ∧ fs w1 = fs_write OUTPUT_DIR (next_filename w) written (fs w)).
Proof. apply generate_inl. Qed.

(** What [generate] returns, and the world then. *)
Lemma generate_inr text key speaker temperature top_p w w1 audio_bytes
    filename :
  generate text key speaker temperature top_p w
  = (inr (audio_bytes, filename), w1) →
  filename = next_filename w
  ∧ fs w1 = fs_write OUTPUT_DIR filename audio_bytes (fs w)
  ∧ fs w1 !! path_div OUTPUT_DIR filename = Some (File audio_bytes)
  ∧ uuid_calls w1 = S (uuid_calls w)
  ∧ ∃ h audios,
      _models w1 !! key = Some h
      ∧ Forall2
          (fun c a =>
             model_call h c (py_or speaker (DEFAULT_SPEAKERS !! key)) = inr a)
          (split_into_sentences text) audios
      ∧ save_audio h (silence_between silence audios)
          (path_div OUTPUT_DIR filename) = inr audio_bytes.
Proof.
  intros H. apply generate_outcomes in H
    as [(_ & H & _)|[(_ & _ & e' & _ & H)
       |(_ & wl & h & rt & Hwl & Hh & Ht & Hr)]]; try discriminate H.
  destruct rt as [e'|a]; [discriminate Hr|]. injection Hr as <-.
  assert (fs wl = fs w ∧ next_filename wl = next_filename w
          ∧ uuid_calls wl = uuid_calls w) as (Hfs & Hn & Hu).
  { destruct Hwl as [[_ ->]|[_ Hl]]; [done|].
    apply load_model_outcomes in Hl
      as [(_ & H & _)|[(_ & _ & H & _)|[(_ & _ & _ & ->)
         |(m & _ & _ & _ & Hfs & Hu & _ & _)]]];
      try discriminate H; [done|].
    unfold next_filename. by rewrite Hu. }
  apply generate_try_outcomes in Ht
    as [(msg & _ & H & _)|(audios & Ha & Hreg & Huu &
          [(msg & _ & H & _)|(data & Hs & Hr & Hw)])];
    try discriminate H.
  injection Hr as -> Hf. rewrite Hn in Hf, Hs, Hw. subst filename.
  rewrite Hfs in Hw.
  split; [done|]. split; [done|].
  split; [rewrite Hw; apply fs_write_lookup|].
  split; [by rewrite Huu, Hu|].
  exists h, audios. split; [|done].
  injection Hreg as -> _ _. done.
Qed.

(** X10. When [generate] returns, it returns the name
    [output_<8 characters of a UUID>.wav] and the bytes of the file it has
    written under that name in the output directory, and that file is the
    only change of the files.  The bytes are what the runtime saved for the
    audio of all chunks, synthesized in order by the handle that is resident
    under the key and stitched with silences between them. *)
Theorem generate_returns (text : str) (key : string) (speaker : option string)
    (temperature top_p : Q) (w w1 : World) (audio_bytes : list N)
    (filename : string) :
  generate text key speaker temperature top_p w
  = (inr (audio_bytes, filename), w1) →
  filename = next_filename w
  ∧ fs w1 = fs_write OUTPUT_DIR filename audio_bytes (fs w)
  ∧ fs w1 !! path_div OUTPUT_DIR filename = Some (File audio_bytes)
  ∧ uuid_calls w1 = S (uuid_calls w)
  ∧ ∃ h audios,
      _models w1 !! key = Some h
      ∧ Forall2
          (fun c a =>
             model_call h c (py_or speaker (DEFAULT_SPEAKERS !! key)) = inr a)
          (split_into_sentences text) audios
      ∧ save_audio h (silence_between silence audios)
          (path_div OUTPUT_DIR filename) = inr audio_bytes.
Proof. apply generate_inr. Qed.

(** X11. Synthesis is all or nothing.  With a resident model and a text
    that is not blank, when the model raises on some chunk (the chunks
    before it having succeeded), [generate] raises the [RuntimeError]
    "Failed to generate audio: <message of that call>" and the world is as
    before the call: the audio of the earlier chunks is dropped, no file is
    written and no name is used up. *)
Theorem generate_chunk_failure (text : str) (key : string)
    (speaker : option string) (temperature top_p : Q) (w : World)
    (h : Handle) (pre post : list str) (c : str) (msg : string) :
  let speaker_id := py_or speaker (DEFAULT_SPEAKERS !! key) in
  truthy (strip text) = true →
  _models w !! key = Some h →
  split_into_sentences text = pre ++ c :: post →
  Forall (fun x => ∃ a, model_call h x speaker_id = inr a) pre →
  model_call h c speaker_id = inl msg →
  generate text key speaker temperature top_p w
  = (inl (RuntimeError ("Failed to generate audio: " +:+ msg)), w).
Proof.
  intros spk Ht Hh Hsplit Hpre Hc.
  pose proof (chunk_audios_first_failure h spk pre c post msg Hpre Hc) as Hf.
  rewrite <- Hsplit in Hf.
  destruct (generate text key speaker temperature top_p w) as [r w1] eqn:E.
  apply generate_outcomes in E
    as [(Ht' & _)|[(_ & Hl & _)|(_ & wl & h' & rt & Hwl & Hh' & Htry & ->)]].
  - congruence.
  - apply py_in_None in Hl. congruence.
  - destruct Hwl as [[_ ->]|[Hl _]]; [|apply py_in_None in Hl; congruence].
    rewrite Hh in Hh'. injection Hh' as <-.
    apply generate_try_outcomes in Htry
      as [(msg' & Hm & -> & ->)|(audios & Ha & _)].
    + fold spk in Hm. rewrite Hf in Hm. by injection Hm as <-.
    + apply chunk_audios_all in Ha. fold spk in Ha. congruence.
Qed.

(** X12. With a resident model and a text that is not blank, when the model
    answers every chunk and the runtime saves the stitched audio,
    [generate] returns the saved bytes and the new file name, the file is
    in the output directory, and the registry is as before. *)
Theorem generate_success (text : str) (key : string)
    (speaker : option string) (temperature top_p : Q) (w : World)
    (h : Handle) (audios : list Audio) (data : list N) :
  let speaker_id := py_or speaker (DEFAULT_SPEAKERS !! key) in
  truthy (strip text) = true →
  _models w !! key = Some h →
  Forall2 (fun c a => model_call h c speaker_id = inr a)
    (split_into_sentences text) audios →
  save_audio h (silence_between silence audios)
    (path_div OUTPUT_DIR (next_filename w)) = inr data →
  ∃ w1,
    generate text key speaker temperature top_p w
    = (inr (data, next_filename w), w1)
    ∧ fs w1 !! path_div OUTPUT_DIR (next_filename w) = Some (File data)
    ∧ registry w1 = registry w.
Proof.
  intros spk Ht Hh Ha Hs.
  pose proof (chunk_audios_all h spk _ _ Ha) as Hall.
  destruct (generate text key speaker temperature top_p w) as [r w1] eqn:E.
  exists w1.
  apply generate_outcomes in E
    as [(Ht' & _)|[(_ & Hl & _)|(_ & wl & h' & rt & Hwl & Hh' & Htry & ->)]].
  - congruence.
  - apply py_in_None in Hl. congruence.
  - destruct Hwl as [[_ ->]|[Hl _]]; [|apply py_in_None in Hl; congruence].
    rewrite Hh in Hh'. injection Hh' as <-.
    apply generate_try_outcomes in Htry
      as [(msg' & Hm & _)|(audios' & Ha' & Hreg & _ &
            [(msg & Hs' & _)|(data' & Hs' & -> & Hw)])].
    + fold spk in Hm. congruence.
    + apply chunk_audios_all in Ha'. fold spk in Ha'.
      rewrite Hall in Ha'. injection Ha' as <-. congruence.
    + apply chunk_audios_all in Ha'. fold spk in Ha'.
      rewrite Hall in Ha'. injection Ha' as <-.
      rewrite Hs in Hs'. injection Hs' as <-.
      split; [done|]. split; [|done]. rewrite Hw. apply fs_write_lookup.
Qed.

End Generate_facts.

(** * Further properties of the downloader *)

From Stdlib Require Import Lqa.

(** *** The patterns of [is_model_downloaded] *)

Lemma list_ascii_app a b :
  String.list_ascii_of_string (a +:+ b)
  = String.list_ascii_of_string a ++ String.list_ascii_of_string b.
Proof. induction a as [|c a IH]; simpl; [done|]. by rewrite IH. Qed.

Lemma list_ascii_inj a b :
  String.list_ascii_of_string a = String.list_ascii_of_string b → a = b.
Proof.
  intros H. apply (f_equal String.string_of_list_ascii) in H.
  by rewrite !String.string_of_list_ascii_of_string in H.
Qed.

Lemma ascii_eqb_refl c : Ascii.eqb c c = true.
Proof. by apply Ascii.eqb_eq. Qed.

(** A pattern without [*] matches itself only. *)
Lemma fnmatch_go_literal lit :
  Forall (fun p => Ascii.eqb p "*" = false) lit →
  ∀ s, fnmatch_go lit s = true ↔ s = lit.
Proof.
  induction 1 as [|p lit Hp _ IH]; intros s; simpl.
  - by destruct s.
  - rewrite Hp. destruct s as [|c s]; [done|].
    rewrite andb_true_iff, IH, Ascii.eqb_eq. split.
    + by intros [-> ->].
    + by intros [= -> ->].
Qed.

(** [*] followed by a pattern without [*] matches the names that end with
    that pattern. *)
Lemma fnmatch_go_star lit :
  Forall (fun p => Ascii.eqb p "*" = false) lit →
  ∀ s, fnmatch_go ("*"%char :: lit) s = true ↔ ∃ stem, s = stem ++ lit.
Proof.
  intros Hlit s. induction s as [|c s IH].
  - simpl. rewrite orb_false_r, (fnmatch_go_literal lit Hlit). split.
    + intros ->. by exists [].
    + intros [stem E]. symmetry in E. by apply app_eq_nil in E as [_ ->].
  - change (fnmatch_go ("*"%char :: lit) (c :: s))
      with (fnmatch_go lit (c :: s) || fnmatch_go ("*"%char :: lit) s).
    rewrite orb_true_iff, IH, (fnmatch_go_literal lit Hlit). split.
    + intros [->|[stem ->]]; [by exists []|by exists (c :: stem)].
    + intros [[|d stem] E]; [by left|].
      injection E as -> ->. right. by exists stem.
Qed.

Lemma fnmatch_suffix suffix entry :
  Forall (fun p => Ascii.eqb p "*" = false)
    (String.list_ascii_of_string suffix) →
  fnmatch ("*" +:+ suffix) entry = true ↔ has_suffix suffix entry.
Proof.
  intros Hs. unfold fnmatch, has_suffix.
  change (String.list_ascii_of_string ("*" +:+ suffix))
    with ("*"%char :: String.list_ascii_of_string suffix).
  rewrite (fnmatch_go_star _ Hs). split.
  - intros [stem E]. exists (String.string_of_list_ascii stem).
    apply list_ascii_inj.
    by rewrite list_ascii_app, String.list_ascii_of_string_of_list_ascii.
  - intros [stem ->]. exists (String.list_ascii_of_string stem).
    apply list_ascii_app.
Qed.

Lemma fnmatch_exact lit entry :
  Forall (fun p => Ascii.eqb p "*" = false) (String.list_ascii_of_string lit) →
  fnmatch lit entry = true ↔ entry = lit.
Proof.
  intros Hs. unfold fnmatch. rewrite (fnmatch_go_literal _ Hs). split.
  - apply list_ascii_inj.
  - by intros ->.
Qed.

Lemma essential_name_fnmatch entry :
  essential_name entry
  ↔ existsb (fun pattern => fnmatch pattern entry) essential_patterns = true.
Proof.
  unfold essential_name, essential_patterns. simpl.
  rewrite orb_false_r, !orb_true_iff.
  rewrite <- (fnmatch_suffix ".safetensors"), <- (fnmatch_suffix ".bin"),
    <- (fnmatch_exact "config.json") by (by repeat constructor).
  done.
Qed.

Section Download_facts.
Context `{env : Env}.

Lemma path_glob_nonempty (files : FS) p pattern :
  match path_glob files p pattern with [] => false | _ => true end = true
  ↔ ∃ entries, files !! p = Some (Dir entries)
               ∧ Exists (fun n => fnmatch pattern n = true) entries.
Proof.
  unfold path_glob. destruct (files !! p) as [[?|entries]|].
  - split; [done|]. by intros (? & ? & _).
  - assert (match map (path_div p) (List.filter (fnmatch pattern) entries)
            with [] => false | _ => true end = true
            ↔ Exists (fun n => fnmatch pattern n = true) entries) as ->.
    { induction entries as [|n l IH]; simpl.
      - split; [done|]. by intros H%Exists_nil.
      - destruct (fnmatch pattern n) eqn:Hn; simpl.
        + split; [|done]. intros _. by apply Exists_cons_hd.
        + rewrite IH, Exists_cons. split; [by right|].
          intros [H|H]; [congruence|done]. }
    split; [by eauto|]. by intros (? & [= <-] & H).
  - split; [done|]. by intros (? & ? & _).
Qed.

(** X13. A model counts as downloaded exactly when its key is in the
    table, its local path is a directory, and some entry of that directory
    is named [config.json] or ends with [.safetensors] or [.bin].  Nothing
    else is looked at: neither the other files nor the content of any. *)
Theorem is_model_downloaded_iff (files : FS) (key : string) :
  is_model_downloaded files key = true
  ↔ ∃ m entries,
      MODELS !! key = Some m
      ∧ files !! local_path m = Some (Dir entries)
      ∧ Exists essential_name entries.
Proof.
  unfold is_model_downloaded. destruct (MODELS !! key) as [m|];
    [|split; [done|by intros (? & ? & ? & _)]].
  assert (existsb
            (fun pattern =>
               match path_glob files (local_path m) pattern with
               | [] => false | _ => true end) essential_patterns = true
          ↔ ∃ entries, files !! local_path m = Some (Dir entries)
                       ∧ Exists essential_name entries) as Hex.
  { rewrite existsb_exists. split.
    - intros (pattern & Hin & Hg). apply path_glob_nonempty in Hg
        as (entries & Hd & Hx).
      exists entries. split; [done|]. apply Exists_exists in Hx as (n & Hn & Hm).
      apply Exists_exists. exists n. split; [done|].
      apply essential_name_fnmatch, existsb_exists. by exists pattern.
    - intros (entries & Hd & Hx). apply Exists_exists in Hx as (n & Hn & Hm).
      apply essential_name_fnmatch, existsb_exists in Hm as (pattern & Hin & Hp).
      exists pattern. split; [done|]. apply path_glob_nonempty.
      exists entries. split; [done|]. apply Exists_exists. by exists n. }
  unfold path_exists. destruct (files !! local_path m) as [node|] eqn:Hn; simpl.
  - rewrite Hex. split.
    + intros (entries & Hd & Hx). exists m, entries. by rewrite Hn.
    + intros (m' & entries & [= <-] & Hd & Hx). exists entries.
      by rewrite Hn in Hd.
  - split; [done|]. intros (m' & entries & [= <-] & Hd & _). congruence.
Qed.

(** *** The percentage *)

Lemma progress_percent_defined p : ∃ q, progress_percent p = Some q.
Proof.
  unfold progress_percent, py_truediv.
  destruct (total_size p =? 0); eauto.
Qed.

Lemma min_100_mono x y : (x <= y)%Q → (min_100 x <= min_100 y)%Q.
Proof.
  intros H. unfold min_100.
  destruct (Qlt_le_dec x 100), (Qlt_le_dec y 100); lra.
Qed.

(** X14. For a fixed total and sizes that are not negative and whose
    quotient is within the doubles (so that the division of the code does
    not raise [OverflowError]), the percentage does not go down when the
    downloaded size goes up; and from the moment the downloaded size
    reaches a positive total it is exactly 100. *)
Theorem progress_percent_monotone (p1 p2 : DownloadProgress) :
  total_size p1 = total_size p2 →
  0 ≤ total_size p1 →
  0 ≤ downloaded_size p1 →
  downloaded_size p1 ≤ downloaded_size p2 →
  quotient_in_range p2 →
  ∃ q1 q2,
    quotient_in_range p1
    ∧ progress_percent p1 = Some q1 ∧ progress_percent p2 = Some q2
    ∧ (q1 <= q2)%Q
    ∧ (0 < total_size p1 → total_size p1 ≤ downloaded_size p1 → q1 = 100%Q).
Proof.
  intros Ht H0 Hn Hd Hr.
  assert (quotient_in_range p1) as Hr1.
  { destruct Hr as [Hr|Hr]; [left; congruence|right]. rewrite Ht. lia. }
  unfold progress_percent, py_truediv. rewrite <- Ht.
  destruct (total_size p1 =? 0) eqn:E.
  { apply Z.eqb_eq in E. exists 0%Q, 0%Q. repeat split; try done. lia. }
  apply Z.eqb_neq in E. eexists. eexists. split; [done|].
  split; [done|]. split; [done|].
  assert (0 < inject_Z (total_size p1))%Q as Hpos.
  { change 0%Q with (inject_Z 0). rewrite <- Zlt_Qlt. lia. }
  assert (0 <= / inject_Z (total_size p1))%Q as Hinv
    by (apply Qinv_le_0_compat; lra).
  split.
  - apply min_100_mono. apply Qmult_le_compat_r; [|done].
    apply Qmult_le_compat_r; [|done]. by rewrite <- Zle_Qle.
  - intros _ Hfull. unfold min_100.
    destruct (Qlt_le_dec _ 100) as [Hlt|]; [|done]. exfalso.
    assert (inject_Z (total_size p1) <= inject_Z (downloaded_size p1))%Q as Hq
      by by rewrite <- Zle_Qle.
    assert (1 <= inject_Z (downloaded_size p1) / inject_Z (total_size p1))%Q.
    { apply Qle_shift_div_l; [done|]. lra. }
    lra.
Qed.


Lemma py_round1_int x n : (x == inject_Z n)%Q → (py_round1 x == inject_Z n)%Q.
Proof.
  intros Hx. unfold py_round1.
  assert (x * 10 == inject_Z (n * 10))%Q as Hy.
  { rewrite Hx, inject_Z_mult. reflexivity. }
  assert (Qfloor (x * 10) = n * 10) as ->.
  { rewrite (Qfloor_comp _ _ Hy). apply Qfloor_Z. }
  assert (∀ k, (k / 10 == k * (1 # 10))%Q) as Hdiv by (intros; field).
  assert (inject_Z (n * 10) * (1 # 10) == inject_Z n)%Q as Hn.
  { rewrite inject_Z_mult. change (inject_Z 10) with 10%Q. field. }
  destruct (Qcompare_spec (x * 10 - inject_Z (n * 10)) (1 # 2))
    as [Heq|Hlt|Hgt].
  - exfalso. lra.
  - by rewrite Hdiv.
  - exfalso. lra.
Qed.

(** X15. For a model of the table and sizes that are not negative and
    whose quotient is within the doubles, [to_dict] succeeds and copies the
    name of the model, the status, the sizes and the error message.  The
    percentage in it is exactly 0 while the total is 0 or nothing has been
    downloaded, and exactly 100 once the downloaded size has reached a
    positive total; rounding to one decimal changes neither. *)
Theorem to_dict_percent (p : DownloadProgress) (m : ModelConfig) :
  MODELS !! model_key p = Some m →
  0 ≤ total_size p → 0 ≤ downloaded_size p →
  quotient_in_range p →
  ∃ d,
    to_dict p = inr d
    ∧ d_model_name d = name m ∧ d_status d = status p
    ∧ d_total_size d = total_size p
    ∧ d_downloaded_size d = downloaded_size p
    ∧ d_error_message d = error_message p
    ∧ (total_size p = 0 ∨ downloaded_size p = 0 →
       (d_progress_percent d == 0)%Q)
    ∧ (0 < total_size p ≤ downloaded_size p →
       (d_progress_percent d == 100)%Q).
Proof.
  intros Hm Ht Hd _. unfold to_dict. rewrite Hm.
  destruct (progress_percent p) as [q|] eqn:Hq;
    [|destruct (progress_percent_defined p) as [? ?]; congruence].
  eexists. split; [reflexivity|]. simpl. do 5 (split; [done|]).
  revert Hq. unfold progress_percent, py_truediv.
  destruct (total_size p =? 0) eqn:E.
  { apply Z.eqb_eq in E. intros [= <-]. split; [by intros _|lia]. }
  apply Z.eqb_neq in E. intros [= <-].
  assert (0 < inject_Z (total_size p))%Q as Hpos.
  { change 0%Q with (inject_Z 0). rewrite <- Zlt_Qlt. lia. }
  split.
  - intros [H0|H0]; [done|]. apply (py_round1_int _ 0). rewrite H0.
    unfold min_100. destruct (Qlt_le_dec _ 100) as [_|Hge].
    + change (inject_Z 0) with 0%Q. field. lra.
    + exfalso. revert Hge. change (inject_Z 0) with 0%Q.
      assert (0 / inject_Z (total_size p) * 100 == 0)%Q as -> by (field; lra).
      lra.
  - intros [_ Hfull]. unfold min_100.
    destruct (Qlt_le_dec _ 100) as [Hlt|]; [exfalso|by vm_compute].
    assert (inject_Z (total_size p) <= inject_Z (downloaded_size p))%Q as Hq
      by by rewrite <- Zle_Qle.
    assert (1 <= inject_Z (downloaded_size p) / inject_Z (total_size p))%Q.
    { apply Qle_shift_div_l; [done|]. lra. }
    lra.
Qed.




(** *** The run of the generator *)

#[local] Arguments to_dict : simpl never.
#[local] Arguments poll_loop : simpl never.
#[local] Arguments polled : simpl never.

Lemma yields_app t1 t2 : yields (t1 ++ t2) = yields t1 ++ yields t2.
Proof. apply omap_app. Qed.

Lemma yields_cons a t :
  yields (a :: t) = match a with Yield d => d :: yields t | _ => yields t end.
Proof. by destruct a. Qed.

Lemma to_dict_fields p m :
  MODELS !! model_key p = Some m →
  ∃ d, to_dict p = inr d ∧ d_status d = status p
       ∧ d_total_size d = total_size p
       ∧ d_downloaded_size d = downloaded_size p
       ∧ d_error_message d = error_message p
       ∧ d_files_total d = files_total p
       ∧ d_files_downloaded d = files_downloaded p.
Proof.
  intros Hm. unfold to_dict. rewrite Hm.
  destruct (progress_percent_defined p) as [q ->]. by eexists.
Qed.

Lemma snapshot_of_fields p x :
  snapshot_of p x →
  payload_status x = status p
  ∧ payload_sizes x = (total_size p, downloaded_size p)
  ∧ payload_error x = error_message p.
Proof.
  intros (d & Hd & ->). unfold to_dict in Hd.
  destruct (MODELS !! model_key p); [|done].
  destruct (progress_percent p); [|done]. by injection Hd as <-.
Qed.

Lemma yield_progress_run s m :
  MODELS !! model_key (progress s) = Some m →
  ∃ x, snapshot_of (progress s) x
       ∧ yield_progress s
         = (inr (), {| progress := progress s; trace := trace s ++ [Yield x] |}).
Proof.
  intros Hm. destruct (to_dict_fields _ _ Hm) as (d & Hd & _).
  exists (Snapshot d). split; [by exists d|].
  unfold yield_progress, act. run_eff. by rewrite Hd.
Qed.

Lemma polled_key sample p : model_key (polled sample p) = model_key p.
Proof. done. Qed.

Lemma poll_loop_run samples : ∀ s m,
  MODELS !! model_key (progress s) = Some m →
  ∃ t, poll_loop samples s
       = (inr (), {| progress := poll_end (progress s) samples;
                     trace := trace s ++ t |})
       ∧ Forall2 snapshot_of (poll_states (progress s) samples) (yields t)
       ∧ (∀ repo dir, StartTransfer repo dir ∉ t).
Proof.
  induction samples as [|[size count] rest IH]; intros s m Hm.
  - exists []. rewrite app_nil_r. destruct s. repeat split; [constructor|].
    intros repo dir H. by apply elem_of_nil in H.
  - unfold poll_loop. fold poll_loop. unfold act, set_progress. run_eff.
    set (s1 := {| progress := polled (size, count) (progress s);
                  trace := trace s ++ [Sleep 1] |}).
    destruct (yield_progress_run s1 m Hm) as (x & Hx & Hy).
    change (with_files (files_total (progress s)) count
              (with_sizes (total_size (progress s)) size (progress s)))
      with (progress s1).
    change (trace s ++ [Sleep 1]) with (trace s1).
    assert ({| progress := progress s1; trace := trace s1 |} = s1) as ->
      by done.
    rewrite Hy.
    destruct (IH {| progress := progress s1; trace := trace s1 ++ [Yield x] |}
                m Hm) as (t & Ht & Hf & Hn).
    rewrite Ht. exists ([Sleep 1; Yield x] ++ t). simpl.
    split; [by rewrite <- !app_assoc|]. split.
    + constructor; [exact Hx|exact Hf].
    + intros repo dir H. apply elem_of_cons in H as [H|H]; [done|].
      apply elem_of_cons in H as [H|H]; [done|]. by apply (Hn repo dir).
Qed.

Lemma poll_states_fields samples : ∀ p,
  Forall (fun q => status q = status p ∧ total_size q = total_size p
                   ∧ error_message q = error_message p
                   ∧ model_key q = model_key p)
    (poll_states p samples)
  ∧ status (poll_end p samples) = status p
  ∧ total_size (poll_end p samples) = total_size p
  ∧ model_key (poll_end p samples) = model_key p
  ∧ map downloaded_size (poll_states p samples) = map fst samples
  ∧ length (poll_states p samples) = length samples.
Proof.
  induction samples as [|sample rest IH]; intros p; simpl.
  - by repeat split.
  - destruct (IH (polled sample p)) as (H1 & H2 & H3 & H4 & H5 & H6).
    repeat split; try done; try congruence.
    constructor; [done|]. eapply Forall_impl; [exact H1|].
    by intros q (-> & -> & -> & ->).
Qed.

(** The trace of a download of a model of the table that is not on disk, in
    each of the four ways it can go. *)
Lemma download_run (files : FS) (tr : Transfer) (key : string) (m : ModelConfig) :
  MODELS !! key = Some m →
  is_model_downloaded files key = false →
  let p0 := progress_started key in
  ∃ t, download_model_with_progress files tr key = (inr (), t)
    ∧ match repo_info tr with
      | inl e =>
          Forall2 snapshot_of [p0; with_error (fault_message e) p0] (yields t)
          ∧ (∀ repo dir, StartTransfer repo dir ∉ t)
      | inr info =>
          let p1 := progress_sized key info in
          match mkdir_fault tr with
          | Some e =>
              Forall2 snapshot_of [p0; p1; with_error (fault_message e) p1]
                (yields t)
              ∧ (∀ repo dir, StartTransfer repo dir ∉ t)
          | None =>
              let pe := poll_end p1 (polls tr) in
              (∀ repo dir, StartTransfer repo dir ∈ t
                           ↔ repo = repo_id m ∧ dir = local_path m)
              ∧ Forall2 snapshot_of
                  ([p0; p1] ++ poll_states p1 (polls tr)
                   ++ [match transfer_fault tr with
                       | Some e => with_error (fault_message e) pe
                       | None =>
                           with_sizes (total_size pe) (total_size pe)
                             (with_status completed pe)
                       end])
                  (yields t)
          end
      end.
Proof.
  intros Hm Hd p0.
  unfold download_model_with_progress, download_body. rewrite Hm, Hd.
  unfold set_progress, act. run_eff.
  set (s0 := {| progress := with_status downloading (DownloadProgress_init key);
                trace := [] |}).
  destruct (yield_progress_run s0 m Hm) as (x0 & Hx0 & ->). simpl.
  unfold download_try, download_except, set_progress, act, lift_fault. run_eff.
  destruct (repo_info tr) as [e|info] eqn:Hinfo; simpl.
  { match goal with |- context [yield_progress ?s] =>
      destruct (yield_progress_run s m Hm) as (x1 & Hx1 & ->) end.
    simpl. eexists. split; [reflexivity|]. split.
    - simpl. constructor; [done|]. constructor; [|constructor].
      by destruct e.
    - intros repo dir H. repeat (apply elem_of_cons in H as [H|H]; [done|]).
      by apply elem_of_nil in H. }
  match goal with |- context [yield_progress ?s] =>
    destruct (yield_progress_run s m Hm) as (x1 & Hx1 & ->) end.
  simpl in Hx1. simpl.
  destruct (mkdir_fault tr) as [e|] eqn:Hmk; simpl.
  { match goal with |- context [yield_progress ?s] =>
      destruct (yield_progress_run s m Hm) as (x2 & Hx2 & ->) end.
    simpl. eexists. split; [reflexivity|]. split.
    - simpl. constructor; [done|]. constructor; [done|].
      constructor; [|constructor]. by destruct e.
    - intros repo dir H. repeat (apply elem_of_cons in H as [H|H]; [done|]).
      by apply elem_of_nil in H. }
  match goal with |- context [poll_loop ?l ?s] =>
    destruct (poll_loop_run l s m Hm) as (tp & -> & Hp & Hn) end.
  simpl in Hp. simpl.
  destruct (transfer_fault tr) as [e|] eqn:Htf; simpl.
  - match goal with |- context [yield_progress ?s] =>
      destruct (yield_progress_run s m) as (x2 & Hx2 & ->) end.
    { simpl. match goal with |- context [poll_end ?p ?l] =>
        destruct (poll_states_fields l p) as (_ & _ & _ & E & _); rewrite E end.
      exact Hm. }
    simpl. eexists. split; [reflexivity|]. split.
    + intros repo dir. specialize (Hn repo dir).
      rewrite !elem_of_cons, !elem_of_app, !list_elem_of_singleton. split.
      * intros [?|[?|[?|[?|[?|[H|[[?|?]|?]]]]]]]; try done.
        by injection H as -> ->.
      * intros [-> ->]. do 5 right. by left.
    + repeat (rewrite ?yields_app, ?yields_cons; cbv beta iota).
      change (yields []) with (@nil Payload). rewrite app_nil_r.
      constructor; [exact Hx0|]. constructor; [exact Hx1|].
      apply Forall2_app; [exact Hp|]. constructor; [exact Hx2|constructor].
  - match goal with |- context [yield_progress ?s] =>
      destruct (yield_progress_run s m) as (x2 & Hx2 & ->) end.
    { simpl. match goal with |- context [poll_end ?p ?l] =>
        destruct (poll_states_fields l p) as (_ & _ & _ & E & _); rewrite E end.
      exact Hm. }
    simpl. eexists. split; [reflexivity|]. split.
    + intros repo dir. specialize (Hn repo dir).
      rewrite !elem_of_cons, !elem_of_app, !list_elem_of_singleton. split.
      * intros [?|[?|[?|[?|[?|[H|[[?|?]|?]]]]]]]; try done.
        by injection H as -> ->.
      * intros [-> ->]. do 5 right. by left.
    + repeat (rewrite ?yields_app, ?yields_cons; cbv beta iota).
      change (yields []) with (@nil Payload). rewrite app_nil_r.
      constructor; [exact Hx0|]. constructor; [exact Hx1|].
      apply Forall2_app; [exact Hp|]. constructor; [exact Hx2|constructor].
Qed.

Lemma stream_split ps pl xs :
  Forall2 snapshot_of (ps ++ [pl]) xs →
  ∃ pre last, xs = pre ++ [last] ∧ Forall2 snapshot_of ps pre
              ∧ snapshot_of pl last.
Proof.
  intros H. apply Forall2_app_inv_l in H as (pre & l & H1 & H2 & ->).
  inversion H2 as [|? last ? l' Hl Hnil]; subst. inversion Hnil; subst.
  by exists pre, last.
Qed.

Lemma stream_fields ps xs :
  Forall2 snapshot_of ps xs →
  map payload_status xs = map status ps
  ∧ map payload_sizes xs = map (fun p => (total_size p, downloaded_size p)) ps
  ∧ map payload_error xs = map error_message ps.
Proof.
  induction 1 as [|p x ps xs Hx _ (IH1 & IH2 & IH3)]; [done|].
  destruct (snapshot_of_fields p x Hx) as (H1 & H2 & H3). simpl.
  by rewrite H1, H2, H3, IH1, IH2, IH3.
Qed.

Lemma stream_downloading ps xs :
  Forall2 snapshot_of ps xs →
  Forall (fun p => status p = downloading ∧ error_message p = None) ps →
  Forall (fun x => payload_status x = downloading ∧ payload_error x = None) xs.
Proof.
  induction 1 as [|p x ps xs Hx _ IH]; [constructor|].
  intros Hp. apply Forall_cons in Hp as [[Hs He] Hp].
  destruct (snapshot_of_fields p x Hx) as (H1 & _ & H3).
  constructor; [split; congruence|by apply IH].
Qed.

Lemma poll_states_downloading key info samples :
  Forall (fun p => status p = downloading ∧ error_message p = None)
    (poll_states (progress_sized key info) samples).
Proof.
  destruct (poll_states_fields samples (progress_sized key info)) as (H & _).
  eapply Forall_impl; [exact H|]. by intros q (-> & _ & -> & _).
Qed.

Lemma poll_end_error_message samples : ∀ p,
  error_message (poll_end p samples) = error_message p.
Proof.
  induction samples as [|sample rest IH]; intros p; [done|].
  unfold poll_end. simpl. fold (poll_end (polled sample p) rest).
  by rewrite IH.
Qed.

(** X16.  A download of a model of the table that is not on disk never raises
    out of the generator, and its stream ends in exactly one terminal event:
    every event before the last one has status [downloading] and no error
    message; the last one is [completed] with the downloaded size equal to
    the total size when nothing went wrong, and otherwise [error] with the
    message the [except] clause chose for the first fault. *)
Theorem download_stream_terminal (files : FS) (tr : Transfer) (key : string)
    (m : ModelConfig) :
  MODELS !! key = Some m →
  is_model_downloaded files key = false →
  ∃ t pre last,
    download_model_with_progress files tr key = (inr (), t)
    ∧ yields t = pre ++ [last]
    ∧ Forall (fun x => payload_status x = downloading
                       ∧ payload_error x = None) pre
    ∧ match first_fault tr with
      | None =>
          payload_status last = completed ∧ payload_error last = None
          ∧ ∃ n, payload_sizes last = (n, n)
      | Some e =>
          payload_status last = error
          ∧ payload_error last = Some (fault_message e)
      end.
Proof.
  intros Hm Hd. destruct (download_run files tr key m Hm Hd) as (t & Ht & H).
  exists t. unfold first_fault. cbv zeta in H.
  destruct (repo_info tr) as [e|info].
  { destruct H as [H _].
    apply (stream_split [_]) in H as (pre & last & -> & Hpre & Hl).
    exists pre, last. split; [done|]. split; [done|]. split.
    - apply (stream_downloading _ _ Hpre). by repeat constructor.
    - by destruct (snapshot_of_fields _ _ Hl) as (-> & _ & ->). }
  destruct (mkdir_fault tr) as [e|].
  { destruct H as [H _].
    apply (stream_split [_; _]) in H as (pre & last & -> & Hpre & Hl).
    exists pre, last. split; [done|]. split; [done|]. split.
    - apply (stream_downloading _ _ Hpre). by repeat constructor.
    - by destruct (snapshot_of_fields _ _ Hl) as (-> & _ & ->). }
  destruct H as [_ H]. rewrite app_assoc in H.
  apply stream_split in H as (pre & last & -> & Hpre & Hl).
  exists pre, last. split; [done|]. split; [done|]. split.
  { apply (stream_downloading _ _ Hpre). apply Forall_app. split.
    - by repeat constructor.
    - apply poll_states_downloading. }
  destruct (snapshot_of_fields _ _ Hl) as (Hs & Hz & He).
  destruct (transfer_fault tr) as [e|]; [done|].
  split; [done|]. split; [|by eexists].
  rewrite He. simpl. by rewrite poll_end_error_message.
Qed.

(** X17.  When neither the repository query, nor the directory creation, nor
    the transfer fails, the sizes [(total_size, downloaded_size)] of the
    events are: [(0, 0)] at the start, [(total, 0)] once the repository
    answered, [(total, size)] for each round of the polling loop with the
    size found on disk, and [(total, total)] at the end, where [total] is
    the sum of the sizes of the repository's files (a file without a size
    counts 0).  The statuses are [downloading] for all but the last event,
    which is [completed]. *)
Theorem download_stream_success (files : FS) (tr : Transfer) (key : string)
    (m : ModelConfig) :
  MODELS !! key = Some m →
  is_model_downloaded files key = false →
  first_fault tr = None →
  ∃ t info,
    download_model_with_progress files tr key = (inr (), t)
    ∧ repo_info tr = inr info
    ∧ let total := siblings_size (default [] info) in
      map payload_sizes (yields t)
      = [(0, 0); (total, 0)]
        ++ map (fun sample => (total, sample.1)) (polls tr)
        ++ [(total, total)]
      ∧ map payload_status (yields t)
        = replicate (2 + length (polls tr)) downloading ++ [completed].
Proof.
  intros Hm Hd Hf. destruct (download_run files tr key m Hm Hd) as (t & Ht & H).
  unfold first_fault in Hf. cbv zeta in H.
  destruct (repo_info tr) as [e|info]; [done|].
  destruct (mkdir_fault tr) as [e|]; [done|]. rewrite Hf in H.
  destruct H as [_ H]. exists t, info. split; [done|]. split; [done|].
  destruct (stream_fields _ _ H) as (Hs & Hz & _).
  destruct (poll_states_fields (polls tr) (progress_sized key info))
    as (Hall & Hst & Htot & _ & Hdl & Hlen).
  cbv zeta. split.
  - rewrite Hz, !map_app. simpl. rewrite Htot. simpl. do 2 f_equal.
    f_equal. rewrite <- (map_map fst (fun n => (siblings_size (default [] info), n))).
    rewrite <- Hdl, map_map.
    apply map_ext_Forall. eapply Forall_impl; [exact Hall|].
    by intros q (_ & -> & _).
  - rewrite Hs, !map_app. simpl. do 2 f_equal.
    rewrite <- Hlen. clear -Hall. induction Hall as [|q l Hq _ IH]; [done|].
      simpl. destruct Hq as (-> & _). by rewrite IH.
Qed.

(** X18.  The generator starts a transfer exactly when the key is in the
    table, the model is not on disk, the repository answered and the model's
    directory could be made; the transfer is then the one of the model's
    repository into the model's directory.  In particular an unknown key, a
    model already on disk and a failed repository query transfer nothing. *)
Theorem download_transfer_started (files : FS) (tr : Transfer) (key : string)
    (repo dir : string) :
  StartTransfer repo dir ∈ (download_model_with_progress files tr key).2
  ↔ ∃ m info,
      MODELS !! key = Some m ∧ is_model_downloaded files key = false
      ∧ repo_info tr = inr info ∧ mkdir_fault tr = None
      ∧ repo = repo_id m ∧ dir = local_path m.
Proof.
  destruct (MODELS !! key) as [m|] eqn:Hm.
  2:{ unfold download_model_with_progress, download_body. rewrite Hm.
      unfold act. run_eff. split.
      - intros H. apply elem_of_cons in H as [H|H]; [done|].
        by apply elem_of_nil in H.
      - by intros (? & ? & ? & _). }
  destruct (is_model_downloaded files key) eqn:Hd.
  { unfold download_model_with_progress, download_body. rewrite Hm, Hd.
    unfold set_progress. run_eff.
    match goal with |- context [yield_progress ?s] =>
      destruct (yield_progress_run s m Hm) as (x & _ & ->) end.
    simpl. split.
    - intros H. apply elem_of_cons in H as [H|H]; [done|].
      by apply elem_of_nil in H.
    - by intros (? & ? & _ & ? & _). }
  destruct (download_run files tr key m Hm Hd) as (t & -> & H).
  cbv zeta in H. simpl.
  destruct (repo_info tr) as [e|info].
  { destruct H as [_ H]. split; [by intros ?%H|]. by intros (? & ? & _ & _ & ? & _). }
  destruct (mkdir_fault tr) as [e|].
  { destruct H as [_ H]. split; [by intros ?%H|].
    by intros (? & ? & _ & _ & _ & ? & _). }
  destruct H as [H _]. rewrite H. split.
  - intros [-> ->]. by exists m, info.
  - by intros (? & ? & [= <-] & _ & _ & _ & -> & ->).
Qed.

(** Every event of a download of a model of the table is a snapshot of the
    progress of that model, and there is at least one. *)
Lemma snapshot_of_key p x :
  snapshot_of p x → ∃ d, x = Snapshot d ∧ d_model_key d = model_key p.
Proof.
  intros (d & Hd & ->). exists d. split; [done|]. unfold to_dict in Hd.
  destruct (MODELS !! model_key p); [|done].
  destruct (progress_percent p); [|done]. by injection Hd as <-.
Qed.

Lemma stream_keys key ps xs :
  Forall2 snapshot_of ps xs →
  Forall (fun p => model_key p = key) ps →
  Forall (fun x => ∃ d, x = Snapshot d ∧ d_model_key d = key) xs.
Proof.
  induction 1 as [|p x ps xs Hx _ IH]; [constructor|].
  intros Hp. apply Forall_cons in Hp as [Hk Hp].
  constructor; [|by apply IH].
  destruct (snapshot_of_key p x Hx) as (d & -> & E). exists d. by rewrite E.
Qed.

Lemma download_snapshots files tr key m :
  MODELS !! key = Some m →
  ∃ t, download_model_with_progress files tr key = (inr (), t)
       ∧ yields t ≠ []
       ∧ Forall (fun x => ∃ d, x = Snapshot d ∧ d_model_key d = key)
           (yields t).
Proof.
  intros Hm. destruct (is_model_downloaded files key) eqn:Hd.
  { unfold download_model_with_progress, download_body. rewrite Hm, Hd.
    unfold set_progress. run_eff.
    match goal with |- context [yield_progress ?s] =>
      destruct (yield_progress_run s m Hm) as (x & Hx & ->) end.
    simpl. eexists. split; [reflexivity|]. split; [done|].
    constructor; [|constructor].
    destruct (snapshot_of_key _ _ Hx) as (d & -> & E). by exists d. }
  destruct (download_run files tr key m Hm Hd) as (t & Ht & H).
  exists t. split; [done|]. cbv zeta in H.
  destruct (repo_info tr) as [e|info].
  { destruct H as [H _]. split; [by inversion H|].
    apply (stream_keys key _ _ H). by repeat constructor. }
  destruct (mkdir_fault tr) as [e|].
  { destruct H as [H _]. split; [by inversion H|].
    apply (stream_keys key _ _ H). by repeat constructor. }
  destruct H as [_ H]. split; [by inversion H|].
  apply (stream_keys key _ _ H).
  destruct (poll_states_fields (polls tr) (progress_sized key info))
    as (Hall & _ & _ & Hk & _).
  apply Forall_app. split; [by repeat constructor|]. apply Forall_app. split.
  - eapply Forall_impl; [exact Hall|]. by intros q (_ & _ & _ & ->).
  - constructor; [|constructor]. by destruct (transfer_fault tr).
Qed.

End Download_facts.

(** * Further properties of the handlers of [main.py] *)

Lemma prefix_inv needle : ∀ s,
  String.prefix needle s = true → ∃ b, s = needle +:+ b.
Proof.
  induction needle as [|c needle IH]; intros s H; [by exists s|].
  destruct s as [|c' s]; [done|]. simpl in H.
  destruct (ascii_dec c c') as [<-|]; [|done].
  destruct (IH s H) as [b ->]. by exists b.
Qed.

Lemma py_contains_inv needle : ∀ s,
  py_contains needle s = true → ∃ a b, s = a +:+ needle +:+ b.
Proof.
  induction s as [|c s IH]; rewrite py_contains_unfold; intros H.
  - rewrite orb_false_r in H. apply prefix_inv in H as [b ->]. by exists "", b.
  - apply orb_true_iff in H as [H|H].
    + apply prefix_inv in H as [b ->]. by exists "", b.
    + destruct (IH H) as (a & b & ->). by exists (String c a), b.
Qed.

(** [needle in s] is the substring test. *)
Lemma py_contains_iff needle s :
  py_contains needle s = true ↔ ∃ a b, s = a +:+ needle +:+ b.
Proof.
  split; [apply py_contains_inv|]. intros (a & b & ->).
  apply py_contains_substring.
Qed.

Lemma substring_hex n : ∀ s,
  hex_string s → hex_string (String.substring 0 n s).
Proof.
  unfold hex_string. induction n as [|n IH]; intros [|a s] H; simpl;
    try constructor.
  - by inversion H.
  - apply IH. by inversion H.
Qed.

Lemma hex_wav_safe x :
  hex_string x →
  py_contains ".." (x +:+ ".wav") = false
  ∧ py_contains "/" (x +:+ ".wav") = false.
Proof.
  unfold hex_string. induction x as [|a x IH]; intros H; [by vm_compute|].
  simpl in H. apply Forall_cons in H as [Ha H]. destruct (IH H) as [IH1 IH2].
  change (String a x +:+ ".wav") with (String a (x +:+ ".wav")).
  rewrite (py_contains_unfold ".."), (py_contains_unfold "/"), IH1, IH2.
  rewrite !orb_false_r.
  destruct a as [[] [] [] [] [] [] [] []]; try discriminate Ha; by vm_compute.
Qed.

Lemma fs_remove_lookup dir name (files : FS) :
  fs_remove dir name files !! path_div dir name = None.
Proof.
  unfold fs_remove.
  destruct (delete (path_div dir name) files !! dir) as [[?|entries]|];
    try apply lookup_delete_eq.
  rewrite lookup_insert_ne by (intros H; symmetry in H; by apply path_div_ne in H).
  apply lookup_delete_eq.
Qed.

Lemma fs_remove_other dir name (files : FS) p :
  p ≠ path_div dir name → p ≠ dir → fs_remove dir name files !! p = files !! p.
Proof.
  intros H1 H2. unfold fs_remove.
  destruct (delete (path_div dir name) files !! dir) as [[?|entries]|];
    rewrite ?lookup_insert_ne by done; by apply lookup_delete_ne.
Qed.

Section Api_facts.
Context `{env : Env}.

#[local] Arguments py_contains : simpl never.
#[local] Arguments path_div : simpl never.
#[local] Arguments fs_remove : simpl never.
#[local] Arguments fs_write : simpl never.
#[local] Arguments next_filename : simpl never.
#[local] Arguments is_model_downloaded : simpl never.
#[local] Arguments py_in : simpl never.

(** The name [generate] gives its file passes the check of the audio
    handlers when the UUID is made of hexadecimal digits. *)
Lemma next_filename_safe w :
  hex_string (uuid4_hex (uuid_calls w)) →
  py_contains ".." (next_filename w) || py_contains "/" (next_filename w)
  = false.
Proof.
  intros H. apply (substring_hex 8) in H. apply hex_wav_safe in H as [H1 H2].
  unfold next_filename. revert H1 H2.
  generalize (String.substring 0 8 (uuid4_hex (uuid_calls w)) +:+ ".wav").
  intros t H1 H2.
  change (py_contains ".." ("output_" +:+ t)) with (py_contains ".." t).
  change (py_contains "/" ("output_" +:+ t)) with (py_contains "/" t).
  by rewrite H1, H2.
Qed.

(** Every way [generate_speech] can end. *)
Lemma generate_speech_outcomes request w r w1 :
  generate_speech request w = (r, w1) →
  (py_in (model request) MODELS = false
   ∧ r = inl (HTTPException 400 "Invalid model") ∧ w1 = w)
  ∨ (py_in (model request) MODELS = true
     ∧ is_model_downloaded (fs w) (model request) = false
     ∧ r = inl (HTTPException 400
                  ("Model " +:+ model request
                   +:+ " is not downloaded. Please download it first."))
     ∧ w1 = w)
  ∨ (py_in (model request) MODELS = true
     ∧ is_model_downloaded (fs w) (model request) = true
     ∧ ∃ rg, generate (text request) (model request) (speaker request)
               (temperature request) (top_p request) w = (rg, w1)
             ∧ r = match rg with
                   | inl (ValueError msg) => inl (HTTPException 400 msg)
                   | inl e => inl (HTTPException 500 (exc_str e))
                   | inr (_, filename) =>
                       inr {| success := true;
                              filename := filename;
                              audio_url := "/api/audio/" +:+ filename;
                              response_text := text request;
                              response_model := model request |}
                   end).
Proof.
  unfold generate_speech.
  destruct (py_in (model request) MODELS) eqn:Hk; simpl;
    [|intros [= <- <-]; by left].
  run_eff. destruct (is_model_downloaded (fs w) (model request)) eqn:Hd;
    simpl; [|intros [= <- <-]; right; by left].
  destruct (generate _ _ _ _ _ w) as [[e|[bytes fname]] wg] eqn:Eg; simpl.
  - destruct e; intros [= <- <-]; right; right; (do 2 (split; [done|]));
      by eexists.
  - intros [= <- <-]. right. right. do 2 (split; [done|]). by eexists.
Qed.

(** X19.  [POST /api/tts] raises nothing but HTTP errors.  The error is
    400 in exactly three cases, each with its own message and with the
    world as before: the model is not in the table, the model is not on
    disk, the text is blank.  Every other failure (the model cannot be
    constructed, a chunk cannot be synthesized, the audio cannot be saved)
    is a 500 with the message of [generate].  After a 500 the files are the
    ones from before, with one exception: when the save of the audio failed
    after creating the file, nothing removes what it had written, and it
    stays in the output directory under the new name. *)
Theorem generate_speech_errors (request : TTSRequest) (w w1 : World)
    (e : PyExc) :
  generate_speech request w = (inl e, w1) →
  (e = HTTPException 400 "Invalid model"
   ∧ py_in (model request) MODELS = false ∧ w1 = w)
  ∨ (e = HTTPException 400
           ("Model " +:+ model request
            +:+ " is not downloaded. Please download it first.")
     ∧ py_in (model request) MODELS = true
     ∧ is_model_downloaded (fs w) (model request) = false ∧ w1 = w)
  ∨ (e = HTTPException 400 "Text cannot be empty"
     ∧ truthy (strip (text request)) = false ∧ w1 = w)
  ∨ (∃ msg, e = HTTPException 500 msg
            ∧ py_in (model request) MODELS = true
            ∧ is_model_downloaded (fs w) (model request) = true
            ∧ truthy (strip (text request)) = true
            ∧ (fs w1 = fs w
               ∨ ∃ h audios fault written,
                   _models w1 !! model request = Some h
                   ∧ save_audio h (silence_between silence audios)
                       (path_div OUTPUT_DIR (next_filename w)) = inl fault
                   ∧ save_left fault = Some written
                   ∧ msg = "Failed to generate audio: " +:+ save_msg fault
                   ∧ fs w1
                     = fs_write OUTPUT_DIR (next_filename w) written (fs w))).
Proof.
  intros H. apply generate_speech_outcomes in H
    as [(Hk & [= ->] & ->)|[(Hk & Hd & [= ->] & ->)|(Hk & Hd & rg & Hg & Hr)]].
  - by left.
  - right. by left.
  - destruct rg as [eg|[bytes fname]]; [|discriminate Hr].
    destruct (generate_inl _ _ _ _ _ _ _ _ Hg) as [_ Hfs].
    assert (∀ m, eg = RuntimeError m →
              fs w1 = fs w
              ∨ ∃ h audios fault written,
                  _models w1 !! model request = Some h
                  ∧ save_audio h (silence_between silence audios)
                      (path_div OUTPUT_DIR (next_filename w)) = inl fault
                  ∧ save_left fault = Some written
                  ∧ m = "Failed to generate audio: " +:+ save_msg fault
                  ∧ fs w1
                    = fs_write OUTPUT_DIR (next_filename w) written (fs w))
      as Hfiles.
    { intros m ->. destruct Hfs as [Hfs|(h & audios & fault & written & Hh & _
                                         & Hs & Hl & [= ->] & Hw)];
        [by left|right]. by exists h, audios, fault, written. }
    apply generate_outcomes in Hg
      as [(Ht & [= ->] & ->)|[(Ht & _ & e' & Hl & [= <-])
         |(Ht & wl & h & rt & _ & _ & _ & Hrt)]].
    + injection Hr as ->. right. right. by left.
    + apply load_model_outcomes in Hl
        as [(Hk' & _)|[(_ & Hd' & _)|[(_ & _ & H & _)
           |(m & _ & _ & _ & _ & _ & _ & [(msg & _ & [= ->] & _)
                                          |(_ & H & _)])]]];
        try congruence; try discriminate H.
      injection Hr as ->. right. right. right. eexists.
      do 4 (split; [done|]). by apply Hfiles.
    + destruct rt as [e'|a]; [|discriminate Hrt]. injection Hrt as ->.
      injection Hr as ->. right. right. right. eexists.
      do 4 (split; [done|]). by apply Hfiles.
Qed.

(** X20.  When [POST /api/tts] answers, the answer names the file that
    [generate] has written, its URL is [/api/audio/<name>], the model is
    resident afterwards, and, the UUID being made of hexadecimal digits,
    [GET /api/audio/<name>] serves that file: the name passes the path
    check and the file exists. *)
Theorem generate_speech_served (request : TTSRequest) (w w1 : World)
    (resp : TTSResponse) :
  generate_speech request w = (inr resp, w1) →
  hex_string (uuid4_hex (uuid_calls w)) →
  success resp = true
  ∧ response_text resp = text request
  ∧ response_model resp = model request
  ∧ filename resp = next_filename w
  ∧ audio_url resp = "/api/audio/" +:+ filename resp
  ∧ py_in (model request) (_models w1) = true
  ∧ (∃ data, fs w1 !! path_div OUTPUT_DIR (filename resp) = Some (File data))
  ∧ get_audio (filename resp) w1
    = (inr (FileResponse (path_div OUTPUT_DIR (filename resp)) "audio/wav"
              (filename resp)), w1).
Proof.
  intros H Hhex. apply generate_speech_outcomes in H
    as [(_ & H & _)|[(_ & _ & H & _)|(Hk & Hd & rg & Hg & Hr)]];
    try discriminate H.
  destruct rg as [eg|[bytes fname]]; [by destruct eg|]. injection Hr as ->.
  apply generate_inr in Hg as (-> & _ & Hfile & _ & h & _ & Hh & _).
  simpl. do 5 (split; [done|]).
  split; [by apply py_in_Some; eexists|]. split; [by eexists|].
  unfold get_audio. rewrite (next_filename_safe w Hhex). run_eff.
  unfold path_exists. by rewrite Hfile.
Qed.

(** X21.  [POST /api/models/{key}/load] answers or raises an HTTP error:
    404 for a key that is not in the table, 400 for a model that is not on
    disk, both without touching the world; otherwise the success message,
    with the model resident and current afterwards, or, when the model
    cannot be constructed, 500 with the message of [load_model], the
    registry being as before. *)
Theorem api_load_model_outcomes (key : string) (w w1 : World)
    (r : PyExc + Response) :
  main.load_model key w = (r, w1) →
  fs w1 = fs w
  ∧ ((py_in key MODELS = false
      ∧ r = inl (HTTPException 404 "Model not found") ∧ w1 = w)
     ∨ (py_in key MODELS = true ∧ is_model_downloaded (fs w) key = false
        ∧ r = inl (HTTPException 400 "Model not downloaded") ∧ w1 = w)
     ∨ (py_in key MODELS = true ∧ is_model_downloaded (fs w) key = true
        ∧ r = inr (JsonMessage true ("Model " +:+ key +:+ " loaded"))
        ∧ py_in key (_models w1) = true
        ∧ _current_model_key w1 = Some key)
     ∨ (py_in key MODELS = true ∧ is_model_downloaded (fs w) key = true
        ∧ py_in key (_models w) = false
        ∧ (∃ msg, r = inl (HTTPException 500
                             ("Failed to load model: " +:+ msg)))
        ∧ _models w1 = _models w
        ∧ _current_model_key w1 = _current_model_key w)).
Proof.
  unfold main.load_model.
  destruct (py_in key MODELS) eqn:Hk; simpl;
    [|intros [= <- <-]; split; [done|]; by left].
  run_eff. destruct (is_model_downloaded (fs w) key) eqn:Hd; simpl;
    [|intros [= <- <-]; split; [done|]; right; by left].
  destruct (load_model key w) as [rl wl] eqn:El.
  apply load_model_outcomes in El
    as [(Hk' & _)|[(_ & Hd' & _)|[(_ & Hl & -> & ->)
       |(m & Hm & _ & Hl & Hfs & _ & _ & [(msg & _ & -> & Hmod & Hcur)
                                           |(_ & -> & Hmod & Hcur)])]]];
    try congruence; simpl; intros [= <- <-].
  - split; [done|]. right. right. left. by repeat split.
  - split; [done|]. right. right. right. repeat split; try done.
    by exists msg.
  - split; [done|]. right. right. left. repeat split; try done.
    apply py_in_Some. rewrite Hmod, lookup_insert_eq. by eexists.
Qed.

(** X22.  [POST /api/models/{key}/unload] for a key of the table always
    answers with the success message, whether or not the model was
    resident; afterwards it is not resident, the other handles and the
    files are as before. *)
Theorem api_unload_model (key : string) (w : World) :
  py_in key MODELS = true →
  ∃ w1,
    main.unload_model key w
    = (inr (JsonMessage true ("Model " +:+ key +:+ " unloaded")), w1)
    ∧ py_in key (_models w1) = false
    ∧ (∀ k, k ≠ key → _models w1 !! k = _models w !! k)
    ∧ fs w1 = fs w
    ∧ (py_in key (_models w) = false → w1 = w).
Proof.
  intros Hk. unfold main.unload_model, unload_model. rewrite Hk. run_eff.
  destruct (py_in key (_models w)) eqn:Hl; simpl.
  - case_bool_decide; simpl; eexists; (split; [reflexivity|]); simpl;
      (split; [apply py_in_None, lookup_delete_eq|]);
      (split; [intros k Hne; by apply lookup_delete_ne|]); done.
  - exists w. by repeat split.
Qed.

(** X23.  For a plain entry name (not empty, not [.], at most [NAME_MAX]
    bytes, the path below [PATH_MAX]) [GET /api/audio/{name}] leaves the
    world as it is and has three outcomes: 400 exactly for a name in which
    [..] or [/] occurs, 404 for another name with no entry in the output
    directory, and otherwise the file response for the path of that entry,
    as [audio/wav]. *)
Theorem get_audio_outcomes (name : string) (w w1 : World)
    (r : PyExc + Response) :
  plain_name name →
  get_audio name w = (r, w1) →
  w1 = w
  ∧ let traversal :=
      (∃ a b, name = a +:+ ".." +:+ b) ∨ (∃ a b, name = a +:+ "/" +:+ b) in
    (r = inl (HTTPException 400 "Invalid filename") ∧ traversal)
    ∨ (r = inl (HTTPException 404 "Audio file not found") ∧ ¬ traversal
       ∧ fs w !! path_div OUTPUT_DIR name = None)
    ∨ (r = inr (FileResponse (path_div OUTPUT_DIR name) "audio/wav" name)
       ∧ ¬ traversal ∧ is_Some (fs w !! path_div OUTPUT_DIR name)).
Proof.
  intros _. unfold get_audio.
  destruct (py_contains ".." name || py_contains "/" name) eqn:Hc.
  { intros [= <- <-]. split; [done|]. left. split; [done|].
    apply orb_true_iff in Hc as [Hc|Hc]; apply py_contains_iff in Hc; tauto. }
  assert (¬ ((∃ a b, name = a +:+ ".." +:+ b)
             ∨ (∃ a b, name = a +:+ "/" +:+ b))) as Hn.
  { apply orb_false_iff in Hc as [H1 H2].
    intros [H|H]; apply py_contains_iff in H; congruence. }
  run_eff. unfold path_exists.
  destruct (fs w !! path_div OUTPUT_DIR name) as [node|] eqn:Hf; simpl;
    intros [= <- <-]; (split; [done|]); right; [right|left]; done.
Qed.

(** X24.  Deleting a served audio file: when [GET /api/audio/{name}] serves
    a regular file, [DELETE /api/audio/{name}] answers "File deleted";
    afterwards the file is gone, the other files and the registry are as
    before, a second [GET] is a 404 and a second [DELETE] answers "File not
    found" without raising. *)
Theorem audio_delete_roundtrip (name : string) (w : World) (data : list N)
    (resp : Response) :
  get_audio name w = (inr resp, w) →
  fs w !! path_div OUTPUT_DIR name = Some (File data) →
  ∃ w1,
    delete_audio name w = (inr (JsonMessage true "File deleted"), w1)
    ∧ fs w1 !! path_div OUTPUT_DIR name = None
    ∧ (∀ p, p ≠ path_div OUTPUT_DIR name → p ≠ OUTPUT_DIR →
         fs w1 !! p = fs w !! p)
    ∧ registry w1 = registry w
    ∧ get_audio name w1
      = (inl (HTTPException 404 "Audio file not found"), w1)
    ∧ delete_audio name w1
      = (inr (JsonMessage false "File not found"), w1).
Proof.
  intros Hg Hf.
  assert (py_contains ".." name || py_contains "/" name = false) as Hc.
  { unfold get_audio in Hg.
    by destruct (py_contains ".." name || py_contains "/" name). }
  exists (set_fs (fs_remove OUTPUT_DIR name) w).
  pose proof (fs_remove_lookup OUTPUT_DIR name (fs w)) as Hgone.
  split.
  { unfold delete_audio, os_remove. rewrite Hc. run_eff.
    unfold path_exists. rewrite Hf. simpl. by rewrite Hf. }
  split; [exact Hgone|].
  split; [intros p H1 H2; by apply fs_remove_other|].
  split; [done|]. split.
  - unfold get_audio. rewrite Hc. run_eff. unfold path_exists.
    by rewrite Hgone.
  - unfold delete_audio. rewrite Hc. run_eff. unfold path_exists.
    by rewrite Hgone.
Qed.

(** X25.  [GET /api/models/{key}/download] raises 404 for a key that is not
    in the table, so the "Unknown model" event of the generator is never
    sent through the API: for a key of the table the stream does not raise,
    has at least one event, and every event is a snapshot of the progress
    of that model.  The handler itself changes nothing. *)
Theorem api_download_stream (tr : Transfer) (key : string) (w w1 : World)
    (r : PyExc + (HubExc + unit) * list Action) :
  main.download_model tr key w = (r, w1) →
  w1 = w
  ∧ ((py_in key MODELS = false
      ∧ r = inl (HTTPException 404 "Model not found"))
     ∨ (py_in key MODELS = true
        ∧ ∃ t, r = inr (inr (), t)
               ∧ download_model_with_progress (fs w) tr key = (inr (), t)
               ∧ yields t ≠ []
               ∧ Forall (fun x => ∃ d, x = Snapshot d ∧ d_model_key d = key)
                   (yields t))).
Proof.
  unfold main.download_model.
  destruct (py_in key MODELS) eqn:Hk; simpl;
    [|intros [= <- <-]; split; [done|]; by left].
  run_eff. intros [= <- <-]. split; [done|]. right. split; [done|].
  apply py_in_Some in Hk as [m Hm].
  destruct (download_snapshots (fs w) tr key m Hm) as (t & Ht & Hne & Hall).
  exists t. by rewrite Ht.
Qed.

End Api_facts.

(** * The further statements on a concrete installation *)

Lemma progress_percent_monotone_witness :
  let p1 := with_sizes 15 3 (DownloadProgress_init "en") in
  let p2 := with_sizes 15 12 (DownloadProgress_init "en") in
  total_size p1 = total_size p2 ∧ 0 ≤ total_size p1
  ∧ 0 ≤ downloaded_size p1
  ∧ downloaded_size p1 ≤ downloaded_size p2
  ∧ quotient_in_range p2
  ∧ ∃ q1 q2,
      quotient_in_range p1
      ∧ progress_percent p1 = Some q1 ∧ progress_percent p2 = Some q2
      ∧ (q1 <= q2)%Q
      ∧ (0 < total_size p1 → total_size p1 ≤ downloaded_size p1 → q1 = 100%Q).
Proof.
  assert (total_size (with_sizes 15 3 (DownloadProgress_init "en"))
          = total_size (with_sizes 15 12 (DownloadProgress_init "en"))) as H1
    by reflexivity.
  assert (0 ≤ total_size (with_sizes 15 3 (DownloadProgress_init "en"))) as H2
    by (by vm_compute).
  assert (0 ≤ downloaded_size (with_sizes 15 3 (DownloadProgress_init "en")))
    as H3 by (by vm_compute).
  assert (downloaded_size (with_sizes 15 3 (DownloadProgress_init "en"))
          ≤ downloaded_size (with_sizes 15 12 (DownloadProgress_init "en")))
    as H4 by (by vm_compute).
  assert (quotient_in_range (with_sizes 15 12 (DownloadProgress_init "en")))
    as H5 by (right; by vm_compute).
  split; [exact H1|split; [exact H2|split; [exact H3|split; [exact H4|
    split; [exact H5|]]]]].
  exact (progress_percent_monotone _ _ H1 H2 H3 H4 H5).
Defined.

Lemma to_dict_percent_witness :
  let p := with_sizes 15 15 (DownloadProgress_init "en") in
  ∃ m, @MODELS test_env !! model_key p = Some m
  ∧ 0 ≤ total_size p ∧ 0 ≤ downloaded_size p
  ∧ quotient_in_range p
  ∧ ∃ d,
      @to_dict test_env p = inr d
      ∧ d_model_name d = name m ∧ d_status d = status p
      ∧ d_total_size d = total_size p
      ∧ d_downloaded_size d = downloaded_size p
      ∧ d_error_message d = error_message p
      ∧ (total_size p = 0 ∨ downloaded_size p = 0 →
         (d_progress_percent d == 0)%Q)
      ∧ (0 < total_size p ≤ downloaded_size p →
         (d_progress_percent d == 100)%Q).
Proof.
  assert (0 ≤ total_size (with_sizes 15 15 (DownloadProgress_init "en")))
    as H2 by (by vm_compute).
  assert (0 ≤ downloaded_size (with_sizes 15 15 (DownloadProgress_init "en")))
    as H3 by (by vm_compute).
  assert (quotient_in_range (with_sizes 15 15 (DownloadProgress_init "en")))
    as H4 by (right; by vm_compute).
  eexists. split; [by vm_compute|].
  split; [exact H2|split; [exact H3|split; [exact H4|]]].
  exact (@to_dict_percent test_env
           (with_sizes 15 15 (DownloadProgress_init "en")) _ eq_refl H2 H3 H4).
Defined.

#[local] Existing Instance test_env.

Lemma load_model_errors_witness :
  let w := TTSService_init test_fs in
  let e := RuntimeError "Model de is not downloaded" in
  load_model "de" w = (inl e, w)
  ∧ ((∃ msg, e = ValueError msg) ↔ py_in "de" MODELS = false)
  ∧ ((∃ msg, e = RuntimeError msg) ↔ py_in "de" MODELS = true)
  ∧ _models w = _models w
  ∧ _current_model_key w = _current_model_key w
  ∧ fs w = fs w.
Proof.
  assert (load_model "de" (TTSService_init test_fs)
          = (inl (RuntimeError "Model de is not downloaded"),
             TTSService_init test_fs)) as H by (by vm_compute).
  split; [exact H|].
  exact (@load_model_errors test_env "de" _ _ _ H).
Defined.

Lemma load_unload_roundtrip_witness :
  let w := TTSService_init test_fs in
  let w1 := test_world_loaded test_env in
  py_in "en" (_models w) = false
  ∧ load_model "en" w = (inr true, w1)
  ∧ ∃ w2, unload_model "en" w1 = (inr true, w2)
          ∧ _models w2 = _models w
          ∧ _current_model_key w2 = None
          ∧ fs w2 = fs w.
Proof.
  assert (py_in "en" (_models (TTSService_init test_fs)) = false) as H1
    by (by vm_compute).
  assert (load_model "en" (TTSService_init test_fs)
          = (inr true, test_world_loaded test_env)) as H2 by (by vm_compute).
  split; [exact H1|split; [exact H2|]].
  exact (@load_unload_roundtrip test_env "en" _ _ true H1 H2).
Defined.

Lemma generate_raises_witness :
  let w := @test_world_loaded test_env_save_fails in
  let w1 :=
    snd (@generate test_env_save_fails (text_of "Hi. Yo") "en" None (7 # 10)
           (9 # 10) w) in
  let e := RuntimeError
             "Failed to generate audio: No space left on device" in
  @generate test_env_save_fails (text_of "Hi. Yo") "en" None (7 # 10)
    (9 # 10) w = (inl e, w1)
  ∧ fs w1 !! "/srv/kani/output/output_01234567.wav"
    = Some (File [82; 73; 70; 70]%N)
  ∧ ((∃ msg, e = ValueError msg) ∨ (∃ msg, e = RuntimeError msg))
  ∧ (fs w1 = fs w
     ∨ ∃ h audios fault written,
         _models w1 !! "en" = Some h
         ∧ Forall2
             (fun c a =>
                @model_call test_env_save_fails h c
                  (py_or None (DEFAULT_SPEAKERS !! "en")) = inr a)
             (split_into_sentences (text_of "Hi. Yo")) audios
         ∧ @save_audio test_env_save_fails h
             (silence_between silence audios)
             (path_div (@OUTPUT_DIR test_env_save_fails)
                (@next_filename test_env_save_fails w)) = inl fault
         ∧ save_left fault = Some written
         ∧ e = RuntimeError ("Failed to generate audio: " +:+ save_msg fault)
         ∧ fs w1
           = fs_write (@OUTPUT_DIR test_env_save_fails)
               (@next_filename test_env_save_fails w) written (fs w)).
Proof.
  assert (@generate test_env_save_fails (text_of "Hi. Yo") "en" None (7 # 10)
            (9 # 10) (@test_world_loaded test_env_save_fails)
          = (inl (RuntimeError
                    "Failed to generate audio: No space left on device"),
             snd (@generate test_env_save_fails (text_of "Hi. Yo") "en" None
                    (7 # 10) (9 # 10)
                    (@test_world_loaded test_env_save_fails)))) as H
    by (by vm_compute).
  split; [exact H|]. split; [by vm_compute|].
  exact (@generate_raises test_env_save_fails _ _ _ _ _ _ _ _ H).
Defined.

Lemma generate_returns_witness :
  let w := TTSService_init test_fs in
  let w1 := snd (generate (text_of "Hi. Yo") "en" None (7 # 10) (9 # 10) w) in
  let audio_bytes := [82; 73; 70; 70]%N in
  let filename := "output_01234567.wav" in
  generate (text_of "Hi. Yo") "en" None (7 # 10) (9 # 10) w
  = (inr (audio_bytes, filename), w1)
  ∧ filename = next_filename w
  ∧ fs w1 = fs_write OUTPUT_DIR filename audio_bytes (fs w)
  ∧ fs w1 !! path_div OUTPUT_DIR filename = Some (File audio_bytes)
  ∧ uuid_calls w1 = S (uuid_calls w)
  ∧ ∃ h audios,
      _models w1 !! "en" = Some h
      ∧ Forall2
          (fun c a =>
             model_call h c (py_or None (DEFAULT_SPEAKERS !! "en")) = inr a)
          (split_into_sentences (text_of "Hi. Yo")) audios
      ∧ save_audio h (silence_between silence audios)
          (path_div OUTPUT_DIR filename) = inr audio_bytes.
Proof.
  assert (generate (text_of "Hi. Yo") "en" None (7 # 10) (9 # 10)
            (TTSService_init test_fs)
          = (inr ([82; 73; 70; 70]%N, "output_01234567.wav"),
             snd (generate (text_of "Hi. Yo") "en" None (7 # 10) (9 # 10)
                    (TTSService_init test_fs)))) as H by (by vm_compute).
  split; [exact H|].
  exact (@generate_returns test_env _ _ _ _ _ _ _ _ _ H).
Defined.

Lemma generate_chunk_failure_witness :
  let w := test_world_loaded test_env_failing in
  let h := {| handle_id := 0;
              handle_path := "/srv/kani/models/kani-tts-400m-en" |} in
  let text := text_of "Hi. This is long" in
  let speaker_id := py_or None (DEFAULT_SPEAKERS !! "en") in
  truthy (strip text) = true
  ∧ _models w !! "en" = Some h
  ∧ split_into_sentences text = [text_of "Hi."] ++ text_of "This is long" :: []
  ∧ Forall (fun x => ∃ a, @model_call test_env_failing h x speaker_id = inr a)
      [text_of "Hi."]
  ∧ @model_call test_env_failing h (text_of "This is long") speaker_id
    = inl "CUDA out of memory"
  ∧ @generate test_env_failing text "en" None (7 # 10) (9 # 10) w
    = (inl (RuntimeError
              ("Failed to generate audio: " +:+ "CUDA out of memory")), w).
Proof.
  assert (truthy (strip (text_of "Hi. This is long")) = true) as H1
    by (by vm_compute).
  assert (_models (test_world_loaded test_env_failing) !! "en"
          = Some {| handle_id := 0;
                    handle_path := "/srv/kani/models/kani-tts-400m-en" |})
    as H2 by (by vm_compute).
  assert (split_into_sentences (text_of "Hi. This is long")
          = [text_of "Hi."] ++ text_of "This is long" :: []) as H3
    by (by vm_compute).
  assert (Forall
            (fun x => ∃ a,
               @model_call test_env_failing
                 {| handle_id := 0;
                    handle_path := "/srv/kani/models/kani-tts-400m-en" |} x
                 (py_or None (DEFAULT_SPEAKERS !! "en")) = inr a)
            [text_of "Hi."]) as H4
    by (constructor; [eexists; by vm_compute|constructor]).
  assert (@model_call test_env_failing
            {| handle_id := 0;
               handle_path := "/srv/kani/models/kani-tts-400m-en" |}
            (text_of "This is long") (py_or None (DEFAULT_SPEAKERS !! "en"))
          = inl "CUDA out of memory") as H5 by (by vm_compute).
  split; [exact H1|split; [exact H2|split; [exact H3|split; [exact H4|
    split; [exact H5|]]]]].
  exact (@generate_chunk_failure test_env_failing _ "en" None (7 # 10)
           (9 # 10) _ _ _ [] _ _ H1 H2 H3 H4 H5).
Defined.

Lemma generate_success_witness :
  let w := test_world_loaded test_env in
  let h := {| handle_id := 0;
              handle_path := "/srv/kani/models/kani-tts-400m-en" |} in
  let text := text_of "Hi. Yo" in
  let audios := [replicate 3 (1 # 2)%Q; replicate 2 (1 # 2)%Q] in
  let data := [82; 73; 70; 70]%N in
  let speaker_id := py_or None (DEFAULT_SPEAKERS !! "en") in
  truthy (strip text) = true
  ∧ _models w !! "en" = Some h
  ∧ Forall2 (fun c a => model_call h c speaker_id = inr a)
      (split_into_sentences text) audios
  ∧ save_audio h (silence_between silence audios)
      (path_div OUTPUT_DIR (next_filename w)) = inr data
  ∧ ∃ w1,
      generate text "en" None (7 # 10) (9 # 10) w
      = (inr (data, next_filename w), w1)
      ∧ fs w1 !! path_div OUTPUT_DIR (next_filename w) = Some (File data)
      ∧ registry w1 = registry w.
Proof.
  assert (truthy (strip (text_of "Hi. Yo")) = true) as H1 by (by vm_compute).
  assert (_models (test_world_loaded test_env) !! "en"
          = Some {| handle_id := 0;
                    handle_path := "/srv/kani/models/kani-tts-400m-en" |})
    as H2 by (by vm_compute).
  assert (Forall2
            (fun c a =>
               model_call
                 {| handle_id := 0;
                    handle_path := "/srv/kani/models/kani-tts-400m-en" |} c
                 (py_or None (DEFAULT_SPEAKERS !! "en")) = inr a)
            (split_into_sentences (text_of "Hi. Yo"))
            [replicate 3 (1 # 2)%Q; replicate 2 (1 # 2)%Q]) as H3
    by (vm_compute; repeat constructor).
  assert (save_audio
            {| handle_id := 0;
               handle_path := "/srv/kani/models/kani-tts-400m-en" |}
            (silence_between silence
               [replicate 3 (1 # 2)%Q; replicate 2 (1 # 2)%Q])
            (path_div OUTPUT_DIR (next_filename (test_world_loaded test_env)))
          = inr [82; 73; 70; 70]%N) as H4 by reflexivity.
  split; [exact H1|split; [exact H2|split; [exact H3|split; [exact H4|]]]].
  exact (@generate_success test_env _ "en" None (7 # 10) (9 # 10) _ _ _ _
           H1 H2 H3 H4).
Defined.

Lemma download_stream_terminal_witness :
  let m := {| name := "German (Multilingual)";
              repo_id := "nineninesix/kani-tts-370m";
              local_path := "/srv/kani/models/kani-tts-370m" |} in
  MODELS !! "de" = Some m
  ∧ is_model_downloaded test_fs "de" = false
  ∧ ∃ t pre last,
      download_model_with_progress test_fs test_transfer "de" = (inr (), t)
      ∧ yields t = pre ++ [last]
      ∧ Forall (fun x => payload_status x = downloading
                         ∧ payload_error x = None) pre
      ∧ match first_fault test_transfer with
        | None =>
            payload_status last = completed ∧ payload_error last = None
            ∧ ∃ n, payload_sizes last = (n, n)
        | Some e =>
            payload_status last = error
            ∧ payload_error last = Some (fault_message e)
        end.
Proof.
  assert (MODELS !! "de"
          = Some {| name := "German (Multilingual)";
                    repo_id := "nineninesix/kani-tts-370m";
                    local_path := "/srv/kani/models/kani-tts-370m" |}) as H1
    by (by vm_compute).
  assert (is_model_downloaded test_fs "de" = false) as H2 by (by vm_compute).
  split; [exact H1|split; [exact H2|]].
  exact (@download_stream_terminal test_env test_fs test_transfer "de" _
           H1 H2).
Defined.

Lemma download_stream_success_witness :
  let m := {| name := "German (Multilingual)";
              repo_id := "nineninesix/kani-tts-370m";
              local_path := "/srv/kani/models/kani-tts-370m" |} in
  MODELS !! "de" = Some m
  ∧ is_model_downloaded test_fs "de" = false
  ∧ first_fault test_transfer = None
  ∧ ∃ t info,
      download_model_with_progress test_fs test_transfer "de" = (inr (), t)
      ∧ repo_info test_transfer = inr info
      ∧ let total := siblings_size (default [] info) in
        map payload_sizes (yields t)
        = [(0, 0); (total, 0)]
          ++ map (fun sample => (total, sample.1)) (polls test_transfer)
          ++ [(total, total)]
        ∧ map payload_status (yields t)
          = replicate (2 + length (polls test_transfer)) downloading
            ++ [completed].
Proof.
  assert (MODELS !! "de"
          = Some {| name := "German (Multilingual)";
                    repo_id := "nineninesix/kani-tts-370m";
                    local_path := "/srv/kani/models/kani-tts-370m" |}) as H1
    by (by vm_compute).
  assert (is_model_downloaded test_fs "de" = false) as H2 by (by vm_compute).
  assert (first_fault test_transfer = None) as H3 by reflexivity.
  split; [exact H1|split; [exact H2|split; [exact H3|]]].
  exact (@download_stream_success test_env test_fs test_transfer "de" _
           H1 H2 H3).
Defined.

Lemma generate_speech_errors_witness :
  let w := TTSService_init test_fs in
  let request := test_request "en" (text_of "Hi. Yo") in
  let w1 := snd (@generate_speech test_env_save_fails request w) in
  let e := HTTPException 500
             "Failed to generate audio: No space left on device" in
  @generate_speech test_env_save_fails request w = (inl e, w1)
  ∧ fs w1 !! "/srv/kani/output/output_01234567.wav"
    = Some (File [82; 73; 70; 70]%N)
  ∧ ((e = HTTPException 400 "Invalid model"
      ∧ py_in (model request) (@MODELS test_env_save_fails) = false ∧ w1 = w)
     ∨ (e = HTTPException 400
              ("Model " +:+ model request
               +:+ " is not downloaded. Please download it first.")
        ∧ py_in (model request) (@MODELS test_env_save_fails) = true
        ∧ @is_model_downloaded test_env_save_fails (fs w) (model request)
          = false
        ∧ w1 = w)
     ∨ (e = HTTPException 400 "Text cannot be empty"
        ∧ truthy (strip (text request)) = false ∧ w1 = w)
     ∨ (∃ msg, e = HTTPException 500 msg
               ∧ py_in (model request) (@MODELS test_env_save_fails) = true
               ∧ @is_model_downloaded test_env_save_fails (fs w)
                   (model request) = true
               ∧ truthy (strip (text request)) = true
               ∧ (fs w1 = fs w
                  ∨ ∃ h audios fault written,
                      _models w1 !! model request = Some h
                      ∧ @save_audio test_env_save_fails h
                          (silence_between silence audios)
                          (path_div (@OUTPUT_DIR test_env_save_fails)
                             (@next_filename test_env_save_fails w))
                        = inl fault
                      ∧ save_left fault = Some written
                      ∧ msg = "Failed to generate audio: " +:+ save_msg fault
                      ∧ fs w1
                        = fs_write (@OUTPUT_DIR test_env_save_fails)
                            (@next_filename test_env_save_fails w) written
                            (fs w)))).
Proof.
  assert (@generate_speech test_env_save_fails
            (test_request "en" (text_of "Hi. Yo")) (TTSService_init test_fs)
          = (inl (HTTPException 500
                    "Failed to generate audio: No space left on device"),
             snd (@generate_speech test_env_save_fails
                    (test_request "en" (text_of "Hi. Yo"))
                    (TTSService_init test_fs)))) as H by (by vm_compute).
  split; [exact H|]. split; [by vm_compute|].
  exact (@generate_speech_errors test_env_save_fails _ _ _ _ H).
Defined.

Lemma generate_speech_served_witness :
  let w := TTSService_init test_fs in
  let request := test_request "en" (text_of "Hi. Yo") in
  let w1 := snd (generate_speech request w) in
  let resp := {| success := true;
                 filename := "output_01234567.wav";
                 audio_url := "/api/audio/output_01234567.wav";
                 response_text := text_of "Hi. Yo";
                 response_model := "en" |} in
  generate_speech request w = (inr resp, w1)
  ∧ hex_string (uuid4_hex (uuid_calls w))
  ∧ success resp = true
  ∧ response_text resp = text request
  ∧ response_model resp = model request
  ∧ filename resp = next_filename w
  ∧ audio_url resp = "/api/audio/" +:+ filename resp
  ∧ py_in (model request) (_models w1) = true
  ∧ (∃ data, fs w1 !! path_div OUTPUT_DIR (filename resp) = Some (File data))
  ∧ get_audio (filename resp) w1
    = (inr (FileResponse (path_div OUTPUT_DIR (filename resp)) "audio/wav"
              (filename resp)), w1).
Proof.
  assert (generate_speech (test_request "en" (text_of "Hi. Yo"))
            (TTSService_init test_fs)
          = (inr {| success := true;
                    filename := "output_01234567.wav";
                    audio_url := "/api/audio/output_01234567.wav";
                    response_text := text_of "Hi. Yo";
                    response_model := "en" |},
             snd (generate_speech (test_request "en" (text_of "Hi. Yo"))
                    (TTSService_init test_fs)))) as H1 by (by vm_compute).
  assert (hex_string (uuid4_hex (uuid_calls (TTSService_init test_fs))))
    as H2 by (unfold hex_string; simpl; repeat constructor).
  split; [exact H1|split; [exact H2|]].
  exact (@generate_speech_served test_env _ _ _ _ H1 H2).
Defined.

Lemma api_load_model_outcomes_witness :
  let w := TTSService_init test_fs in
  let w1 := test_world_loaded test_env in
  let r := inr (JsonMessage true "Model en loaded") in
  main.load_model "en" w = (r, w1)
  ∧ fs w1 = fs w
  ∧ ((py_in "en" MODELS = false
      ∧ r = inl (HTTPException 404 "Model not found") ∧ w1 = w)
     ∨ (py_in "en" MODELS = true ∧ is_model_downloaded (fs w) "en" = false
        ∧ r = inl (HTTPException 400 "Model not downloaded") ∧ w1 = w)
     ∨ (py_in "en" MODELS = true ∧ is_model_downloaded (fs w) "en" = true
        ∧ r = inr (JsonMessage true ("Model " +:+ "en" +:+ " loaded"))
        ∧ py_in "en" (_models w1) = true
        ∧ _current_model_key w1 = Some "en")
     ∨ (py_in "en" MODELS = true ∧ is_model_downloaded (fs w) "en" = true
        ∧ py_in "en" (_models w) = false
        ∧ (∃ msg, r = inl (HTTPException 500
                             ("Failed to load model: " +:+ msg)))
        ∧ _models w1 = _models w
        ∧ _current_model_key w1 = _current_model_key w)).
Proof.
  assert (main.load_model "en" (TTSService_init test_fs)
          = (inr (JsonMessage true "Model en loaded"),
             test_world_loaded test_env)) as H by (by vm_compute).
  split; [exact H|].
  exact (@api_load_model_outcomes test_env "en" _ _ _ H).
Defined.

Lemma api_unload_model_witness :
  let w := test_world_loaded test_env in
  py_in "en" MODELS = true
  ∧ ∃ w1,
      main.unload_model "en" w
      = (inr (JsonMessage true ("Model " +:+ "en" +:+ " unloaded")), w1)
      ∧ py_in "en" (_models w1) = false
      ∧ (∀ k, k ≠ "en" → _models w1 !! k = _models w !! k)
      ∧ fs w1 = fs w
      ∧ (py_in "en" (_models w) = false → w1 = w).
Proof.
  assert (py_in "en" MODELS = true) as H by (by vm_compute).
  split; [exact H|].
  exact (@api_unload_model test_env "en" (test_world_loaded test_env) H).
Defined.

Lemma get_audio_outcomes_witness :
  let w := TTSService_init test_fs in
  let r := inl (HTTPException 404 "Audio file not found") in
  let name := "nope.wav" in
  plain_name name
  ∧ get_audio name w = (r, w)
  ∧ w = w
  ∧ let traversal :=
      (∃ a b, name = a +:+ ".." +:+ b) ∨ (∃ a b, name = a +:+ "/" +:+ b) in
    (r = inl (HTTPException 400 "Invalid filename") ∧ traversal)
    ∨ (r = inl (HTTPException 404 "Audio file not found") ∧ ¬ traversal
       ∧ fs w !! path_div OUTPUT_DIR name = None)
    ∨ (r = inr (FileResponse (path_div OUTPUT_DIR name) "audio/wav" name)
       ∧ ¬ traversal ∧ is_Some (fs w !! path_div OUTPUT_DIR name)).
Proof.
  assert (plain_name "nope.wav") as H0
    by (split; [done|split; [done|split; vm_compute; lia]]).
  assert (get_audio "nope.wav" (TTSService_init test_fs)
          = (inl (HTTPException 404 "Audio file not found"),
             TTSService_init test_fs)) as H by (by vm_compute).
  split; [exact H0|split; [exact H|]].
  exact (@get_audio_outcomes test_env _ _ _ _ H0 H).
Defined.

Lemma audio_delete_roundtrip_witness :
  let w := test_world_audio in
  let name := "a.wav" in
  let resp := FileResponse "/srv/kani/output/a.wav" "audio/wav" "a.wav" in
  get_audio name w = (inr resp, w)
  ∧ fs w !! path_div OUTPUT_DIR name = Some (File [82; 73; 70; 70]%N)
  ∧ ∃ w1,
      delete_audio name w = (inr (JsonMessage true "File deleted"), w1)
      ∧ fs w1 !! path_div OUTPUT_DIR name = None
      ∧ (∀ p, p ≠ path_div OUTPUT_DIR name → p ≠ OUTPUT_DIR →
           fs w1 !! p = fs w !! p)
      ∧ registry w1 = registry w
      ∧ get_audio name w1
        = (inl (HTTPException 404 "Audio file not found"), w1)
      ∧ delete_audio name w1
        = (inr (JsonMessage false "File not found"), w1).
Proof.
  assert (get_audio "a.wav" test_world_audio
          = (inr (FileResponse "/srv/kani/output/a.wav" "audio/wav" "a.wav"),
             test_world_audio)) as H1 by (by vm_compute).
  assert (fs test_world_audio !! path_div OUTPUT_DIR "a.wav"
          = Some (File [82; 73; 70; 70]%N)) as H2 by (by vm_compute).
  split; [exact H1|split; [exact H2|]].
  exact (@audio_delete_roundtrip test_env _ _ _ _ H1 H2).
Defined.

Lemma api_download_stream_witness :
  let w := TTSService_init test_fs in
  let r := inr (download_model_with_progress test_fs test_transfer "de") in
  main.download_model test_transfer "de" w = (r, w)
  ∧ w = w
  ∧ ((py_in "de" MODELS = false
      ∧ r = inl (HTTPException 404 "Model not found"))
     ∨ (py_in "de" MODELS = true
        ∧ ∃ t, r = inr (inr (), t)
               ∧ download_model_with_progress (fs w) test_transfer "de"
                 = (inr (), t)
               ∧ yields t ≠ []
               ∧ Forall (fun x => ∃ d, x = Snapshot d ∧ d_model_key d = "de")
                   (yields t))).
Proof.
  assert (main.download_model test_transfer "de" (TTSService_init test_fs)
          = (inr (download_model_with_progress test_fs test_transfer "de"),
             TTSService_init test_fs)) as H by (by vm_compute).
  split; [exact H|].
  exact (@api_download_stream test_env _ _ _ _ _ H).
Defined.
